(** * dynamic-mcp-hub: conversion engine, registry, dispatcher, lifespans

    A shallow embedding of the Python sources under [app/]:
    [openapi_to_mcp.py], [openapi_loader.py], [registry.py],
    [mcp_dispatcher.py] and the control-plane handlers of [main.py].

    Conventions of the embedding.
    - A Python [str] is a [string]; each [ascii] stands for the code point
      of the same number, so the texts covered are those over code
      points 0..255.
    - A parsed document is a [json] tree; a Python [dict] is an
      association list in insertion order whose keys are strings and
      pairwise distinct, and lookups return the first binding.
    - A call that can raise returns a [result]; the exception classes
      are those Python raises at that place.
    - The code of pydantic and FastMCP is not part of the package:
      the two calls whose outcome depends on what the converter hands
      them, [create_model] and [mcp.tool], are parameters
      ([Engine.Library]). *)

From Stdlib Require Import ZArith QArith_base Ascii String List DecimalString.
From stdpp Require Import gmap strings list fin_maps.

Local Open Scope string_scope.
Local Open Scope list_scope.

(** ** Text primitives of Python's [str] *)

Module PyStr.

Definition chars := list ascii.

Definition of_chars : chars -> string := string_of_list_ascii.
Definition to_chars : string -> chars := list_ascii_of_string.

Definition code (c : ascii) : N := N_of_ascii c.

Definition in_range (lo hi : N) (c : ascii) : bool :=
  ((lo <=? code c) && (code c <=? hi))%N.

Definition is_ascii_lower := in_range 97 122.
Definition is_ascii_upper := in_range 65 90.
Definition is_ascii_digit := in_range 48 57.

(** The character class [[a-zA-Z0-9_]]. *)
Definition is_ident_char (c : ascii) : bool :=
  is_ascii_lower c || is_ascii_upper c || is_ascii_digit c
  || (code c =? 95)%N.

(** The class [\w] of a [str] pattern: Unicode alphanumerics and the
    underscore.  Below 256 these are the ASCII ones together with
    U+00AA, U+00B2, U+00B3, U+00B5, U+00B9, U+00BA, U+00BC..U+00BE and
    the letters U+00C0..U+00FF other than the two operators U+00D7 and
    U+00F7. *)
Definition is_word_char (c : ascii) : bool :=
  is_ident_char c
  || (code c =? 170)%N || in_range 178 179 c || (code c =? 181)%N
  || in_range 185 186 c || in_range 188 190 c
  || in_range 192 214 c || in_range 216 246 c || in_range 248 255 c.

(** [str.upper] on the texts that [upper_covers] accepts: the
    upper-case form of a code point below 256 is again one code point
    below 256, except for U+00B5 and U+00FF, whose forms lie beyond
    255, and U+00DF, whose form is the two letters [SS].  On these
    three [upper_char] is not [str.upper]; it leaves them as they are.
    The method names that the converter passes are ASCII. *)
Definition upper_char (c : ascii) : ascii :=
  if is_ascii_lower c
     || (in_range 224 254 c && negb (code c =? 247)%N)
  then ascii_of_N (code c - 32) else c.

Definition upper (s : string) : string :=
  of_chars (map upper_char (to_chars s)).

Definition upper_covers (s : string) : bool :=
  forallb (fun c => negb ((code c =? 181) || (code c =? 223)
                          || (code c =? 255))%N)
          (to_chars s).

(** [s.lstrip(c)], [s.rstrip(c)] and [s.strip(c)] for a one-character
    argument. *)
Fixpoint lstrip_chars (c : ascii) (s : chars) : chars :=
  match s with
  | x :: s' => if Ascii.eqb x c then lstrip_chars c s' else s
  | [] => []
  end.

Definition rstrip_chars (c : ascii) (s : chars) : chars :=
  rev (lstrip_chars c (rev s)).

Definition strip_chars (c : ascii) (s : chars) : chars :=
  rstrip_chars c (lstrip_chars c s).

Definition rstrip (c : ascii) (s : string) : string :=
  of_chars (rstrip_chars c (to_chars s)).

Definition strip (c : ascii) (s : string) : string :=
  of_chars (strip_chars c (to_chars s)).

(** [s.startswith(p)] and [s.endswith(p)]. *)
Fixpoint starts_with (p s : chars) : bool :=
  match p, s with
  | [], _ => true
  | a :: p', b :: s' => Ascii.eqb a b && starts_with p' s'
  | _ :: _, [] => false
  end.

Definition startswith (s p : string) : bool :=
  starts_with (to_chars p) (to_chars s).

Definition endswith (s p : string) : bool :=
  starts_with (rev (to_chars p)) (rev (to_chars s)).

(** [p in s] for strings: [p] occurs as a contiguous part of [s]. *)
Fixpoint occurs_in (p s : chars) : bool :=
  starts_with p s ||
  match s with
  | [] => false
  | _ :: s' => occurs_in p s'
  end.

Definition contains (s p : string) : bool :=
  occurs_in (to_chars p) (to_chars s).

(** [s.replace(old, new)] for a non-empty [old]: occurrences are found
    from the left and do not overlap.  [skip] counts the characters of
    a found occurrence that are still to be dropped. *)
Fixpoint replace_from (old new : chars) (skip : nat) (s : chars) : chars :=
  match s with
  | [] => []
  | x :: s' =>
      match skip with
      | S k => replace_from old new k s'
      | O =>
          if starts_with old s
          then new ++ replace_from old new (length old - 1) s'
          else x :: replace_from old new 0 s'
      end
  end.

Definition replace (s old new : string) : string :=
  of_chars (replace_from (to_chars old) (to_chars new) 0 (to_chars s)).

(** The pieces of [s] between the characters that satisfy [is_sep]:
    never an empty list. *)
Fixpoint split_on (is_sep : ascii -> bool) (s : chars) : list chars :=
  match s with
  | [] => [[]]
  | x :: s' =>
      if is_sep x then [] :: split_on is_sep s'
      else match split_on is_sep s' with
           | w :: ws => (x :: w) :: ws
           | [] => [[x]]
           end
  end.

(** [s.split(sep)] for a one-character separator. *)
Definition split_chars (sep : ascii) (s : chars) : list chars :=
  split_on (fun x => Ascii.eqb x sep) s.

(** [sep.join(parts)]. *)
Fixpoint join_chars (sep : ascii) (parts : list chars) : chars :=
  match parts with
  | [] => []
  | [w] => w
  | w :: ws => w ++ sep :: join_chars sep ws
  end.

(** [s.split(sep, 1)]: the text before the first separator and, when
    there is one, the text after it. *)
Fixpoint split_once (sep : ascii) (s : chars) : chars * option chars :=
  match s with
  | [] => ([], None)
  | x :: s' =>
      if Ascii.eqb x sep then ([], Some s')
      else let '(h, t) := split_once sep s' in (x :: h, t)
  end.

(** [str(n)] for an [int]. *)
Definition of_Z (n : Z) : string := NilZero.string_of_int (Z.to_int n).

End PyStr.

(** ** [openapi_to_mcp.py]: tool names *)

Module ToolName.
Import PyStr.

Definition lbrace : ascii := "{"%char.
Definition rbrace : ascii := "}"%char.
Definition underscore : ascii := "_"%char.

(** [re.sub(r"\{(\w+)\}", r"\1", name)], read from the left.  [open] is
    [Some w] after an opening brace followed by the word characters
    [w] (kept reversed): the only way a match can still be completed.
    A closing brace completes it when [w] is not empty and the braces
    are dropped; any other character, or the end of the text, abandons
    it and the brace and [w] stay as they were. *)
Fixpoint sub_placeholders (open : option chars) (s : chars) : chars :=
  match s with
  | [] =>
      match open with
      | Some w => lbrace :: rev w
      | None => []
      end
  | c :: s' =>
      match open with
      | None =>
          if Ascii.eqb c lbrace then sub_placeholders (Some []) s'
          else c :: sub_placeholders None s'
      | Some w =>
          if is_word_char c then sub_placeholders (Some (c :: w)) s'
          else if Ascii.eqb c rbrace && negb (Nat.eqb (length w) 0)
          then rev w ++ sub_placeholders None s'
          else if Ascii.eqb c lbrace
          then lbrace :: rev w ++ sub_placeholders (Some []) s'
          else lbrace :: rev w ++ c :: sub_placeholders None s'
      end
  end.

(** [re.sub(r"[^a-zA-Z0-9_]", "_", name)]. *)
Definition sub_non_ident (s : chars) : chars :=
  map (fun c => if is_ident_char c then c else underscore) s.

(** [re.sub(r"_+", "_", name)]. *)
Fixpoint collapse_underscores (s : chars) : chars :=
  match s with
  | [] => []
  | c :: s' =>
      if Ascii.eqb c underscore
      then match s' with
           | c' :: _ =>
               if Ascii.eqb c' underscore then collapse_underscores s'
               else c :: collapse_underscores s'
           | [] => [c]
           end
      else c :: collapse_underscores s'
  end.

Definition sanitize_chars (s : chars) : chars :=
  strip_chars underscore
    (collapse_underscores (sub_non_ident (sub_placeholders None s))).

Definition sanitize_tool_name (name : string) : string :=
  of_chars (sanitize_chars (to_chars name)).

End ToolName.

(** ** Python values and exceptions *)

Module Py.

(** The exception classes that the modelled code raises.
    [LibraryError c] is an exception of the class named [c] that
    pydantic or FastMCP raises inside one of its calls; it is never an
    exception class of this package. *)
Inductive exn : Type :=
| OpenAPIConversionError (msg : string)
| OpenAPILoadError (msg : string)
| TypeError
| AttributeError
| KeyError
| IndexError
| ValueError
| LibraryError (class : string).

Inductive result (A : Type) : Type :=
| Ok (a : A)
| Raise (e : exn).
Arguments Ok {A} a.
Arguments Raise {A} e.

#[global] Instance result_ret : MRet result := fun A a => Ok a.
#[global] Instance result_bind : MBind result := fun A B f m =>
  match m with
  | Ok a => f a
  | Raise e => Raise e
  end.

Definition is_ok {A} (r : result A) : bool :=
  match r with Ok _ => true | Raise _ => false end.


(** A parsed document: what [json.loads] and [yaml.safe_load] build
    from JSON-shaped text.  [JDict] keeps the insertion order. *)
#[warnings="-register-all"]
Inductive json : Type :=
| JNull
| JBool (b : bool)
| JInt (n : Z)
| JFloat (q : Q)
| JStr (s : string)
| JList (l : list json)
| JDict (d : list (string * json)).

Definition dict := list (string * json).

(** Truth value of an object, as [if x:] and [x or y] take it. *)
Definition truthy (x : json) : bool :=
  match x with
  | JNull => false
  | JBool b => b
  | JInt n => negb (n =? 0)%Z
  | JFloat q => negb (Qnum q =? 0)%Z
  | JStr s => negb (String.eqb s EmptyString)
  | JList l => negb (Nat.eqb (length l) 0)
  | JDict d => negb (Nat.eqb (length d) 0)
  end.

Definition is_dict (x : json) : bool :=
  match x with JDict _ => true | _ => false end.

(** [d.get(k)] and [k in d] on a [dict]. *)
Fixpoint dict_get (d : dict) (k : string) : option json :=
  match d with
  | [] => None
  | (k', v) :: d' => if String.eqb k' k then Some v else dict_get d' k
  end.

Definition dict_has (d : dict) (k : string) : bool :=
  match dict_get d k with Some _ => true | None => false end.

(** [d.get(k, dflt)]. *)
Definition dict_get_or (d : dict) (k : string) (dflt : json) : json :=
  match dict_get d k with Some v => v | None => dflt end.

(** [x.get(k, dflt)] on an arbitrary object: only a [dict] has the
    method. *)
Definition get_or (x : json) (k : string) (dflt : json) : result json :=
  match x with
  | JDict d => Ok (dict_get_or d k dflt)
  | _ => Raise AttributeError
  end.

(** [x[0]]: the first element of a list, the first character of a
    string; a [dict] with string keys has no key [0]; other objects
    are not subscriptable.  Only used on truthy objects. *)
Definition item0 (x : json) : result json :=
  match x with
  | JList (y :: _) => Ok y
  | JStr (String c _) => Ok (JStr (String c EmptyString))
  | JList [] | JStr EmptyString => Raise IndexError
  | JDict _ => Raise KeyError
  | JNull | JBool _ | JInt _ | JFloat _ => Raise TypeError
  end.

(** [k in x] for a string [k]. *)
Definition contains_key (x : json) (k : string) : result bool :=
  match x with
  | JDict d => Ok (dict_has d k)
  | JList l =>
      Ok (existsb (fun y => match y with
                            | JStr s => String.eqb s k
                            | _ => false
                            end) l)
  | JStr s => Ok (PyStr.contains s k)
  | JNull | JBool _ | JInt _ | JFloat _ => Raise TypeError
  end.

(** Whether [hash(x)] is defined: lists and dicts are unhashable. *)
Definition hashable (x : json) : bool :=
  match x with
  | JList _ | JDict _ => false
  | _ => true
  end.

(** [x == s] for a string literal [s]. *)
Definition eq_str (x : json) (s : string) : bool :=
  match x with
  | JStr t => String.eqb t s
  | _ => false
  end.

End Py.

(** ** [openapi_to_mcp.py]: names and base URL *)

Module Convert.
Import PyStr Py.
Export ToolName.

(** [generate_tool_name(method, path, operation_id)]; the converter
    passes [operation.get("operationId")], any object ([JNull] for
    [None]).  [re.sub] raises [TypeError] on an object that is not a
    string. *)
Definition generate_tool_name (method path : string) (operation_id : json)
  : result string :=
  if truthy operation_id then
    match operation_id with
    | JStr s => Ok (sanitize_tool_name s)
    | _ => Raise TypeError
    end
  else Ok (upper method +:+ "__" +:+ sanitize_tool_name path).

Definition no_server_message : string :=
  "No server URL found in spec and no base_url_override provided".

(** [resolve_base_url(spec, base_url_override)]. *)
Definition resolve_base_url (spec : dict) (base_url_override : option string)
  : result string :=
  let from_servers :=
    let servers := dict_get_or spec "servers" (JList []) in
    if truthy servers then
      first ← item0 servers;
      match first with
      | JDict d =>
          match dict_get d "url" with
          | Some (JStr u) => Ok (rstrip "/" u)
          | Some _ => Raise AttributeError
          | None => Raise (OpenAPIConversionError no_server_message)
          end
      | _ => Raise (OpenAPIConversionError no_server_message)
      end
    else Raise (OpenAPIConversionError no_server_message) in
  match base_url_override with
  | Some o =>
      if String.eqb o EmptyString then from_servers else Ok (rstrip "/" o)
  | None => from_servers
  end.

End Convert.

(** ** The URL resolver the handlers call

    [urllib.parse.urljoin] is the standard library's; the model follows
    [urllib/parse.py] of CPython 3.11 on [str] arguments.  It answers
    [None] outside the part it covers: a text with a character outside
    the printable ASCII range or with a square bracket (where the
    library strips characters or validates the host), and a base that
    is not an [http] or [https] URL with a host. *)

Module UrlLib.
Import PyStr.

Record parts : Type := Parts {
  scheme : chars;
  netloc : chars;
  path : chars;
  params : chars;
  query : chars;
  fragment : chars
}.

Definition is_char (a : ascii) (c : ascii) : bool := Ascii.eqb c a.

Definition lower_char (c : ascii) : ascii :=
  if is_ascii_upper c then ascii_of_N (code c + 32) else c.

(** [scheme_chars]: letters, digits and [+-.]. *)
Definition is_scheme_char (c : ascii) : bool :=
  is_ascii_lower c || is_ascii_upper c || is_ascii_digit c
  || is_char "+" c || is_char "-" c || is_char "." c.

(** The text up to the first character satisfying [stop], and the
    text from that character on. *)
Fixpoint break_at (stop : ascii -> bool) (s : chars) : chars * chars :=
  match s with
  | [] => ([], [])
  | c :: s' =>
      if stop c then ([], s)
      else let '(h, t) := break_at stop s' in (c :: h, t)
  end.

(** The scheme of [urlsplit]: the text before the first colon when it
    starts with an ASCII letter and consists of scheme characters. *)
Definition split_scheme (url dflt : chars) : chars * chars :=
  match split_once ":" url with
  | (c :: pre, Some rest) =>
      if (is_ascii_lower c || is_ascii_upper c)
         && forallb is_scheme_char (c :: pre)
      then (map lower_char (c :: pre), rest)
      else (dflt, url)
  | _ => (dflt, url)
  end.

(** [_splitnetloc(url, 2)] after a leading [//]. *)
Definition split_netloc (url : chars) : chars * chars :=
  match url with
  | "/"%char :: "/"%char :: rest =>
      break_at (fun c => is_char "/" c || is_char "?" c || is_char "#" c)
               rest
  | _ => ([], url)
  end.

(** [url.split(sep, 1)] when [sep] occurs, else the text and [''] . *)
Definition cut (sep : ascii) (url : chars) : chars * chars :=
  match split_once sep url with
  | (h, Some t) => (h, t)
  | (h, None) => (h, [])
  end.

(** [_splitparams]: the parameters of the last path segment. *)
Fixpoint split_params (url : chars) : chars * chars :=
  match url with
  | [] => ([], [])
  | c :: url' =>
      if existsb (is_char "/") url
      then let '(p, q) := split_params url' in (c :: p, q)
      else cut ";" url
  end.

(** [urlparse(url, scheme)] for a scheme that takes parameters. *)
Definition urlparse (url dflt : chars) : parts :=
  let '(sch, rest) := split_scheme url dflt in
  let '(loc, rest) := split_netloc rest in
  let '(rest, frag) := cut "#" rest in
  let '(rest, qry) := cut "?" rest in
  let '(pth, prm) := split_params rest in
  Parts sch loc pth prm qry frag.

Definition nonempty (s : chars) : bool :=
  match s with [] => false | _ => true end.

(** [urlunparse] when the host is not empty. *)
Definition urlunparse (p : parts) : chars :=
  let url := if nonempty (params p) then path p ++ ";"%char :: params p
             else path p in
  let url := match url with
             | [] => []
             | "/"%char :: _ => url
             | _ => "/"%char :: url
             end in
  let url := "/"%char :: "/"%char :: netloc p ++ url in
  let url := if nonempty (scheme p) then scheme p ++ ":"%char :: url else url in
  let url := if nonempty (query p) then url ++ "?"%char :: query p else url in
  if nonempty (fragment p) then url ++ "#"%char :: fragment p else url.

(** [segments[1:-1] = filter(None, segments[1:-1])]. *)
Definition drop_empty_inner (segments : list chars) : list chars :=
  match segments with
  | first :: (_ :: _) as rest =>
      first :: List.filter (fun w => nonempty w) (removelast rest)
            ++ [List.last rest []]
  | _ => segments
  end.

Definition is_dot (w : chars) : bool :=
  match w with ["."%char] => true | _ => false end.
Definition is_dotdot (w : chars) : bool :=
  match w with ["."%char; "."%char] => true | _ => false end.

(** The loop over [segments]; [resolved] is kept reversed. *)
Fixpoint resolve_dots (resolved : list chars) (segments : list chars)
  : list chars :=
  match segments with
  | [] => rev resolved
  | seg :: segments' =>
      if is_dotdot seg then resolve_dots (tail resolved) segments'
      else if is_dot seg then resolve_dots resolved segments'
      else resolve_dots (seg :: resolved) segments'
  end.

Definition join_path (bpath pth : chars) : chars :=
  let base_parts := split_chars "/" bpath in
  let base_parts := if nonempty (List.last base_parts [])
                    then removelast base_parts else base_parts in
  let segments :=
    match pth with
    | "/"%char :: _ => split_chars "/" pth
    | _ => drop_empty_inner (base_parts ++ split_chars "/" pth)
    end in
  let resolved := resolve_dots [] segments in
  let resolved :=
    if is_dot (List.last segments []) || is_dotdot (List.last segments [])
    then resolved ++ [[]] else resolved in
  match join_chars "/" resolved with
  | [] => ["/"%char]
  | joined => joined
  end.

Definition plain_char (c : ascii) : bool :=
  in_range 33 126 c && negb (is_char "[" c) && negb (is_char "]" c).

Definition is_http (sch : chars) : bool :=
  bool_decide (sch = to_chars "http") || bool_decide (sch = to_chars "https").

Definition same_chars (a b : chars) : bool :=
  bool_decide (a = b).

Definition urljoin_chars (base url : chars) : option chars :=
  let b := urlparse base [] in
  if negb (forallb plain_char (base ++ url) && is_http (scheme b)
           && nonempty (netloc b))
  then None
  else if negb (nonempty url) then Some base
  else
    let u := urlparse url (scheme b) in
    if negb (same_chars (scheme u) (scheme b)) then Some url
    else if nonempty (netloc u) then Some (urlunparse u)
    else if negb (nonempty (path u)) && negb (nonempty (params u)) then
      Some (urlunparse
              (Parts (scheme u) (netloc b) (path b) (params b)
                     (if nonempty (query u) then query u else query b)
                     (fragment u)))
    else
      Some (urlunparse
              (Parts (scheme u) (netloc b) (join_path (path b) (path u))
                     (params u) (query u) (fragment u))).

Definition urljoin (base url : string) : option string :=
  of_chars <$> urljoin_chars (to_chars base) (to_chars url).

End UrlLib.

(** ** [openapi_to_mcp.py]: input models, handlers and the server *)

Module Engine.
Import PyStr Py.
Export Convert.

(** The Python types of [OPENAPI_TYPE_MAP], and [Any]. *)
Inductive pytype : Type :=
| TStr | TInt | TFloat | TBool | TList | TDict | TAny.

Definition OPENAPI_TYPE_MAP (t : string) : option pytype :=
  if String.eqb t "string" then Some TStr
  else if String.eqb t "integer" then Some TInt
  else if String.eqb t "number" then Some TFloat
  else if String.eqb t "boolean" then Some TBool
  else if String.eqb t "array" then Some TList
  else if String.eqb t "object" then Some TDict
  else None.

(** [openapi_type_to_python(schema)]: the lookup hashes its key. *)
Definition openapi_type_to_python (schema : json) : result pytype :=
  openapi_type ← get_or schema "type" (JStr "string");
  if hashable openapi_type then
    match openapi_type with
    | JStr t => Ok (default TAny (OPENAPI_TYPE_MAP t))
    | _ => Ok TAny
    end
  else Raise TypeError.

(** One entry of [fields]: the annotation is [f_type] when the field
    is required (default [...]) and [f_type | None] with default
    [None] when it is not. *)
Record field : Type := Field {
  f_type : pytype;
  f_required : bool;
  f_description : json
}.

Definition fields := list (string * field).

(** [fields[k] = v]: a known key keeps its place and takes the new
    value, a new key goes last. *)
Fixpoint dict_set (fs : fields) (k : string) (v : field) : fields :=
  match fs with
  | [] => [(k, v)]
  | (k', v') :: fs' =>
      if String.eqb k' k then (k', v) :: fs'
      else (k', v') :: dict_set fs' k v
  end.

Fixpoint fields_get (fs : fields) (k : string) : option field :=
  match fs with
  | [] => None
  | (k', v) :: fs' => if String.eqb k' k then Some v else fields_get fs' k
  end.

(** The objects that [for param in path_params + operation_params]
    visits: [+] joins two lists or two strings and iterating a string
    gives its characters; [+] on other operands, and iterating a
    number, raise [TypeError]. *)
Definition all_params (path_params operation_params : json)
  : result (list json) :=
  match path_params, operation_params with
  | JList a, JList b => Ok (a ++ b)
  | JStr a, JStr b =>
      Ok (map (fun c => JStr (String c EmptyString)) (to_chars (a +:+ b)))
  | _, _ => Raise TypeError
  end.

(** One round of the loop over the parameters.  [odd_key] records
    that a key which is not a string went into [fields]:
    [create_model(model_name, **fields)] then raises [TypeError]. *)
Definition add_param (acc : fields * bool) (param : json)
  : result (fields * bool) :=
  let '(fs, odd_key) := acc in
  param_name ← get_or param "name" JNull;
  if negb (truthy param_name) then Ok acc else
  param_in ← get_or param "in" JNull;
  if negb (eq_str param_in "path" || eq_str param_in "query") then Ok acc
  else
  schema ← get_or param "schema" (JDict []);
  python_type ← openapi_type_to_python schema;
  required ← get_or param "required" (JBool false);
  let is_required := eq_str param_in "path" || truthy required in
  description ← get_or param "description" (JStr EmptyString);
  if negb (hashable param_name) then Raise TypeError else
  match param_name with
  | JStr k => Ok (dict_set fs k (Field python_type is_required description),
                  odd_key)
  | _ => Ok (fs, true)
  end.

Fixpoint add_params (acc : fields * bool) (params : list json)
  : result (fields * bool) :=
  match params with
  | [] => Ok acc
  | p :: params' => acc' ← add_param acc p; add_params acc' params'
  end.

(** What [create_tool_handler] closes over. *)
Record handler : Type := Handler {
  h_method : string;
  h_path : string;
  h_path_params_names : list string;
  h_query_param_names : list string;
  h_has_body : bool;
  h_base_url : string
}.

(** What one call [mcp.tool(name=..., description=...)(tool_fn)]
    registers: the name, the description, the input model of [tool_fn]
    and the handler it calls. *)
Record tool : Type := Tool {
  t_name : string;
  t_description : json;
  t_input : fields;
  t_handler : handler
}.

(** The server that [FastMCP(spec_name)] and the calls of [mcp.tool]
    build.  [mcp_tools] lists the registrations, one per call of
    [mcp.tool] and in the order of the calls; what the server then
    holds is [tool_table] below. *)
Record FastMCP : Type := Server {
  mcp_name : string;
  mcp_tools : list tool
}.

(** FastMCP keeps its tools in a [dict] keyed by the name: with the
    defaults of [FastMCP(spec_name)] a registration under a name that
    is already there replaces the tool, which keeps its place; a new
    name goes last. *)
Fixpoint table_set (table : list tool) (t : tool) : list tool :=
  match table with
  | [] => [t]
  | t' :: table' =>
      if String.eqb (t_name t') (t_name t) then t :: table'
      else t' :: table_set table' t
  end.

(** The tools that the server holds after its registrations: one per
    name, the last one registered under it. *)
Definition tool_table (mcp : FastMCP) : list tool :=
  fold_left table_set (mcp_tools mcp) [].

(** The two calls into libraries that can refuse what the converter
    hands them: pydantic's [create_model], called with the name of the model and
    with [fields] as its keyword arguments, and
    FastMCP's [mcp.tool(name=..., description=...)(tool_fn)].  Their
    code is not part of this package, so each is a parameter: given
    its arguments it returns ([None]) or raises an exception of the
    class named.  (pydantic for one refuses a field name with a leading
    underscore, FastMCP a description that is not a string.) *)
Record Library : Type := Lib {
  create_model : string -> fields -> option string;
  mcp_tool : tool -> option string
}.

Definition library_call (raised : option string) : result unit :=
  match raised with
  | None => Ok tt
  | Some class => Raise (LibraryError class)
  end.

(** [build_input_model(operation, path_params, tool_name)]: the
    [fields] of the model that [create_model] returns; [operation] is
    a [dict].  A key of [fields] that is not a string makes the call
    itself raise [TypeError], before [create_model] runs. *)
Definition build_input_model (lib : Library) (operation : dict)
    (path_params : json) (tool_name : string) : result fields :=
  params ← all_params path_params
             (dict_get_or operation "parameters" (JList []));
  acc ← add_params ([], false) params;
  let fs : fields := fst acc in
  let odd_key : bool := snd acc in
  let request_body := dict_get_or operation "requestBody" (JDict []) in
  content ← get_or request_body "content" (JDict []);
  json_content ← get_or content "application/json" (JDict []);
  fs ← (if truthy json_content then
          body_required ← get_or request_body "required" (JBool false);
          body_description ← get_or request_body "description"
                               (JStr "JSON request body");
          Ok (dict_set fs "body"
                (Field TDict (truthy body_required) body_description))
        else Ok fs);
  let model_name := tool_name +:+ "Input" in
  if odd_key then Raise TypeError else
  _ ← library_call (create_model lib model_name fs);
  Ok fs.

(** [{p["name"] for p in all_params if p.get("in") == loc and "name"
    in p}]: building the set hashes every name; the handler only
    tests its own string keys for membership, so the strings are
    kept. *)
Fixpoint param_names (loc : string) (params : list json)
  : result (list string) :=
  match params with
  | [] => Ok []
  | p :: params' =>
      param_in ← get_or p "in" JNull;
      if eq_str param_in loc then
        match p with
        | JDict d =>
            match dict_get d "name" with
            | Some n =>
                if hashable n then
                  rest ← param_names loc params';
                  Ok (match n with JStr s => s :: rest | _ => rest end)
                else Raise TypeError
            | None => param_names loc params'
            end
        | _ => Raise AttributeError
        end
      else param_names loc params'
  end.

(** [a or b]: the first operand when it is truthy, else the second. *)
Definition or_else (a b : json) : json := if truthy a then a else b.

Section Methods.

(** The libraries behind [create_model] and [mcp.tool]. *)
Variable lib : Library.

(** [http_methods] is a [set] of seven strings; the loop visits it
    in the order in which the runtime iterates that set, which the
    language leaves open.  The order is a parameter here. *)
Variable http_methods : list string.

(** The body of the loop over [http_methods] for one method. *)
Definition add_operation (base_url path : string) (path_item : dict)
    (path_level_params : json) (acc : list tool * list string)
    (method : string) : result (list tool * list string) :=
  let '(tools, tool_names) := acc in
  match dict_get path_item method with
  | Some (JDict operation) =>
      let operation_id := dict_get_or operation "operationId" JNull in
      tool_name ← generate_tool_name method path operation_id;
      let tool_names := tool_names ++ [tool_name] in
      input_model ← build_input_model lib operation path_level_params
                      tool_name;
      params ← all_params path_level_params
                 (dict_get_or operation "parameters" (JList []));
      path_param_names ← param_names "path" params;
      query_param_names ← param_names "query" params;
      let request_body :=
        dict_get_or operation "requestBody" (JDict []) in
      content ← get_or request_body "content" (JDict []);
      has_body ← contains_key content "application/json";
      let h := Handler method path path_param_names query_param_names
                       has_body base_url in
      let description :=
        or_else (dict_get_or operation "summary" JNull)
          (or_else (dict_get_or operation "description" JNull)
                   (JStr EmptyString)) in
      let registered := Tool tool_name description input_model h in
      _ ← library_call (mcp_tool lib registered);
      Ok (tools ++ [registered], tool_names)
  | _ => Ok acc
  end.

Fixpoint add_operations (base_url path : string) (path_item : dict)
    (path_level_params : json) (acc : list tool * list string)
    (methods : list string) : result (list tool * list string) :=
  match methods with
  | [] => Ok acc
  | m :: methods' =>
      acc' ← add_operation base_url path path_item path_level_params
               acc m;
      add_operations base_url path path_item path_level_params acc'
                     methods'
  end.

(** The body of the loop over [paths.items()]. *)
Definition add_path (base_url : string) (acc : list tool * list string)
    (entry : string * json) : result (list tool * list string) :=
  match entry with
  | (path, JDict path_item) =>
      let path_level_params :=
        dict_get_or path_item "parameters" (JList []) in
      add_operations base_url path path_item path_level_params acc
                     http_methods
  | _ => Ok acc
  end.

Fixpoint add_paths (base_url : string) (acc : list tool * list string)
    (entries : list (string * json))
  : result (list tool * list string) :=
  match entries with
  | [] => Ok acc
  | e :: entries' =>
      acc' ← add_path base_url acc e;
      add_paths base_url acc' entries'
  end.

(** [build_mcp_server(spec_name, spec, base_url_override)].
    [FastMCP(spec_name)] is given a string and returns. *)
Definition build_mcp_server (spec_name : string) (spec : dict)
    (base_url_override : option string)
  : result (FastMCP * list string) :=
  base_url ← resolve_base_url spec base_url_override;
  entries ← match dict_get_or spec "paths" (JDict []) with
            | JDict d => Ok d
            | _ => Raise AttributeError
            end;
  acc ← add_paths base_url ([], []) entries;
  Ok (Server spec_name (fst acc), snd acc).

(** [build_mcp_http_app]: the ASGI application of the server. *)
Definition build_mcp_http_app (spec_name : string) (spec : dict)
    (base_url_override : option string)
  : result (FastMCP * list string) :=
  build_mcp_server spec_name spec base_url_override.

End Methods.

(** The order in which the source lists the seven methods. *)
Definition written_order : list string :=
  ["get"; "post"; "put"; "patch"; "delete"; "options"; "head"].

End Engine.

(** ** [openapi_to_mcp.py]: the invocation handler *)

Module Invoke.
Import PyStr Py.
Export Engine.

(** [str(value)] for [None], booleans, integers and strings; the text
    of a float, a list or a dict is not modelled. *)
Definition py_str (v : json) : option string :=
  match v with
  | JNull => Some "None"
  | JBool true => Some "True"
  | JBool false => Some "False"
  | JInt n => Some (of_Z n)
  | JStr s => Some s
  | JFloat _ | JList _ | JDict _ => None
  end.

(** The loop [resolved_path = resolved_path.replace(f"{{{key}}}",
    str(value))] over [params.items()]. *)
Fixpoint substitute (resolved_path : string) (params : dict)
  : option string :=
  match params with
  | [] => Some resolved_path
  | (key, value) :: params' =>
      text ← py_str value;
      substitute (replace resolved_path ("{" +:+ key +:+ "}") text)
                 params'
  end.

Definition with_trailing_slash (base_url : string) : string :=
  if endswith base_url "/" then base_url else base_url +:+ "/".

Definition without_leading_slash (resolved_path : string) : string :=
  match resolved_path with
  | String "/" rest => rest
  | _ => resolved_path
  end.

(** [build_url_with_path_params(base_url, path, params)]; [None] where
    [str] or the resolver is not modelled. *)
Definition build_url_with_path_params (base_url path : string)
    (params : dict) : option string :=
  resolved_path ← substitute path params;
  UrlLib.urljoin (with_trailing_slash base_url)
                 (without_leading_slash resolved_path).

(** The request that the handler hands to [client.request]. *)
Record request : Type := Request {
  rq_method : string;
  rq_url : string;
  rq_params : option dict;
  rq_json : option json
}.

Definition is_none (v : json) : bool :=
  match v with JNull => true | _ => false end.

Definition member (k : string) (names : list string) : bool :=
  existsb (String.eqb k) names.

(** The first half of [handler]: the partition of [kwargs] and the
    URL. *)
Definition handler_request (h : handler) (kwargs : dict) : option request :=
  let path_params :=
    List.filter (fun kv => member (fst kv) (h_path_params_names h)) kwargs in
  let query_params :=
    List.filter (fun kv => member (fst kv) (h_query_param_names h)
                      && negb (is_none (snd kv))) kwargs in
  let body := if h_has_body h then dict_get_or kwargs "body" JNull
              else JNull in
  url ← build_url_with_path_params (h_base_url h) (h_path h) path_params;
  Some (Request (upper (h_method h)) url
          (if Nat.eqb (length query_params) 0 then None
           else Some query_params)
          (if truthy body then Some body else None)).

(** What the handler reads of an upstream response:
    [response.headers.get("content-type")], [response.text],
    [response.status_code] and the outcome of [response.json()],
    which raises when the body does not parse. *)
Record response : Type := Response {
  status_code : Z;
  content_type_header : option string;
  text : string;
  json_body : result json
}.

(** What the handler returns. *)
Inductive outcome : Type :=
| Parsed (data : json)
| Fallback (text : string) (status_code : Z) (content_type : string).

(** [try: return response.json() except Exception: pass]. *)
Definition try_json (r : response) : option json :=
  match json_body r with
  | Ok data => Some data
  | Raise _ => None
  end.

(** The second half of [handler], after the response has arrived. *)
Definition handler_response (r : response) : result outcome :=
  let content_type := default EmptyString (content_type_header r) in
  let fallback := Fallback (text r) (status_code r) content_type in
  if contains content_type "application/json" then
    match try_json r with
    | Some data => Ok (Parsed data)
    | None => Ok fallback
    end
  else Ok fallback.

End Invoke.

(** ** [openapi_loader.py]: validation *)

Module Loader.
Import PyStr Py.

(** [validate_openapi_spec(spec)]: the list of error messages. *)
Definition validate_openapi_spec (spec : dict) : list string :=
  (match dict_get spec "openapi" with
   | None => ["Missing required field 'openapi'"]
   | Some (JStr version) =>
       if startswith version "3." then []
       else ["Only OpenAPI 3.x is supported, got '" +:+ version +:+ "'"]
   | Some _ => ["Field 'openapi' must be a string"]
   end)
  ++
  (match dict_get spec "paths" with
   | None => ["Missing required field 'paths'"]
   | Some (JDict _) => []
   | Some _ => ["Field 'paths' must be an object"]
   end).

Section Parser.

(** [detect_and_parse] hands the text to the JSON and YAML parsers;
    it returns a [dict] or raises.  Any function stands for it. *)
Variable detect_and_parse : string -> result dict.

(** [load_from_string(content)]. *)
Definition load_from_string (content : string)
  : result (dict * list string) :=
  spec ← detect_and_parse content;
  Ok (spec, validate_openapi_spec spec).

End Parser.

End Loader.

(** ** [models.py] and [registry.py] *)

Module Registry.
Import Py.

Inductive SourceType : Type := UPLOAD | URL | PATH.

Inductive ValidationStatus : Type := VALID | INVALID | PENDING.

#[global] Instance ValidationStatus_eq_dec : EqDecision ValidationStatus.
Proof. solve_decision. Defined.

Record SpecEntry : Type := Entry {
  name : string;
  source_type : SourceType;
  raw_text : string;
  parsed_spec : dict;
  enabled : bool;
  validation_status : ValidationStatus;
  validation_errors : list string;
  base_url_override : option string;
  tool_names : list string
}.

Section Apps.

(** The generated ASGI application kept in the side table. *)
Variable App : Type.

Record SpecRegistry : Type := Reg {
  _specs : gmap string SpecEntry;
  _mcp_apps : gmap string App
}.

Definition empty_registry : SpecRegistry := Reg ∅ ∅.

Definition exists_ (self : SpecRegistry) (name : string) : bool :=
  bool_decide (is_Some (_specs self !! name)).

(** [register]: [ValueError] when the name is taken. *)
Definition register (self : SpecRegistry) (name raw_text : string)
    (parsed_spec : dict) (source_type : SourceType)
    (base_url_override : option string)
    (validation_status : ValidationStatus)
    (validation_errors : list string)
  : result (SpecRegistry * SpecEntry) :=
  if exists_ self name then Raise ValueError
  else
    let entry := Entry name source_type raw_text parsed_spec false
                       validation_status validation_errors
                       base_url_override [] in
    Ok (Reg (<[name := entry]> (_specs self)) (_mcp_apps self), entry).

Definition get (self : SpecRegistry) (name : string) : option SpecEntry :=
  _specs self !! name.

Definition get_or_raise (self : SpecRegistry) (name : string)
  : result SpecEntry :=
  match get self name with
  | Some entry => Ok entry
  | None => Raise KeyError
  end.

(** [enable]: the entry is updated in place. *)
Definition enable (self : SpecRegistry) (name : string)
    (mcp_http_app : App) (tool_names : list string)
  : result SpecRegistry :=
  entry ← get_or_raise self name;
  let entry := Entry (Registry.name entry) (source_type entry)
                     (raw_text entry) (parsed_spec entry) true
                     (validation_status entry) (validation_errors entry)
                     (base_url_override entry) tool_names in
  Ok (Reg (<[name := entry]> (_specs self))
          (<[name := mcp_http_app]> (_mcp_apps self))).

Definition disable (self : SpecRegistry) (name : string)
  : result SpecRegistry :=
  entry ← get_or_raise self name;
  let entry := Entry (Registry.name entry) (source_type entry)
                     (raw_text entry) (parsed_spec entry) false
                     (validation_status entry) (validation_errors entry)
                     (base_url_override entry) [] in
  Ok (Reg (<[name := entry]> (_specs self))
          (delete name (_mcp_apps self))).

Definition delete (self : SpecRegistry) (name : string)
  : result SpecRegistry :=
  if negb (exists_ self name) then Raise KeyError
  else
    self ← disable self name;
    Ok (Reg (base.delete name (_specs self)) (_mcp_apps self)).

Definition get_mcp_app (self : SpecRegistry) (name : string)
  : option App :=
  match get self name with
  | None => None
  | Some entry =>
      if negb (enabled entry) then None else _mcp_apps self !! name
  end.

Definition is_enabled (self : SpecRegistry) (name : string) : bool :=
  match get self name with
  | Some entry => enabled entry
  | None => false
  end.

End Apps.

Arguments Reg {App} _ _.
Arguments _specs {App} _.
Arguments _mcp_apps {App} _.
Arguments empty_registry {App}.
Arguments exists_ {App} _ _.
Arguments register {App} _ _ _ _ _ _ _ _.
Arguments get {App} _ _.
Arguments get_or_raise {App} _ _.
Arguments enable {App} _ _ _ _.
Arguments disable {App} _ _.
Arguments delete {App} _ _.
Arguments get_mcp_app {App} _ _.
Arguments is_enabled {App} _ _.

End Registry.

(** ** [main.py]: the control-plane handlers *)

Module ControlPlane.
Import Py Registry.
Export Engine.

(** How a handler ends: with an HTTP status, or with an exception
    that no [except] clause of the handler catches. *)
Inductive reply : Type :=
| HTTP (status : Z)
| Unhandled (e : exn).

Section Plane.

Variable lib : Library.
Variable http_methods : list string.
Variable detect_and_parse : string -> result dict.

Definition registry := SpecRegistry FastMCP.

(** [upload_spec(name, file, base_url_override)]; [content] is what
    [file.read()] returned. *)
Definition upload_spec (reg : registry) (name content : string)
    (base_url_override : option string) : registry * reply :=
  if exists_ reg name then (reg, HTTP 409)
  else
    match Loader.load_from_string detect_and_parse content with
    | Raise (OpenAPILoadError _) => (reg, HTTP 400)
    | Raise e => (reg, Unhandled e)
    | Ok (parsed_spec, validation_errors) =>
        let validation_status :=
          match validation_errors with
          | [] => VALID
          | _ :: _ => INVALID
          end in
        match register reg name content parsed_spec UPLOAD
                       base_url_override validation_status
                       validation_errors with
        | Ok (reg', _) => (reg', HTTP 200)
        | Raise e => (reg, Unhandled e)
        end
    end.

(** [enable_spec(name)]. *)
Definition enable_spec (reg : registry) (name : string)
  : registry * reply :=
  match get reg name with
  | None => (reg, HTTP 404)
  | Some entry =>
      if bool_decide (validation_status entry = INVALID)
      then (reg, HTTP 400)
      else
        match build_mcp_http_app lib http_methods name (parsed_spec entry)
                                 (base_url_override entry) with
        | Raise (OpenAPIConversionError _) => (reg, HTTP 400)
        | Raise e => (reg, Unhandled e)
        | Ok (mcp_app, tool_names) =>
            match enable reg name mcp_app tool_names with
            | Ok reg' => (reg', HTTP 200)
            | Raise e => (reg, Unhandled e)
            end
        end
  end.

(** [disable_spec(name)] and [delete_spec(name)]; the call of
    [stop_spec_lifespan] before the registry call touches the
    lifespan manager only. *)
Definition disable_spec (reg : registry) (name : string)
  : registry * reply :=
  match disable reg name with
  | Ok reg' => (reg', HTTP 200)
  | Raise KeyError => (reg, HTTP 404)
  | Raise e => (reg, Unhandled e)
  end.

Definition delete_spec (reg : registry) (name : string)
  : registry * reply :=
  match delete reg name with
  | Ok reg' => (reg', HTTP 200)
  | Raise KeyError => (reg, HTTP 404)
  | Raise e => (reg, Unhandled e)
  end.

(** A control-plane request, and the registry after a sequence of
    them. *)
Inductive op : Type :=
| Register (name content : string) (base_url_override : option string)
| Enable (name : string)
| Disable (name : string)
| Delete (name : string).

Definition apply (reg : registry) (o : op) : registry :=
  match o with
  | Register name content base_url_override =>
      fst (upload_spec reg name content base_url_override)
  | Enable name => fst (enable_spec reg name)
  | Disable name => fst (disable_spec reg name)
  | Delete name => fst (delete_spec reg name)
  end.

Definition run (ops : list op) : registry :=
  fold_left apply ops empty_registry.

End Plane.

End ControlPlane.

(** ** [mcp_dispatcher.py]: the dispatcher *)

Module Dispatcher.
Import PyStr Py Registry.

(** What [__call__] reads of the ASGI scope: [scope["type"]],
    [scope.get("path")] and [scope.get("root_path")]. *)
Record scope : Type := Scope {
  sc_type : string;
  sc_path : option string;
  sc_root_path : option string
}.

Section Apps.

Variable App : Type.

(** How [__call__] ends: it returns at once, it answers through
    [_send_error], or it forwards the rewritten scope to the
    application (after [ensure_started]). *)
Inductive dispatched : Type :=
| Ignored
| Responded (status : Z) (detail : string)
| Forwarded (spec_name : string) (mcp_app : App)
            (path root_path : string).

Definition name_required : string :=
  "Spec name required in path: /mcp/{spec_name}/...".
Definition not_found (spec_name : string) : string :=
  "Spec '" +:+ spec_name +:+ "' not found".
Definition not_enabled (spec_name : string) : string :=
  "Spec '" +:+ spec_name +:+ "' is not enabled for MCP exposure".

(** The path after the mount prefix has been removed. *)
Definition local_path (sc : scope) : string :=
  let path := default "/" (sc_path sc) in
  let root_path := default EmptyString (sc_root_path sc) in
  let path :=
    if negb (String.eqb root_path EmptyString) && startswith path root_path
    then of_chars (drop (String.length root_path) (to_chars path))
    else path in
  if startswith path "/" then path else "/" +:+ path.

(** [path.strip("/").split("/", 1)]: the first segment and, when a
    separator follows it, the rest. *)
Definition path_parts (path : string) : string * option string :=
  let '(h, t) := split_once "/" (strip_chars "/" (to_chars path)) in
  (of_chars h, of_chars <$> t).

Definition call (registry : SpecRegistry App) (sc : scope) : dispatched :=
  if negb (String.eqb (sc_type sc) "http"
           || String.eqb (sc_type sc) "websocket")
  then Ignored
  else
    let '(spec_name, rest) := path_parts (local_path sc) in
    if String.eqb spec_name EmptyString then Responded 404 name_required
    else
      let remaining_path := "/" +:+ default EmptyString rest in
      match get_mcp_app registry spec_name with
      | None =>
          match get registry spec_name with
          | None => Responded 404 (not_found spec_name)
          | Some _ => Responded 404 (not_enabled spec_name)
          end
      | Some mcp_app =>
          Forwarded spec_name mcp_app remaining_path
            (default EmptyString (sc_root_path sc) +:+ "/" +:+ spec_name)
      end.

End Apps.

Arguments Ignored {App}.
Arguments Responded {App} _ _.
Arguments Forwarded {App} _ _ _ _.
Arguments call {App} _ _.

End Dispatcher.

(** ** [mcp_dispatcher.py]: the lifespan manager

    The manager runs on one event loop: a coroutine gives up control at
    an [await] that has to wait and nowhere else.  A world holds the
    manager's three tables, the [asyncio.Event] objects made so far
    ([true] once set), the background tasks made by [create_task] and
    the calls of [ensure_started] in flight.  One step runs one
    coroutine from where it stands to its next suspension. *)

Module Lifespan.

(** Where the body of [run_lifespan] stands. *)
Inductive task_pc : Type :=
| Created
| Starting
| Serving (cleanup : nat)
| Finished.

(** Where a call of [ensure_started] stands. *)
Inductive caller_pc : Type :=
| Entry
| Waiting (initialized : nat)
| Returned
| Failed.

Record LifespanManager : Type := Manager {
  _started : gmap string nat;
  _cleanup_events : gmap string nat;
  _initialized : gmap string nat
}.

Record world : Type := World {
  manager : LifespanManager;
  events : list bool;
  tasks : list (string * task_pc);
  callers : list (string * caller_pc)
}.

(** The steps a scheduler can choose from. *)
Inductive label : Type :=
| Call (i : nat)
| TaskBegin (t : nat)
| StartupDone (t : nat)
| StartupRaises (t : nat)
| Shutdown (t : nat)
| ShutdownRaises (t : nat).

(** [self._initialized[name].set()], [None] for the [KeyError]. *)
Definition signal (name : string) (w : world) : option world :=
  match _initialized (manager w) !! name with
  | Some e =>
      Some (World (manager w) (<[e := true]> (events w)) (tasks w)
                  (callers w))
  | None => None
  end.

(** [except Exception] of [run_lifespan]: the handler signals too, and
    the task is over whether or not that raises in turn. *)
Definition handle_failure (name : string) (w : world) : world :=
  default w (signal name w).

Definition set_task (t : nat) (pc : task_pc) (w : world) : world :=
  match tasks w !! t with
  | Some (name, _) =>
      World (manager w) (events w) (<[t := (name, pc)]> (tasks w))
            (callers w)
  | None => w
  end.

Definition set_caller (i : nat) (pc : caller_pc) (w : world) : world :=
  match callers w !! i with
  | Some (name, _) =>
      World (manager w) (events w) (tasks w)
            (<[i := (name, pc)]> (callers w))
  | None => w
  end.

(** [ensure_started(name, app)] from its entry to its first [await]:
    the test [name in self._started], the two new events, the new task
    and its registration run without a suspension in between. *)
Definition enter (i : nat) (name : string) (w : world) : world :=
  let m := manager w in
  match _started m !! name with
  | Some _ =>
      match _initialized m !! name with
      | Some e => set_caller i (Waiting e) w
      | None => set_caller i Failed w
      end
  | None =>
      let cleanup := length (events w) in
      let initialized := S cleanup in
      let task := length (tasks w) in
      let m' := Manager (<[name := task]> (_started m))
                        (<[name := cleanup]> (_cleanup_events m))
                        (<[name := initialized]> (_initialized m)) in
      set_caller i (Waiting initialized)
        (World m' (events w ++ [false; false])
               (tasks w ++ [(name, Created)]) (callers w))
  end.

(** One step; [None] when the chosen coroutine cannot run. *)
Definition exec (l : label) (w : world) : option world :=
  match l with
  | Call i =>
      match callers w !! i with
      | Some (name, Entry) => Some (enter i name w)
      | Some (name, Waiting e) =>
          match events w !! e with
          | Some true => Some (set_caller i Returned w)
          | _ => None
          end
      | _ => None
      end
  | TaskBegin t =>
      match tasks w !! t with
      | Some (name, Created) => Some (set_task t Starting w)
      | _ => None
      end
  | StartupDone t =>
      match tasks w !! t with
      | Some (name, Starting) =>
          match signal name w with
          | Some w' =>
              match _cleanup_events (manager w') !! name with
              | Some c => Some (set_task t (Serving c) w')
              | None => Some (set_task t Finished w')
              end
          | None => Some (set_task t Finished w)
          end
      | _ => None
      end
  | StartupRaises t =>
      match tasks w !! t with
      | Some (name, Starting) =>
          Some (set_task t Finished (handle_failure name w))
      | _ => None
      end
  | Shutdown t =>
      match tasks w !! t with
      | Some (name, Serving c) =>
          match events w !! c with
          | Some true => Some (set_task t Finished w)
          | _ => None
          end
      | _ => None
      end
  | ShutdownRaises t =>
      match tasks w !! t with
      | Some (name, Serving c) =>
          match events w !! c with
          | Some true => Some (set_task t Finished (handle_failure name w))
          | _ => None
          end
      | _ => None
      end
  end.

Fixpoint run (schedule : list label) (w : world) : option world :=
  match schedule with
  | [] => Some w
  | l :: schedule' =>
      match exec l w with
      | Some w' => run schedule' w'
      | None => None
      end
  end.

(** A fresh manager and the calls [ensure_started(name, app)] for the
    given names, none of which has run yet. *)
Definition boot (names : list string) : world :=
  World (Manager ∅ ∅ ∅) [] [] (map (fun name => (name, Entry)) names).

(** The background tasks made for [name], and whether a task has gone
    past its [self._initialized[name].set()]. *)
Definition tasks_of (name : string) (w : world) : list task_pc :=
  snd <$> List.filter (fun t => bool_decide (fst t = name)) (tasks w).

Definition signalled (pc : task_pc) : bool :=
  match pc with
  | Serving _ | Finished => true
  | Created | Starting => false
  end.

End Lifespan.

(** ** Readings of the specification, for comparison with the code *)

Module Reading.
Import PyStr Py.
Export ToolName.

(** ASCII letters and digits. *)
Definition is_alnum (c : ascii) : bool :=
  is_ascii_lower c || is_ascii_upper c || is_ascii_digit c.

(** The placeholder step as the specification words it: a
    placeholder is an opening brace, a run of word characters that is
    not empty and runs up to a closing brace, and that brace; it is
    replaced by the run.  [word_run s] is the longest run of word
    characters at the head of [s] and what follows it; [skip] counts
    the characters of a placeholder that are still to be passed. *)
Fixpoint word_run (s : chars) : chars * chars :=
  match s with
  | [] => ([], [])
  | c :: s' =>
      if is_word_char c
      then let '(w, rest) := word_run s' in (c :: w, rest)
      else ([], s)
  end.

Definition is_placeholder (w rest : chars) : bool :=
  negb (Nat.eqb (length w) 0) && starts_with [rbrace] rest.

Fixpoint bare_placeholders (skip : nat) (s : chars) : chars :=
  match s with
  | [] => []
  | c :: s' =>
      match skip with
      | S k => bare_placeholders k s'
      | O =>
          if Ascii.eqb c lbrace then
            let '(w, rest) := word_run s' in
            if is_placeholder w rest
            then w ++ bare_placeholders (S (length w)) s'
            else c :: bare_placeholders 0 s'
          else c :: bare_placeholders 0 s'
      end
  end.

(** The sanitising step as the specification words it: every run of
    characters that are neither alphanumeric nor an underscore becomes
    one underscore; underscores of the text itself are left alone. *)
Fixpoint sub_runs (s : chars) : chars :=
  match s with
  | [] => []
  | c :: s' =>
      if is_ident_char c then c :: sub_runs s'
      else match s' with
           | c' :: _ =>
               if is_ident_char c' then underscore :: sub_runs s'
               else sub_runs s'
           | [] => [underscore]
           end
  end.

Definition sanitize_as_worded (name : string) : string :=
  of_chars (strip_chars underscore
              (sub_runs (bare_placeholders 0 (to_chars name)))).

(** The maximal runs of ASCII letters and digits of a text. *)
Definition alnum_words (s : chars) : list chars :=
  List.filter (fun w => negb (Nat.eqb (length w) 0))
         (split_on (fun c => negb (is_alnum c)) s).

(** What the code computes: the placeholders lose their braces, then
    the runs of letters and digits are joined by single underscores. *)
Definition words_joined (name : string) : string :=
  of_chars (join_chars underscore
              (alnum_words (sub_placeholders None (to_chars name)))).

(** The sanitised name in the terms of the specification: the
    placeholders are replaced by their parameter names, then the runs
    of letters and digits of the text are joined by single
    underscores. *)
Definition bare_words_joined (name : string) : string :=
  of_chars (join_chars underscore
              (alnum_words (bare_placeholders 0 (to_chars name)))).

End Reading.

(** Base URL resolution as the specification words it: a present
    override wins; else the first server URL that the document declares;
    else the conversion error. *)

Module ReadingBase.
Import PyStr Py.
Export Convert.

Definition declared_server_urls (spec : dict) : list string :=
  match dict_get spec "servers" with
  | Some (JList servers) =>
      flat_map (fun server =>
                  match server with
                  | JDict d =>
                      match dict_get d "url" with
                      | Some (JStr u) => [u]
                      | _ => []
                      end
                  | _ => []
                  end) servers
  | _ => []
  end.

Definition resolve_as_worded (spec : dict) (base_url_override : option string)
  : result string :=
  match base_url_override with
  | Some o => Ok (rstrip "/" o)
  | None =>
      match declared_server_urls spec with
      | u :: _ => Ok (rstrip "/" u)
      | [] => Raise (OpenAPIConversionError no_server_message)
      end
  end.

(** An override that the code treats as not given. *)
Definition blank (base_url_override : option string) : bool :=
  match base_url_override with
  | None => true
  | Some o => String.eqb o EmptyString
  end.

(** The [url] entry of [servers[0]], when [servers] is a list whose
    first element is an object. *)
Definition first_server_url (spec : dict) : option json :=
  match dict_get spec "servers" with
  | Some (JList (JDict d :: _)) => dict_get d "url"
  | _ => None
  end.

(** [servers] is absent or a list. *)
Definition servers_listed (spec : dict) : bool :=
  match dict_get spec "servers" with
  | None | Some (JList _) => true
  | Some _ => false
  end.

End ReadingBase.

(** URL composition as the specification words it, and the URLs for
    which the resolver keeps the text that it is handed. *)

Module ReadingJoin.
Import PyStr Py UrlLib.

(** The base with its trailing slashes removed, one separator, the path
    with its leading slashes removed. *)
Definition join_as_worded (base_url resolved_path : string) : string :=
  of_chars (rstrip_chars "/" (to_chars base_url) ++ "/"%char
            :: lstrip_chars "/" (to_chars resolved_path)).

Definition is_one_of (s : string) (c : ascii) : bool :=
  existsb (Ascii.eqb c) (to_chars s).

(** A host: not empty, printable, free of [/], [?] and [#]. *)
Definition host_char (c : ascii) : bool :=
  plain_char c && negb (is_one_of "/?#" c).

Definition good_host (h : chars) : bool :=
  nonempty h && forallb host_char h.

(** A plain path segment: not empty, printable, free of the characters
    [/ ? # ; :] that the resolver gives a meaning to, and neither [.]
    nor [..]. *)
Definition seg_char (c : ascii) : bool :=
  plain_char c && negb (is_one_of "/?#;:" c).

Definition good_seg (w : chars) : bool :=
  nonempty w && forallb seg_char w && negb (is_dot w) && negb (is_dotdot w).

(** The text of [/s1/.../sk]. *)
Definition slashed (segs : list chars) : chars :=
  concat (map (cons "/"%char) segs).

(** The text of [scheme://host/s1/.../sk]. *)
Definition render (sch host : chars) (segs : list chars) : chars :=
  sch ++ to_chars "://" ++ host ++ slashed segs.

End ReadingJoin.

(** Readings of the specification of the conversion engine. *)

Module ReadingEngine.
Import PyStr Py.
Export Engine.

(** The field that one parameter contributes to [fields], when it
    contributes one: what a round of the loop records on an empty
    [fields]. *)
Definition contribution (param : json) : option (string * field) :=
  match add_param ([], false) param with
  | Ok ([(k, f)], _) => Some (k, f)
  | _ => None
  end.

(** The field of the last parameter named [k] in a list of
    parameters. *)
Definition last_contribution (k : string) (params : list json)
  : option field :=
  fold_left (fun acc p =>
               match contribution p with
               | Some (k', f) => if String.eqb k' k then Some f else acc
               | None => acc
               end) params None.

(** The merge as the specification words it: a path-level parameter is
    not overridden, so the field of its name is the one it contributes
    itself. *)
Definition path_level_kept (path_params : list json) (fs : fields) : Prop :=
  forall p k f, In p path_params -> contribution p = Some (k, f) ->
                fields_get fs k = Some f.

(** The operations of a document in discovery order: the path entries
    in document order and, under one path, the methods in the order
    [http_methods] that have an object as operation.  Each comes with
    the object found under [operationId]. *)
Definition operations_of (http_methods : list string)
    (entry : string * json) : list (string * string * json) :=
  match entry with
  | (path, JDict path_item) =>
      flat_map (fun method =>
                  match dict_get path_item method with
                  | Some (JDict operation) =>
                      [(method, path,
                        dict_get_or operation "operationId" JNull)]
                  | _ => []
                  end) http_methods
  | _ => []
  end.

Definition discovered (http_methods : list string)
    (entries : list (string * json)) : list (string * string * json) :=
  flat_map (operations_of http_methods) entries.

(** The entries of [paths] that the loop visits. *)
Definition path_entries (spec : dict) : list (string * json) :=
  match dict_get_or spec "paths" (JDict []) with
  | JDict entries => entries
  | _ => []
  end.

(** The tool names that a conversion returned. *)
Definition names_of (r : result (FastMCP * list string))
  : option (list string) :=
  match r with
  | Ok (_, tool_names) => Some tool_names
  | Raise _ => None
  end.

Definition named (tool_name : string) (o : string * string * json) : Prop :=
  generate_tool_name (fst (fst o)) (snd (fst o)) (snd o) = Ok tool_name.

(** A parameter that the converter can take: an object; when its
    location is [path] or [query], its name is a string or absent and
    its schema is absent or an object whose [type] is not a list or an
    object. *)
Definition absent_or (ok : json -> bool) (d : dict) (k : string) : bool :=
  match dict_get d k with
  | None => true
  | Some v => ok v
  end.

Definition is_list (x : json) : bool :=
  match x with JList _ => true | _ => false end.

Definition is_str_or_null (x : json) : bool :=
  match x with JStr _ | JNull => true | _ => false end.

Definition schema_ok (x : json) : bool :=
  match x with
  | JDict s => absent_or hashable s "type"
  | _ => false
  end.

Definition param_ok (p : json) : bool :=
  match p with
  | JDict d =>
      let loc := dict_get_or d "in" JNull in
      if eq_str loc "path" || eq_str loc "query"
      then absent_or is_str_or_null d "name" && absent_or schema_ok d "schema"
      else true
  | _ => false
  end.

Definition params_ok (x : json) : bool :=
  match x with
  | JList ps => forallb param_ok ps
  | _ => false
  end.

Definition content_ok (x : json) : bool := is_dict x.

Definition body_ok (x : json) : bool :=
  match x with
  | JDict b => absent_or content_ok b "content"
  | _ => false
  end.

(** An operation that the converter can take; anything that is not an
    object is skipped, and so is fine. *)
Definition operation_ok (x : json) : bool :=
  match x with
  | JDict operation =>
      absent_or (fun id => negb (truthy id)
                           || match id with JStr _ => true | _ => false end)
                operation "operationId"
      && absent_or params_ok operation "parameters"
      && absent_or body_ok operation "requestBody"
  | _ => true
  end.

Definition path_item_ok (http_methods : list string) (x : json) : bool :=
  match x with
  | JDict path_item =>
      absent_or params_ok path_item "parameters"
      && forallb (absent_or operation_ok path_item) http_methods
  | _ => true
  end.

(** A document whose content the converter can take: [paths] is absent
    or an object, and its entries are as above. *)
Definition well_shaped (http_methods : list string) (spec : dict) : bool :=
  match dict_get spec "paths" with
  | None => true
  | Some (JDict entries) =>
      forallb (fun e => path_item_ok http_methods (snd e)) entries
  | Some _ => false
  end.

(** The library refuses one of its calls with an exception of the
    class [c]. *)
Definition refuses (lib : Library) (c : string) : Prop :=
  (exists model_name fs, create_model lib model_name fs = Some c)
  \/ (exists t, mcp_tool lib t = Some c).

(** [r] is a result, unless the library refused a call: then [r] is
    the exception of that call. *)
Definition returns_unless_refused {A} (lib : Library) (r : result A)
  : Prop :=
  is_ok r = true
  \/ exists c, r = Raise (LibraryError c) /\ refuses lib c.

End ReadingEngine.

(** Readings of the specification of the handler, the dispatcher, the
    registry and the lifespan manager. *)

Module ReadingHandler.
Import PyStr Py Invoke.

(** The test of the handler: the content type names [application/json]. *)
Definition indicates_json (r : response) : bool :=
  contains (default EmptyString (content_type_header r)) "application/json".

Definition fallback_of (r : response) : outcome :=
  Fallback (text r) (status_code r)
           (default EmptyString (content_type_header r)).

End ReadingHandler.

Module ReadingDispatch.
Import PyStr Py Registry Dispatcher.

Definition is_request (sc : scope) : bool :=
  String.eqb (sc_type sc) "http" || String.eqb (sc_type sc) "websocket".

(** The candidate name: the first segment of the path, as the
    dispatcher takes it. *)
Definition first_segment (sc : scope) : string :=
  fst (path_parts (local_path sc)).

End ReadingDispatch.

Module ReadingRegistry.
Import Py Registry.

(** What holds of one name: without an entry nothing is stored for it;
    an enabled entry is valid and has its application stored; an entry
    that is not enabled has no tool names and nothing stored, and its
    status is the outcome of a validation. *)
Definition name_ok {App} (reg : SpecRegistry App) (n : string) : Prop :=
  match _specs reg !! n with
  | None => _mcp_apps reg !! n = None
  | Some entry =>
      if enabled entry
      then validation_status entry = VALID /\ is_Some (_mcp_apps reg !! n)
      else validation_status entry <> PENDING
           /\ tool_names entry = [] /\ _mcp_apps reg !! n = None
  end.

Definition registry_ok {App} (reg : SpecRegistry App) : Prop :=
  forall n, name_ok reg n.

End ReadingRegistry.

Module ReadingLifespan.
Import Lifespan.

(** What a call of [ensure_started] for [n] that stands at [pc] can
    rely on. *)
Definition caller_ok (w : world) (n : string) (pc : caller_pc) : Prop :=
  match pc with
  | Entry => True
  | Waiting e =>
      exists t, _started (manager w) !! n = Some t /\ e = 2 * t + 1
  | Returned =>
      exists t pc', tasks w !! t = Some (n, pc') /\ signalled pc' = true
  | Failed => False
  end.

(** The invariant of the worlds reached without [stop]: the task made
    for a name is the one registered under it, its two events sit at
    twice its index, and its [initialized] event is set exactly when the
    task has gone past its [set()]. *)
Record wf (w : world) : Prop := WF {
  wf_events : length (events w) = 2 * length (tasks w);
  wf_started : forall n t,
    _started (manager w) !! n = Some t ->
    exists pc, tasks w !! t = Some (n, pc);
  wf_tasks : forall t n pc,
    tasks w !! t = Some (n, pc) -> _started (manager w) !! n = Some t;
  wf_tables : forall n t,
    _started (manager w) !! n = Some t ->
    _cleanup_events (manager w) !! n = Some (2 * t)
    /\ _initialized (manager w) !! n = Some (2 * t + 1);
  wf_flags : forall t n pc,
    tasks w !! t = Some (n, pc) ->
    events w !! (2 * t + 1) = Some (signalled pc);
  wf_callers : forall i n pc,
    callers w !! i = Some (n, pc) -> caller_ok w n pc
}.

End ReadingLifespan.

(** ** Auxiliary notions of the proofs *)

Module Aux.
Import PyStr Py UrlLib ReadingEngine.

(** [join_chars] one word at a time. *)
Definition join_rest (sep : ascii) (ws : list chars) : chars :=
  match ws with
  | [] => []
  | _ :: _ => sep :: join_chars sep ws
  end.

Definition is_underscore (x : ascii) : bool := Ascii.eqb x underscore.

(** What the placeholder step makes of a text [s] that follows an
    opening brace and the word characters [w] (kept reversed). *)
Definition after_brace (w s : chars) : chars :=
  let '(u, rest) := Reading.word_run s in
  if Reading.is_placeholder (rev w ++ u) rest
  then rev w ++ u ++ Reading.bare_placeholders 0 (tl rest)
  else lbrace :: rev w ++ u ++ Reading.bare_placeholders 0 rest.

Definition nonblank (w : chars) : bool := negb (Nat.eqb (length w) 0).

(** [free a l]: the character [a] does not occur in [l]. *)
Definition free (a : ascii) (l : chars) : bool :=
  forallb (fun c => negb (is_char a c)) l.

Definition latest (k : string) (acc : option field) (p : json)
  : option field :=
  match contribution p with
  | Some (k', f) => if String.eqb k' k then Some f else acc
  | None => acc
  end.

Definition operation_of (path : string) (path_item : dict) (method : string)
  : list (string * string * json) :=
  match dict_get path_item method with
  | Some (JDict operation) =>
      [(method, path, dict_get_or operation "operationId" JNull)]
  | _ => []
  end.


End Aux.

(** ** Sample documents, responses, registries and schedules *)

Module Examples.
Import PyStr Py Engine Invoke Registry ControlPlane Lifespan.

(** An instance of the library: it refuses a field name with a
    leading underscore, as pydantic does ([NameError]), and a
    description that is not a string, as FastMCP does
    ([ValidationError]), and nothing else. *)
Definition leading_underscore (kv : string * field) : bool :=
  startswith (fst kv) "_".

Definition strict_library : Library :=
  Lib (fun model_name fs =>
         if existsb leading_underscore fs then Some "NameError" else None)
      (fun t =>
         match t_description t with
         | JStr _ => None
         | _ => Some "ValidationError"
         end).

(** Two documents that pass validation: the first server entry of one
    has no [url]. *)
Definition two_servers : dict :=
  [("openapi", JStr "3.0.0");
   ("servers", JList [JDict [("description", JStr "primary")];
                      JDict [("url", JStr "https://b.example/")]]);
   ("paths", JDict [])].

Definition one_server : dict :=
  [("openapi", JStr "3.0.0");
   ("servers", JList [JDict [("url", JStr "https://a.example/v1/")]]);
   ("paths", JDict [])].

Definition path_level_id : json :=
  JDict [("name", JStr "id"); ("in", JStr "query");
         ("required", JBool true);
         ("schema", JDict [("type", JStr "integer")])].

Definition operation_level_id : json :=
  JDict [("name", JStr "id"); ("in", JStr "query");
         ("schema", JDict [("type", JStr "string")])].

Definition pets_doc : dict :=
  [("openapi", JStr "3.0.0");
   ("servers", JList [JDict [("url", JStr "https://api.x.com")]]);
   ("paths",
    JDict [("/pets",
            JDict [("get", JDict [("operationId", JStr "listPets")]);
                   ("post", JDict [("operationId", JStr "createPet")])])])].

Definition post_first : list string :=
  ["post"; "get"; "put"; "patch"; "delete"; "options"; "head"].



Definition upstream_404 : response :=
  Response 404 (Some "text/html") "<h1>Not Found</h1>"
           (Raise ValueError).

(** Two responses with the same JSON body, one with an error status
    and one with 200. *)
Definition upstream_500_json : response :=
  Response 500 (Some "application/json; charset=utf-8")
           "[1, 2]"
           (Ok (JList [JInt 1; JInt 2])).

Definition upstream_200_json : response :=
  Response 200 (Some "application/json; charset=utf-8")
           "[1, 2]"
           (Ok (JList [JInt 1; JInt 2])).

(** Documents that pass validation and have a base URL: a query
    parameter named [_id], a summary that is a number, and one
    operation identifier used by both methods of a path. *)
Definition underscore_doc : dict :=
  [("openapi", JStr "3.0.0");
   ("servers", JList [JDict [("url", JStr "https://api.x.com")]]);
   ("paths",
    JDict [("/pets",
            JDict [("get",
                    JDict [("parameters",
                            JList [JDict [("name", JStr "_id");
                                          ("in", JStr "query")]])])])])].

Definition summary_doc : dict :=
  [("openapi", JStr "3.0.0");
   ("servers", JList [JDict [("url", JStr "https://api.x.com")]]);
   ("paths",
    JDict [("/pets", JDict [("get", JDict [("summary", JInt 5)])])])].

Definition repeated_name_doc : dict :=
  [("openapi", JStr "3.0.0");
   ("servers", JList [JDict [("url", JStr "https://api.x.com")]]);
   ("paths",
    JDict [("/pets",
            JDict [("get", JDict [("operationId", JStr "x");
                                  ("summary", JStr "read")]);
                   ("post", JDict [("operationId", JStr "x");
                                   ("summary", JStr "write")])])])].


Definition parse_pets (content : string) : result dict :=
  Ok pets_doc.

Definition enabled_then_disabled : list op :=
  [Register "pets" "..." None; Enable "pets"; Disable "pets";
   Register "store" "..." (Some "https://store.example/"); Enable "store"].

(** Three concurrent calls for [a]: the second and third call enter
    while the startup of the task made by the first is still running. *)
Definition three_calls : list label :=
  [Call 0; Call 1; TaskBegin 0; Call 2; StartupDone 0;
   Call 2; Call 0; Call 1].

Definition after_three_calls : world :=
  default (boot []) (run three_calls (boot ["a"; "a"; "a"])).

End Examples.
(** ** [openapi_loader.py]: the summary of a document *)

Module LoaderInfo.
Import PyStr Py.

(** The dictionary that [get_spec_info] returns, one field per key. *)
Record spec_info : Type := Info {
  title : json;
  version : json;
  description : json;
  server_urls : list json;
  path_count : nat;
  operation_count : nat
}.

(** [for s in x]: the elements of a list, the keys of a [dict], the
    characters of a string; other objects are not iterable. *)
Definition iterate (x : json) : result (list json) :=
  match x with
  | JList l => Ok l
  | JDict d => Ok (map (fun kv => JStr (fst kv)) d)
  | JStr s => Ok (map (fun c => JStr (String c EmptyString)) (to_chars s))
  | JNull | JBool _ | JInt _ | JFloat _ => Raise TypeError
  end.

(** What one [s] adds to [[s.get("url") for s in servers if
    isinstance(s, dict) and "url" in s]]. *)
Definition url_of (s : json) : list json :=
  match s with
  | JDict d =>
      match dict_get d "url" with
      | Some u => [u]
      | None => []
      end
  | _ => []
  end.

Section Methods.

(** The order in which the set [http_methods] is iterated. *)
Variable http_methods : list string.

(** The loop over [http_methods] for one path item. *)
Definition count_methods (path_item : dict) (operation_count : nat) : nat :=
  fold_left (fun n method => if dict_has path_item method then S n else n)
            http_methods operation_count.

(** The loop over [paths.values()]. *)
Definition count_operations (paths : dict) : nat :=
  fold_left (fun n entry =>
               match snd entry with
               | JDict path_item => count_methods path_item n
               | _ => n
               end) paths 0%nat.

(** [get_spec_info(spec)]: [paths.values()] and [info.get] need a
    [dict], the comprehension needs an iterable. *)
Definition get_spec_info (spec : dict) : result spec_info :=
  let info := dict_get_or spec "info" (JDict []) in
  let servers := dict_get_or spec "servers" (JList []) in
  let paths := dict_get_or spec "paths" (JDict []) in
  match paths with
  | JDict entries =>
      let operation_count := count_operations entries in
      title ← get_or info "title" (JStr "Untitled");
      version ← get_or info "version" (JStr "unknown");
      description ← get_or info "description" JNull;
      items ← iterate servers;
      Ok (Info title version description (flat_map url_of items)
               (length entries) operation_count)
  | _ => Raise AttributeError
  end.

End Methods.

End LoaderInfo.

(** ** [registry.py] and [main.py]: the read-only views *)

Module Views.
Import Py Registry ControlPlane.

Record SpecListItem : Type := ListItem {
  li_name : string;
  li_enabled : bool;
  li_source_type : SourceType;
  li_validation_status : ValidationStatus;
  li_validation_errors : list string;
  li_base_url_override : option string
}.

Record SpecMetadata : Type := Metadata {
  md_name : string;
  md_enabled : bool;
  md_source_type : SourceType;
  md_validation_status : ValidationStatus;
  md_validation_errors : list string;
  md_base_url_override : option string;
  md_tool_names : list string
}.

(** The item that [list_all] builds from one entry. *)
Definition summary (entry : SpecEntry) : SpecListItem :=
  ListItem (name entry) (enabled entry) (source_type entry)
           (validation_status entry) (validation_errors entry)
           (base_url_override entry).

Section Apps.

Variable App : Type.

(** [list_all]: one item per entry of [_specs].  The table is kept
    here as a finite map, which does not record the order of
    insertion: the items come in the order of [map_to_list], and only
    what does not depend on their order is stated about them. *)
Definition list_all (self : SpecRegistry App) : list SpecListItem :=
  summary <$> (snd <$> map_to_list (_specs self)).

(** [get_metadata]: [KeyError] for an unknown name. *)
Definition get_metadata (self : SpecRegistry App) (name : string)
  : result SpecMetadata :=
  entry ← get_or_raise self name;
  Ok (Metadata (Registry.name entry) (enabled entry) (source_type entry)
               (validation_status entry) (validation_errors entry)
               (base_url_override entry) (tool_names entry)).

End Apps.

Arguments list_all {App} _.
Arguments get_metadata {App} _ _.

(** [list_specs()], [get_spec(name)] and the [specs_count] of
    [health_check()]. *)
Definition list_specs (reg : registry) : list SpecListItem := list_all reg.

Definition get_spec (reg : registry) (name : string)
  : SpecMetadata + reply :=
  match get_metadata reg name with
  | Ok metadata => inl metadata
  | Raise KeyError => inr (HTTP 404)
  | Raise e => inr (Unhandled e)
  end.

Definition health_check (reg : registry) : nat := length (list_all reg).

End Views.

(** ** Notions used to state further properties *)

Module More.
Import PyStr Py Registry ControlPlane Dispatcher.
Export Engine.

(** The two-character text [__]. *)
Definition double_underscore : chars := [underscore; underscore].

(** The name a control-plane request is about. *)
Definition target (o : op) : string :=
  match o with
  | Register name _ _ => name
  | Enable name => name
  | Disable name => name
  | Delete name => name
  end.

(** The reply to a control-plane request. *)
Definition answer (lib : Library) (http_methods : list string)
    (detect_and_parse : string -> result dict) (reg : registry) (o : op)
  : reply :=
  match o with
  | Register name content base_url_override =>
      snd (upload_spec detect_and_parse reg name content base_url_override)
  | Enable name => snd (enable_spec lib http_methods reg name)
  | Disable name => snd (disable_spec reg name)
  | Delete name => snd (delete_spec reg name)
  end.

(** The location and the requiredness that a parameter object
    declares. *)
Definition location (d : dict) : json := dict_get_or d "in" JNull.

Definition declared_required (d : dict) : bool :=
  eq_str (location d) "path" || truthy (dict_get_or d "required" (JBool false)).

(** The operation behind a tool: the handler is bound to its method
    and path and to the base URL. *)
Definition bound_to (base_url : string) (t : tool)
    (o : string * string * json) : Prop :=
  h_method (t_handler t) = fst (fst o)
  /\ h_path (t_handler t) = snd (fst o)
  /\ h_base_url (t_handler t) = base_url
  /\ generate_tool_name (fst (fst o)) (snd (fst o)) (snd o) = Ok (t_name t).

(** The last registration under the name [n]. *)
Definition last_named (n : string) (registered : list tool) : option tool :=
  fold_left (fun acc t => if String.eqb (t_name t) n then Some t else acc)
            registered None.

(** The tool that a table holds under the name [n]. *)
Definition table_get (table : list tool) (n : string) : option tool :=
  find (fun t => String.eqb (t_name t) n) table.

(** The present methods of a path item, whatever is stored under
    them. *)
Definition present_methods (http_methods : list string)
    (entry : string * json) : list string :=
  match snd entry with
  | JDict path_item => List.filter (dict_has path_item) http_methods
  | _ => []
  end.

(** Running [one] over a list and appending what the rounds give: the
    shape of the loops of the converter over the methods and over the
    paths. *)
Fixpoint gather {A} (one : A -> result (list tool * list string))
    (l : list A) : result (list tool * list string) :=
  match l with
  | [] => Ok ([], [])
  | x :: l' =>
      r ← one x;
      r' ← gather one l';
      Ok (fst r ++ fst r', snd r ++ snd r')
  end.

End More.

(** ** [mcp_dispatcher.py]: stopping a lifespan *)

Module LifespanStop.
Import Lifespan.

(** Where a call of [stop] stands after its first segment. *)
Inductive stop_pc : Type :=
| StopWaiting (task : nat)
| StopReturned
| StopFailed.

(** [stop(name)] from its entry to its [await]: the test [name not in
    self._started], the setting of the cleanup event ([StopFailed] for
    the [KeyError] of a missing event) and the task that the call then
    waits for. *)
Definition stop_enter (name : string) (w : world) : world * stop_pc :=
  let m := manager w in
  match _started m !! name with
  | None => (w, StopReturned)
  | Some t =>
      match _cleanup_events m !! name with
      | Some c =>
          (World m (<[c := true]> (events w)) (tasks w) (callers w),
           StopWaiting t)
      | None => (w, StopFailed)
      end
  end.

(** [stop(name)] after its [await]: the three [pop]s.  The wait is
    taken to end because the task has completed; the time-out of
    [wait_for] and the cancellation that follows it are not
    modelled. *)
Definition stop_leave (name : string) (w : world) : world :=
  let m := manager w in
  World (Manager (delete name (_started m))
                 (delete name (_cleanup_events m))
                 (delete name (_initialized m)))
        (events w) (tasks w) (callers w).

End LifespanStop.

(** ** Notions used to state further properties of the lifespans *)

Module LifespanMore.
Import Lifespan LifespanStop.

(** A stop and a restart: of two calls for [a] the first has returned
    and the second has not run; [stop] sets the cleanup event, the task
    shuts down, [stop] removes the entries; then the second call runs
    and the task made for it starts up. *)
Definition one_returned : list label :=
  [Call 0; TaskBegin 0; StartupDone 0; Call 0].

Definition first_served : world :=
  default (boot []) (run one_returned (boot ["a"; "a"])).

Definition stop_signalled : world := fst (stop_enter "a" first_served).

Definition stop_awaited : world :=
  default (boot []) (run [Shutdown 0] stop_signalled).

Definition second_start : list label :=
  [TaskBegin 1; StartupDone 1; Call 1].

Definition after_restart : world :=
  default (boot [])
    (run second_start (enter 1 "a" (stop_leave "a" stop_awaited))).

(** What a call can rely on when lifespans are stopped as well: it
    waits for the [initialized] event of a task of its name, and it
    has returned only if a task of its name has gone past its
    [set()]. *)
Definition caller_sound (w : world) (n : string) (pc : caller_pc) : Prop :=
  match pc with
  | Entry => True
  | Waiting e =>
      exists t pc', tasks w !! t = Some (n, pc') /\ e = 2 * t + 1
  | Returned =>
      exists t pc', tasks w !! t = Some (n, pc') /\ signalled pc' = true
  | Failed => False
  end.

(** The invariant of the worlds in which [stop] has run as well: a
    task is the one registered under its name or has completed; the
    events of the registered task of a name are the ones in the
    tables; the [initialized] event made for a task is set exactly
    when the task has gone past its [set()]. *)
Record sound (w : world) : Prop := Sound {
  sound_events : length (events w) = 2 * length (tasks w);
  sound_started : forall n t,
    _started (manager w) !! n = Some t ->
    exists pc, tasks w !! t = Some (n, pc);
  sound_tasks : forall t n pc,
    tasks w !! t = Some (n, pc) ->
    pc = Finished \/ _started (manager w) !! n = Some t;
  sound_tables : forall n t,
    _started (manager w) !! n = Some t ->
    _cleanup_events (manager w) !! n = Some (2 * t)
    /\ _initialized (manager w) !! n = Some (2 * t + 1);
  sound_flags : forall t n pc,
    tasks w !! t = Some (n, pc) ->
    events w !! (2 * t + 1) = Some (signalled pc);
  sound_callers : forall i n pc,
    callers w !! i = Some (n, pc) -> caller_sound w n pc
}.

(** What a restart keeps: the stopped task [t] stays finished, the
    task [t'] made for the name stays the registered one, and the call
    [i] waits for the [initialized] event of [t'] or has returned
    after [t'] went past its [set()]. *)
Definition restarted (name : string) (t t' i : nat) (w : world) : Prop :=
  t' <> t
  /\ tasks w !! t = Some (name, Finished)
  /\ _started (manager w) !! name = Some t'
  /\ exists pc,
       tasks w !! t' = Some (name, pc)
       /\ (callers w !! i = Some (name, Waiting (2 * t' + 1))
           \/ (callers w !! i = Some (name, Returned)
               /\ signalled pc = true)).

(** No cleanup event is set, and a task that serves waits on the
    cleanup event made for it. *)
Definition idle (w : world) : Prop :=
  forall t n pc,
    tasks w !! t = Some (n, pc) ->
    events w !! (2 * t) = Some false
    /\ forall c, pc = Serving c -> c = 2 * t.

(** The steps that a call and a task can still take. *)
Definition caller_weight (c : string * caller_pc) : nat :=
  match snd c with
  | Entry => 4
  | Waiting _ => 1
  | Returned | Failed => 0
  end.

Definition task_weight (t : string * task_pc) : nat :=
  match snd t with
  | Created => 2
  | Starting => 1
  | Serving _ | Finished => 0
  end.

Definition potential (w : world) : nat :=
  sum_list_with caller_weight (callers w)
  + sum_list_with task_weight (tasks w).

End LifespanMore.

(** ** Further sample registries *)

Module MoreExamples.
Import Py Registry ControlPlane Examples.

(** The registry after an upload under the name [pets], and after
    that upload has been enabled. *)
Definition pets_uploaded : registry :=
  run strict_library written_order parse_pets [Register "pets" "..." None].

Definition pets_enabled : registry :=
  run strict_library written_order parse_pets [Register "pets" "..." None; Enable "pets"].




(** The registry after the upload of a document whose two operations
    share their identifier. *)
Definition parse_repeated (content : string) : result dict :=
  Ok repeated_name_doc.

Definition repeated_uploaded : registry :=
  run strict_library written_order parse_repeated
      [Register "pets" "..." None].

End MoreExamples.

(** * Theorems *)

(** ** Facts about the text primitives *)

Module StrFacts.
Import PyStr Aux.

Section Strip.

Variable c : ascii.

Lemma lstrip_app_last (s : chars) (a : ascii) :
  lstrip_chars c (s ++ [a]) =
  match lstrip_chars c s with
  | [] => if Ascii.eqb a c then [] else [a]
  | r => r ++ [a]
  end.
Proof.
  induction s as [|x s IH]; simpl.
  - reflexivity.
  - destruct (Ascii.eqb x c); [exact IH | reflexivity].
Qed.

Lemma rstrip_cons (a : ascii) (s : chars) :
  rstrip_chars c (a :: s) =
  match rstrip_chars c s with
  | [] => if Ascii.eqb a c then [] else [a]
  | r => a :: r
  end.
Proof.
  unfold rstrip_chars. simpl rev. rewrite lstrip_app_last.
  destruct (lstrip_chars c (rev s)) as [|y r] eqn:E; simpl.
  - destruct (Ascii.eqb a c); reflexivity.
  - rewrite rev_app_distr. simpl.
    destruct (rev r ++ [y]) eqn:E'.
    + destruct (rev r); discriminate.
    + reflexivity.
Qed.

Lemma rstrip_cons_keep (a : ascii) (s : chars) :
  Ascii.eqb a c = false ->
  rstrip_chars c (a :: s) = a :: rstrip_chars c s.
Proof.
  intros Ha. rewrite rstrip_cons, Ha.
  destruct (rstrip_chars c s); reflexivity.
Qed.

End Strip.

Lemma join_cons (sep : ascii) (w : chars) (ws : list chars) :
  join_chars sep (w :: ws) = w ++ join_rest sep ws.
Proof.
  destruct ws; simpl; [by rewrite app_nil_r | reflexivity].
Qed.

Lemma join_rest_cons (sep : ascii) (w : chars) (ws : list chars) :
  join_rest sep (w :: ws) = sep :: w ++ join_rest sep ws.
Proof. unfold join_rest at 1. by rewrite join_cons. Qed.

Lemma split_on_cons (p : ascii -> bool) (x : ascii) (s : chars) :
  split_on p (x :: s) =
  if p x then [] :: split_on p s
  else match split_on p s with
       | w :: ws => (x :: w) :: ws
       | [] => [[x]]
       end.
Proof. reflexivity. Qed.

Lemma split_on_nonnil (p : ascii -> bool) (s : chars) : split_on p s <> [].
Proof.
  induction s as [|x s IH]; simpl; [discriminate|].
  destruct (p x); [discriminate|].
  destruct (split_on p s); discriminate.
Qed.

End StrFacts.

(** ** Base URL resolution *)

Module BaseUrlFacts.
Import PyStr Py ReadingBase Examples.

(** C2, as worded, fails: an override that is present but empty does not
    win over the declared server, and a document whose second server
    entry declares a URL is refused because the first entry has none. *)
Lemma resolve_as_worded_fails :
  Loader.validate_openapi_spec two_servers = []
  /\ resolve_base_url one_server (Some EmptyString)
     = Ok "https://a.example/v1"
  /\ resolve_as_worded one_server (Some EmptyString) = Ok EmptyString
  /\ resolve_base_url two_servers None
     = Raise (OpenAPIConversionError no_server_message)
  /\ resolve_as_worded two_servers None = Ok "https://b.example".
Proof. repeat split; vm_compute; reflexivity. Qed.

Lemma dict_get_or_some (d : dict) (k : string) (dflt v : json) :
  dict_get d k = Some v -> dict_get_or d k dflt = v.
Proof. unfold dict_get_or. by intros ->. Qed.

Lemma dict_get_or_none (d : dict) (k : string) (dflt : json) :
  dict_get d k = None -> dict_get_or d k dflt = dflt.
Proof. unfold dict_get_or. by intros ->. Qed.

(** With no usable override the outcome is read off [servers]. *)
Lemma resolve_blank (spec : dict) (o : option string) :
  blank o = true ->
  resolve_base_url spec o = resolve_base_url spec None.
Proof.
  destruct o as [s|]; [|reflexivity]. simpl. intros H.
  unfold resolve_base_url. by rewrite H.
Qed.

(** C2, amended: [resolve_base_url] returns the override with trailing
    slashes trimmed whenever the override is present and not empty, and
    it then wins over any declared server; with an absent or empty
    override it returns the [url] of the first entry of the document's
    [servers] list, trailing slashes trimmed; for a document whose
    [servers] is absent or a list it fails with the conversion error
    exactly when the override is absent or empty and the first entry of
    [servers] is missing or is not an object with a [url] key. *)
Theorem resolve_base_url_cases (spec : dict) (o : option string) :
  (forall c s, resolve_base_url spec (Some (String c s))
               = Ok (rstrip "/" (String c s)))
  /\ (forall u, blank o = true -> first_server_url spec = Some (JStr u) ->
                resolve_base_url spec o = Ok (rstrip "/" u))
  /\ (servers_listed spec = true ->
      (resolve_base_url spec o
       = Raise (OpenAPIConversionError no_server_message)
       <-> blank o = true /\ first_server_url spec = None)).
Proof.
  split; [reflexivity|]. split.
  - intros u Hb Hu. rewrite resolve_blank by done.
    unfold first_server_url in Hu. unfold resolve_base_url.
    destruct (dict_get spec "servers") as [[| | | | |[|[] l]|]|] eqn:E;
      try discriminate.
    rewrite (dict_get_or_some _ _ _ _ E). cbn. by rewrite Hu.
  - intros Hl. unfold servers_listed, first_server_url in *.
    destruct o as [[|c s]|]; cbn [blank String.eqb].
    + change (resolve_base_url spec (Some EmptyString))
        with (resolve_base_url spec None).
      unfold resolve_base_url.
      destruct (dict_get spec "servers") as [[| | | | |l|]|] eqn:E;
        try discriminate.
      * rewrite (dict_get_or_some _ _ _ _ E).
        destruct l as [|[| | | | | |d] l]; cbn; try (split; [auto|done]).
        destruct (dict_get d "url") as [[]|]; cbn;
          split; try done; intros [_ ?]; done.
      * rewrite (dict_get_or_none _ _ _ E). cbn. done.
    + split; [discriminate | intros [? _]; discriminate].
    + unfold resolve_base_url.
      destruct (dict_get spec "servers") as [[| | | | |l|]|] eqn:E;
        try discriminate.
      * rewrite (dict_get_or_some _ _ _ _ E).
        destruct l as [|[| | | | | |d] l]; cbn; try (split; [auto|done]).
        destruct (dict_get d "url") as [[]|]; cbn;
          split; try done; intros [_ ?]; done.
      * rewrite (dict_get_or_none _ _ _ E). cbn. done.
Qed.

Lemma resolve_base_url_cases_witness :
  resolve_base_url one_server None = Ok "https://a.example/v1"
  /\ (resolve_base_url [] (Some EmptyString)
      = Raise (OpenAPIConversionError no_server_message)
      <-> blank (Some EmptyString) = true /\ first_server_url [] = None).
Proof.
  split.
  - apply (proj1 (proj2 (resolve_base_url_cases one_server None))
             "https://a.example/v1/"); reflexivity.
  - apply (proj2 (proj2 (resolve_base_url_cases [] (Some EmptyString)))).
    reflexivity.
Defined.

End BaseUrlFacts.

(** ** Tool names *)

Module ToolNameFacts.
Import PyStr Py Reading Convert Aux StrFacts.

Lemma collapse_cons_keep (x : ascii) (s : chars) :
  is_underscore x = false ->
  collapse_underscores (x :: s) = x :: collapse_underscores s.
Proof. unfold is_underscore. intros H. simpl. by rewrite H. Qed.

(** The text that [rstrip] leaves of a collapsed text, in terms of the
    pieces between the underscores. *)
Lemma rstrip_collapse (s : chars) :
  rstrip_chars underscore (collapse_underscores s) =
  match split_on is_underscore s with
  | w :: ws => w ++ join_rest underscore (List.filter nonblank ws)
  | [] => []
  end.
Proof.
  induction s as [|x s IH].
  - reflexivity.
  - rewrite split_on_cons.
    destruct (is_underscore x) eqn:Hx.
    + assert (x = underscore) as -> by (by apply Ascii.eqb_eq).
      destruct s as [|y s'].
      * reflexivity.
      * destruct (is_underscore y) eqn:Hy.
        -- assert (y = underscore) as -> by (by apply Ascii.eqb_eq).
           change (collapse_underscores (underscore :: underscore :: s'))
             with (collapse_underscores (underscore :: s')).
           rewrite IH. rewrite split_on_cons. simpl is_underscore.
           cbn [app]. reflexivity.
        -- assert (collapse_underscores (underscore :: y :: s')
                   = underscore :: collapse_underscores (y :: s')) as ->.
           { unfold is_underscore in Hy. simpl. by rewrite Hy. }
           rewrite rstrip_cons. rewrite IH.
           rewrite split_on_cons, Hy.
           destruct (split_on is_underscore s') as [|w ws] eqn:Es.
           { by apply split_on_nonnil in Es. }
           cbn [app List.filter]. change (nonblank (y :: w)) with true.
           cbv iota. rewrite join_rest_cons. reflexivity.
    + rewrite collapse_cons_keep by done.
      rewrite rstrip_cons_keep by done. rewrite IH.
      destruct (split_on is_underscore s) as [|w ws] eqn:Es.
      { by apply split_on_nonnil in Es. }
      reflexivity.
Qed.

Lemma lstrip_collapse_underscore (s : chars) :
  lstrip_chars underscore (collapse_underscores (underscore :: s)) =
  lstrip_chars underscore (collapse_underscores s).
Proof.
  destruct s as [|y s']; [reflexivity|].
  destruct (is_underscore y) eqn:Hy.
  - assert (y = underscore) as -> by (by apply Ascii.eqb_eq). reflexivity.
  - unfold is_underscore in Hy. simpl. rewrite Hy. simpl. reflexivity.
Qed.

Lemma strip_collapse (s : chars) :
  strip_chars underscore (collapse_underscores s) =
  join_chars underscore (List.filter nonblank (split_on is_underscore s)).
Proof.
  unfold strip_chars. induction s as [|x s IH].
  - reflexivity.
  - rewrite split_on_cons. destruct (is_underscore x) eqn:Hx.
    + assert (x = underscore) as -> by (by apply Ascii.eqb_eq).
      rewrite lstrip_collapse_underscore, IH. reflexivity.
    + rewrite collapse_cons_keep by done.
      cbn [lstrip_chars]. unfold is_underscore in Hx. rewrite Hx.
      rewrite rstrip_cons_keep by done.
      rewrite rstrip_collapse.
      destruct (split_on is_underscore s) as [|w ws] eqn:Es.
      { by apply split_on_nonnil in Es. }
      cbn [List.filter]. change (nonblank (x :: w)) with true.
      cbv iota. rewrite join_cons. reflexivity.
Qed.

Lemma sub_non_ident_class (c : ascii) :
  is_underscore (if is_ident_char c then c else underscore)
  = negb (is_alnum c)
  /\ (is_alnum c = true -> is_ident_char c = true).
Proof.
  destruct c as [[] [] [] [] [] [] [] []]; split; vm_compute; auto.
Qed.

Lemma split_sub_non_ident (s : chars) :
  split_on is_underscore (sub_non_ident s)
  = split_on (fun c => negb (is_alnum c)) s.
Proof.
  induction s as [|c s IH]; [reflexivity|].
  unfold sub_non_ident in *. cbn [map]. rewrite !split_on_cons, IH.
  destruct (sub_non_ident_class c) as [-> Hid].
  destruct (is_alnum c); cbn [negb]; [|reflexivity].
  rewrite Hid by reflexivity. reflexivity.
Qed.

(** The three substitutions and the final [strip] amount to joining the
    runs of letters and digits by single underscores. *)
Lemma sanitize_words (name : string) :
  sanitize_tool_name name = words_joined name.
Proof.
  unfold sanitize_tool_name, words_joined, sanitize_chars, alnum_words.
  rewrite strip_collapse, split_sub_non_ident. reflexivity.
Qed.

(** *** The placeholder step *)

Lemma word_run_split (s w rest : chars) :
  word_run s = (w, rest) ->
  s = w ++ rest /\ forallb is_word_char w = true.
Proof.
  revert w rest. induction s as [|c s IH]; intros w rest.
  - by intros [= <- <-].
  - cbn [word_run]. destruct (is_word_char c) eqn:Ec.
    + destruct (word_run s) as [u r]. intros [= <- <-].
      destruct (IH u r eq_refl) as [-> Hu]. cbn [app forallb].
      by rewrite Ec, Hu.
    + by intros [= <- <-].
Qed.

Lemma word_not_lbrace (c : ascii) :
  is_word_char c = true -> Ascii.eqb c lbrace = false.
Proof. destruct c as [[] [] [] [] [] [] [] []]; vm_compute; congruence. Qed.

Lemma bare_skip (a b : chars) :
  bare_placeholders (length a) (a ++ b) = bare_placeholders 0 b.
Proof. induction a as [|x a IH]; [reflexivity | exact IH]. Qed.

Lemma bare_words (u rest : chars) :
  forallb is_word_char u = true ->
  bare_placeholders 0 (u ++ rest) = u ++ bare_placeholders 0 rest.
Proof.
  induction u as [|c u IH]; [reflexivity|].
  cbn [forallb app bare_placeholders]. rewrite andb_true_iff.
  intros [Hc Hu]. rewrite (word_not_lbrace c Hc). by rewrite IH.
Qed.

Lemma is_placeholder_inv (w rest : chars) :
  is_placeholder w rest = true ->
  exists rest', rest = rbrace :: rest'.
Proof.
  unfold is_placeholder. rewrite andb_true_iff. intros [_ H].
  destruct rest as [|c rest']; [discriminate|].
  cbn [starts_with] in H. rewrite andb_true_r in H.
  apply Ascii.eqb_eq in H as <-. by exists rest'.
Qed.

Lemma bare_lbrace (s : chars) :
  bare_placeholders 0 (lbrace :: s) = after_brace [] s.
Proof.
  unfold after_brace. cbn [bare_placeholders rev app].
  rewrite Ascii.eqb_refl.
  destruct (word_run s) as [u rest] eqn:Er.
  destruct (word_run_split _ _ _ Er) as [-> Hu].
  destruct (is_placeholder u rest) eqn:Ep.
  - destruct (is_placeholder_inv _ _ Ep) as [rest' ->]. cbn [tl].
    f_equal.
    assert (u ++ rbrace :: rest' = (u ++ [rbrace]) ++ rest') as ->
      by (by rewrite <- app_assoc).
    assert (S (length u) = length (u ++ [rbrace])) as ->
      by (rewrite length_app; cbn [length]; lia).
    apply bare_skip.
  - f_equal. by apply bare_words.
Qed.

(** The scan of the code and the placeholder step of the specification
    give the same text. *)
Lemma sub_placeholders_states (s : chars) :
  sub_placeholders None s = bare_placeholders 0 s
  /\ forall w, sub_placeholders (Some w) s = after_brace w s.
Proof.
  induction s as [|c s [IHn IHs]]; split.
  - reflexivity.
  - intros w. unfold after_brace, is_placeholder.
    cbn [sub_placeholders word_run starts_with bare_placeholders].
    by rewrite andb_false_r, !app_nil_r.
  - cbn [sub_placeholders].
    destruct (Ascii.eqb c lbrace) eqn:Ec.
    + apply Ascii.eqb_eq in Ec as ->. rewrite IHs. symmetry.
      apply bare_lbrace.
    + rewrite IHn. cbn [bare_placeholders]. by rewrite Ec.
  - intros w. cbn [sub_placeholders].
    destruct (is_word_char c) eqn:Ew.
    + rewrite IHs. unfold after_brace. cbn [word_run]. rewrite Ew.
      destruct (word_run s) as [u rest].
      cbn [rev]. rewrite <- !app_assoc. cbn [app].
      unfold is_placeholder. rewrite !length_app. cbn [length].
      assert (Nat.eqb (length (rev w) + S (length u)) 0 = false) as ->
        by (apply Nat.eqb_neq; lia).
      reflexivity.
    + unfold after_brace. cbn [word_run]. rewrite Ew.
      rewrite !app_nil_r. unfold is_placeholder.
      rewrite length_rev. cbn [starts_with]. rewrite andb_true_r.
      rewrite (Ascii.eqb_sym rbrace c).
      destruct (Ascii.eqb c rbrace) eqn:Er.
      * apply Ascii.eqb_eq in Er as ->.
        destruct (Nat.eqb (length w) 0); cbn [negb andb tl].
        -- change (Ascii.eqb rbrace lbrace) with false. cbv iota.
           rewrite IHn. reflexivity.
        -- by rewrite IHn.
      * rewrite andb_false_l, andb_false_r.
        destruct (Ascii.eqb c lbrace) eqn:El.
        -- apply Ascii.eqb_eq in El as ->. rewrite IHs.
           by rewrite bare_lbrace.
        -- rewrite IHn. cbn [bare_placeholders]. by rewrite El.
Qed.

Lemma sanitize_bare_words (name : string) :
  sanitize_tool_name name = bare_words_joined name.
Proof.
  rewrite sanitize_words. unfold words_joined, bare_words_joined.
  by rewrite (proj1 (sub_placeholders_states (to_chars name))).
Qed.

(** C3, as worded, fails: an underscore run of the identifier itself is
    collapsed by the code although no character of it is "neither
    alphanumeric nor underscore", and an identifier that is declared but
    empty is treated as absent. *)
Lemma tool_name_as_worded_fails :
  generate_tool_name "get" "/items/{item_id}"
    (JStr "read_item_items__item_id__get")
  = Ok "read_item_items_item_id_get"
  /\ sanitize_as_worded "read_item_items__item_id__get"
     = "read_item_items__item_id__get"
  /\ generate_tool_name "get" "/pets" (JStr EmptyString) = Ok "GET__pets".
Proof. repeat split; vm_compute; reflexivity. Qed.

(** C3, amended: with operation id [getPet] the name is [getPet]; with
    no operation id, method GET and path [/pets/{petId}] it is
    [GET__pets_petId]; in general the name is the sanitised operation
    identifier when that is a non-empty string, and the upper-cased
    method, two underscores and the sanitised path when the identifier
    is absent or empty.  Sanitising replaces every placeholder (an
    opening brace, a run of word characters that is not empty, a
    closing brace) by the run, with no separator in place of the
    braces, and then joins the maximal runs of ASCII letters and digits
    by single underscores, every other character, underscores
    included, acting as a separator.  The upper-cased method is stated
    for the methods whose upper-case form stays, character by
    character, below code point 256. *)
Theorem tool_name_generation :
  generate_tool_name "get" "/pets/{petId}" (JStr "getPet") = Ok "getPet"
  /\ generate_tool_name "get" "/pets/{petId}" JNull = Ok "GET__pets_petId"
  /\ generate_tool_name "get" "/x{a}y" JNull = Ok "GET__xay"
  /\ generate_tool_name "get" "/pets" (JStr "get{pet}By{}Id{")
     = Ok "getpetBy_Id"
  /\ bare_placeholders 0 (to_chars "/x{a}y/{}/{b-c}/{d")
     = to_chars "/xay/{}/{b-c}/{d"
  /\ (forall method path c id,
        generate_tool_name method path (JStr (String c id))
        = Ok (bare_words_joined (String c id)))
  /\ (forall method path,
        upper_covers method = true ->
        generate_tool_name method path JNull
        = Ok (upper method +:+ "__" +:+ bare_words_joined path)
        /\ generate_tool_name method path (JStr EmptyString)
           = Ok (upper method +:+ "__" +:+ bare_words_joined path)).
Proof.
  split; [reflexivity|]. split; [reflexivity|]. split; [reflexivity|].
  split; [reflexivity|]. split; [reflexivity|]. split.
  - intros method path c id. unfold generate_tool_name.
    cbn [truthy String.eqb negb]. by rewrite sanitize_bare_words.
  - intros method path _. unfold generate_tool_name.
    cbn [truthy String.eqb negb]. by rewrite sanitize_bare_words.
Qed.

Lemma tool_name_generation_witness :
  generate_tool_name "delete" "/users/{userId}/posts/{postId}" JNull
  = Ok "DELETE__users_userId_posts_postId".
Proof.
  exact (proj1 (proj2 (proj2 (proj2 (proj2 (proj2 (proj2
           tool_name_generation))))) "delete"
           "/users/{userId}/posts/{postId}" eq_refl)).
Defined.

End ToolNameFacts.

(** ** URL composition *)

Module UrlFacts.
Import PyStr Py UrlLib ReadingJoin Invoke Aux StrFacts.

Lemma to_of_chars (l : chars) : to_chars (of_chars l) = l.
Proof. apply list_ascii_of_string_of_list_ascii. Qed.

Lemma of_to_chars (s : string) : of_chars (to_chars s) = s.
Proof. apply string_of_list_ascii_of_string. Qed.

Lemma to_chars_app (a b : string) :
  to_chars (a +:+ b) = to_chars a ++ to_chars b.
Proof. induction a as [|c a IH]; simpl; [reflexivity | by rewrite IH]. Qed.

Lemma of_chars_app (a b : chars) :
  of_chars (a ++ b) = of_chars a +:+ of_chars b.
Proof. induction a as [|c a IH]; simpl; [reflexivity | by rewrite IH]. Qed.

Lemma forallb_impl {A} (p q : A -> bool) (l : list A) :
  (forall x, p x = true -> q x = true) ->
  forallb p l = true -> forallb q l = true.
Proof.
  intros Hpq. induction l as [|x l IH]; simpl; [done|].
  rewrite !andb_true_iff. intros [Hx Hl]. auto.
Qed.

Lemma split_once_absent (sep : ascii) (s : chars) :
  free sep s = true -> split_once sep s = (s, None).
Proof.
  unfold free, is_char.
  induction s as [|c s IH]; simpl; [done|].
  rewrite andb_true_iff, negb_true_iff. intros [-> Hs].
  by rewrite IH.
Qed.

Lemma cut_absent (sep : ascii) (s : chars) :
  free sep s = true -> cut sep s = (s, []).
Proof. intros H. unfold cut. by rewrite split_once_absent. Qed.

Lemma split_params_absent (s : chars) :
  free ";" s = true -> split_params s = (s, []).
Proof.
  induction s as [|c s IH]; [done|].
  intros H. cbn [split_params].
  destruct (existsb (is_char "/") (c :: s)).
  - rewrite IH; [done|]. unfold free in *. simpl in H.
    by apply andb_true_iff in H as [_ ?].
  - by apply cut_absent.
Qed.

Lemma break_at_stop (stop : ascii -> bool) (h : chars) (c : ascii)
    (t : chars) :
  forallb (fun x => negb (stop x)) h = true -> stop c = true ->
  break_at stop (h ++ c :: t) = (h, c :: t).
Proof.
  intros Hh Hc. induction h as [|x h IH]; simpl.
  - by rewrite Hc.
  - simpl in Hh. apply andb_true_iff in Hh as [Hx Hh].
    apply negb_true_iff in Hx. rewrite Hx, IH by done. done.
Qed.

Lemma split_on_piece (p : ascii -> bool) (w : chars) (c : ascii)
    (t : chars) :
  forallb (fun x => negb (p x)) w = true -> p c = true ->
  split_on p (w ++ c :: t) = w :: split_on p t.
Proof.
  intros Hw Hc. induction w as [|x w IH].
  - simpl. by rewrite Hc.
  - simpl in Hw. apply andb_true_iff in Hw as [Hx Hw].
    apply negb_true_iff in Hx.
    cbn [app]. rewrite split_on_cons, Hx, IH by done. done.
Qed.

Lemma split_on_whole (p : ascii -> bool) (w : chars) :
  forallb (fun x => negb (p x)) w = true -> split_on p w = [w].
Proof.
  intros Hw. induction w as [|x w IH]; [done|].
  simpl in Hw. apply andb_true_iff in Hw as [Hx Hw].
  apply negb_true_iff in Hx.
  rewrite split_on_cons, Hx, IH by done. done.
Qed.

(** Splitting a joined text gives the words back. *)
Lemma split_join (ws : list chars) :
  ws <> [] -> forallb (free "/") ws = true ->
  split_chars "/" (join_chars "/" ws) = ws.
Proof.
  unfold split_chars. induction ws as [|w ws IH]; [done|].
  intros _ H. simpl in H. apply andb_true_iff in H as [Hw Hws].
  assert (forallb (fun x => negb (Ascii.eqb x "/")) w = true) as Hw'.
  { revert Hw. apply forallb_impl. intros x. unfold is_char. done. }
  destruct ws as [|w' ws'].
  - simpl. by apply split_on_whole.
  - change (join_chars "/" (w :: w' :: ws'))
      with (w ++ "/"%char :: join_chars "/" (w' :: ws')).
    rewrite split_on_piece by done. rewrite IH by done. done.
Qed.

Lemma split_slashed (segs : list chars) :
  forallb (free "/") segs = true ->
  split_chars "/" (slashed segs ++ ["/"%char]) = [] :: segs ++ [[]].
Proof.
  unfold split_chars.
  induction segs as [|w segs IH]; [done|].
  intros H. simpl in H. apply andb_true_iff in H as [Hw Hs].
  assert (forallb (fun x => negb (Ascii.eqb x "/")) w = true) as Hw'.
  { revert Hw. apply forallb_impl. intros x. unfold is_char. done. }
  specialize (IH Hs).
  unfold slashed in *. cbn [map concat]. rewrite <- !app_assoc.
  cbn [app]. rewrite split_on_cons. cbn [Ascii.eqb Bool.eqb].
  destruct (concat (map (cons "/"%char) segs) ++ ["/"%char]) as [|c t] eqn:E.
  { destruct (concat (map (cons "/"%char) segs)); discriminate. }
  assert (c = "/"%char) as ->.
  { destruct segs; simpl in E; congruence. }
  rewrite split_on_piece by done. f_equal.
  rewrite split_on_cons in IH. cbn [Ascii.eqb Bool.eqb] in IH.
  by injection IH as ->.
Qed.

Lemma slash_join (ws : list chars) :
  ws <> [] -> "/"%char :: join_chars "/" ws = slashed ws.
Proof.
  induction ws as [|w ws IH]; [done|]. intros _.
  destruct ws as [|w' ws'].
  - unfold slashed. simpl. by rewrite ?app_nil_r.
  - change (join_chars "/" (w :: w' :: ws'))
      with (w ++ "/"%char :: join_chars "/" (w' :: ws')).
    rewrite IH by done. reflexivity.
Qed.

Lemma slashed_app (a b : list chars) : slashed (a ++ b) = slashed a ++ slashed b.
Proof. unfold slashed. by rewrite map_app, concat_app. Qed.

Lemma seg_char_facts (c : ascii) :
  seg_char c = true ->
  plain_char c = true /\ is_char "/" c = false /\ is_char "?" c = false
  /\ is_char "#" c = false /\ is_char ";" c = false
  /\ is_char ":" c = false.
Proof.
  destruct c as [[] [] [] [] [] [] [] []]; vm_compute; intros H;
    try discriminate H; repeat split; reflexivity.
Qed.

Lemma host_char_facts (c : ascii) :
  host_char c = true ->
  plain_char c = true /\ is_char "/" c = false /\ is_char "?" c = false
  /\ is_char "#" c = false.
Proof.
  destruct c as [[] [] [] [] [] [] [] []]; vm_compute; intros H;
    try discriminate H; repeat split; reflexivity.
Qed.

Lemma good_seg_inv (w : chars) :
  good_seg w = true ->
  nonempty w = true /\ forallb seg_char w = true
  /\ is_dot w = false /\ is_dotdot w = false.
Proof.
  unfold good_seg. rewrite !andb_true_iff, !negb_true_iff. tauto.
Qed.

Lemma good_segs_all (q : chars -> bool) (segs : list chars) :
  (forall w, good_seg w = true -> q w = true) ->
  forallb good_seg segs = true -> forallb q segs = true.
Proof. apply forallb_impl. Qed.

Lemma good_segs_free (a : ascii) (segs : list chars) :
  (forall c, seg_char c = true -> is_char a c = false) ->
  forallb good_seg segs = true -> forallb (free a) segs = true.
Proof.
  intros Ha. apply good_segs_all. intros w Hw.
  apply good_seg_inv in Hw as (_ & Hw & _). revert Hw.
  apply forallb_impl. intros c Hc. by rewrite (Ha c Hc).
Qed.

Lemma forallb_slashed (q : ascii -> bool) (segs : list chars) :
  q "/"%char = true -> forallb (forallb q) segs = true ->
  forallb q (slashed segs) = true.
Proof.
  intros Hq. unfold slashed. induction segs as [|w segs IH]; [done|].
  cbn [map concat forallb app]. rewrite forallb_app, Hq.
  rewrite !andb_true_iff. intros [Hw Hs]. auto.
Qed.

Lemma forallb_join (q : ascii -> bool) (ws : list chars) :
  q "/"%char = true -> forallb (forallb q) ws = true ->
  forallb q (join_chars "/" ws) = true.
Proof.
  intros Hq. induction ws as [|w ws IH]; [done|].
  rewrite join_cons. cbn [forallb]. rewrite forallb_app.
  rewrite !andb_true_iff. intros [Hw Hs]. split; [done|].
  destruct ws; [done|]. cbn [join_rest forallb]. rewrite Hq. auto.
Qed.

Lemma free_slashed (a : ascii) (segs : list chars) :
  is_char a "/" = false ->
  (forall c, seg_char c = true -> is_char a c = false) ->
  forallb good_seg segs = true -> free a (slashed segs) = true.
Proof.
  intros Ha Hc Hs. apply forallb_slashed; [by rewrite Ha|].
  by apply good_segs_free.
Qed.

Lemma free_join (a : ascii) (segs : list chars) :
  is_char a "/" = false ->
  (forall c, seg_char c = true -> is_char a c = false) ->
  forallb good_seg segs = true -> free a (join_chars "/" segs) = true.
Proof.
  intros Ha Hc Hs. apply forallb_join; [by rewrite Ha|].
  by apply good_segs_free.
Qed.

Lemma free_app (a : ascii) (l1 l2 : chars) :
  free a l1 = true -> free a l2 = true -> free a (l1 ++ l2) = true.
Proof. unfold free. rewrite forallb_app. by intros -> ->. Qed.

Lemma is_http_inv (sch : chars) :
  is_http sch = true -> sch = to_chars "http" \/ sch = to_chars "https".
Proof.
  unfold is_http. rewrite orb_true_iff, !bool_decide_eq_true. tauto.
Qed.

(** The parse of [scheme://host/s1/.../sk/]. *)
Lemma urlparse_base (sch host : chars) (segs : list chars) :
  is_http sch = true -> good_host host = true ->
  forallb good_seg segs = true ->
  urlparse (render sch host segs ++ ["/"%char]) []
  = Parts sch host (slashed segs ++ ["/"%char]) [] [] [].
Proof.
  intros Hs Hh Hg. unfold good_host in Hh.
  apply andb_true_iff in Hh as [Hne Hh].
  set (p := slashed segs ++ ["/"%char]).
  assert (exists t, p = "/"%char :: t) as [t Ht].
  { unfold p, slashed. destruct segs; simpl; eauto. }
  assert (forall a, is_char a "/" = false ->
            (forall c, seg_char c = true -> is_char a c = false) ->
            free a p = true) as Hfree.
  { intros a Ha Hc. unfold p. apply free_app; [by apply free_slashed|].
    unfold free. cbn [forallb]. by rewrite Ha. }
  unfold urlparse, render. rewrite <- !app_assoc. fold p.
  assert (split_scheme (sch ++ to_chars "://" ++ host ++ p) []
          = (sch, "/"%char :: "/"%char :: host ++ p)) as ->.
  { destruct (is_http_inv _ Hs) as [-> | ->]; reflexivity. }
  unfold split_netloc. rewrite Ht.
  rewrite break_at_stop; [|
    revert Hh; apply forallb_impl; intros c Hc;
    destruct (host_char_facts c Hc) as (_ & -> & -> & ->); done | done].
  rewrite <- Ht.
  rewrite (cut_absent "#") by
    (apply Hfree; [done | intros c Hc; by apply seg_char_facts in Hc as (_&_&_&->&_)]).
  rewrite (cut_absent "?") by
    (apply Hfree; [done | intros c Hc; by apply seg_char_facts in Hc as (_&_&->&_)]).
  rewrite split_params_absent by
    (apply Hfree; [done | intros c Hc; by apply seg_char_facts in Hc as (_&_&_&_&->&_)]).
  reflexivity.
Qed.

Lemma join_head (rsegs : list chars) :
  rsegs <> [] -> forallb good_seg rsegs = true ->
  exists c t, join_chars "/" rsegs = c :: t /\ seg_char c = true.
Proof.
  destruct rsegs as [|w ws]; [done|]. intros _ H. simpl in H.
  apply andb_true_iff in H as [Hw _].
  apply good_seg_inv in Hw as (Hne & Hw & _).
  destruct w as [|c w]; [done|]. simpl in Hw.
  apply andb_true_iff in Hw as [Hc _].
  rewrite join_cons. cbn [app]. eauto.
Qed.

Lemma split_netloc_rel (c : ascii) (t : chars) :
  is_char "/" c = false -> split_netloc (c :: t) = ([], c :: t).
Proof.
  destruct c as [[] [] [] [] [] [] [] []]; vm_compute; intros H;
    try discriminate H; reflexivity.
Qed.

(** The parse of [r1/.../rm]. *)
Lemma urlparse_rel (sch : chars) (rsegs : list chars) :
  rsegs <> [] -> forallb good_seg rsegs = true ->
  urlparse (join_chars "/" rsegs) sch
  = Parts sch [] (join_chars "/" rsegs) [] [] [].
Proof.
  intros Hne Hg.
  assert (forall a, is_char a "/" = false ->
            (forall c, seg_char c = true -> is_char a c = false) ->
            free a (join_chars "/" rsegs) = true) as Hfree.
  { intros a Ha Hc. by apply free_join. }
  destruct (join_head rsegs Hne Hg) as (c & t & E & Hc).
  unfold urlparse.
  assert (split_scheme (join_chars "/" rsegs) sch
          = (sch, join_chars "/" rsegs)) as ->.
  { unfold split_scheme. rewrite split_once_absent.
    - by destruct (join_chars "/" rsegs).
    - apply Hfree; [done|]. intros x Hx.
      by apply seg_char_facts in Hx as (_&_&_&_&_&->). }
  rewrite E, split_netloc_rel by
    (by apply seg_char_facts in Hc as (_&->&_)).
  rewrite <- E.
  rewrite (cut_absent "#") by
    (apply Hfree; [done | intros x Hx; by apply seg_char_facts in Hx as (_&_&_&->&_)]).
  rewrite (cut_absent "?") by
    (apply Hfree; [done | intros x Hx; by apply seg_char_facts in Hx as (_&_&->&_)]).
  rewrite split_params_absent by
    (apply Hfree; [done | intros x Hx; by apply seg_char_facts in Hx as (_&_&_&_&->&_)]).
  reflexivity.
Qed.

Lemma filter_good (segs : list chars) :
  forallb good_seg segs = true ->
  List.filter (fun w => nonempty w) segs = segs.
Proof.
  induction segs as [|w segs IH]; [done|]. simpl.
  rewrite andb_true_iff. intros [Hw Hs].
  apply good_seg_inv in Hw as (-> & _). by rewrite IH.
Qed.

Lemma forallb_removelast {A} (q : A -> bool) (l : list A) :
  forallb q l = true -> forallb q (removelast l) = true.
Proof.
  induction l as [|x l IH]; [done|]. simpl.
  rewrite andb_true_iff. intros [Hx Hl].
  destruct l; [done|]. cbn [forallb]. rewrite Hx. by apply IH.
Qed.

Lemma resolve_dots_plain (acc segs : list chars) :
  forallb (fun w => negb (is_dot w) && negb (is_dotdot w)) segs = true ->
  resolve_dots acc segs = rev acc ++ segs.
Proof.
  revert acc. induction segs as [|w segs IH]; intros acc.
  - simpl. by rewrite app_nil_r.
  - simpl. rewrite !andb_true_iff, !negb_true_iff.
    intros [[-> ->] Hs]. rewrite IH by done. simpl.
    by rewrite <- app_assoc.
Qed.

Lemma last_good (rsegs : list chars) :
  rsegs <> [] -> forallb good_seg rsegs = true ->
  good_seg (List.last rsegs []) = true.
Proof.
  induction rsegs as [|w ws IH]; [done|]. intros _. simpl.
  rewrite andb_true_iff. intros [Hw Hs].
  destruct ws; [done|]. by apply IH.
Qed.

Lemma last_app_cons {A} (l : list A) (x : A) (r : list A) (d : A) :
  List.last (l ++ x :: r) d = List.last (x :: r) d.
Proof.
  induction l as [|y l IH]; [done|].
  cbn [app]. destruct (l ++ x :: r) eqn:E.
  - by destruct l.
  - exact IH.
Qed.

Lemma last_cons_snoc {A} (x : A) (l : list A) (y d : A) :
  List.last (x :: l ++ [y]) d = y.
Proof. change (x :: l ++ [y]) with ((x :: l) ++ [y]). apply last_last. Qed.

Lemma pick_rel {B} (c : ascii) (t : chars) (a b : B) :
  is_char "/" c = false ->
  match c :: t with "/"%char :: _ => a | _ => b end = b.
Proof.
  destruct c as [[] [] [] [] [] [] [] []]; vm_compute; intros H;
    try discriminate H; reflexivity.
Qed.

Lemma join_rest_nonnil (sep : ascii) (ws : list chars) :
  ws <> [] -> join_rest sep ws = sep :: join_chars sep ws.
Proof. by destruct ws. Qed.

Lemma removelast_cons {A} (x : A) (l : list A) :
  l <> [] -> removelast (x :: l) = x :: removelast l.
Proof. by destruct l. Qed.

Lemma last_cons {A} (x : A) (l : list A) (d : A) :
  l <> [] -> List.last (x :: l) d = List.last l d.
Proof. by destruct l. Qed.

Lemma drop_empty_inner_plain (segs rsegs : list chars) :
  rsegs <> [] ->
  forallb good_seg segs = true -> forallb good_seg rsegs = true ->
  drop_empty_inner (([] :: segs ++ [[]]) ++ rsegs) = [] :: segs ++ rsegs.
Proof.
  intros Hne Hs Hr.
  unfold drop_empty_inner. cbn [app].
  match goal with
  | |- context [match ?l with [] => _ | _ :: _ => _ end] =>
      destruct l as [|x r] eqn:Ex
  end.
  { destruct segs; discriminate. }
  rewrite <- Ex. rewrite <- app_assoc. cbn [app].
  rewrite removelast_app by discriminate.
  rewrite List.filter_app.
  rewrite filter_good by done.
  rewrite removelast_cons by done.
  cbn [List.filter nonempty].
  rewrite filter_good by by apply forallb_removelast.
  rewrite last_app_cons, last_cons by done.
  rewrite <- app_assoc. by rewrite <- app_removelast_last.
Qed.

(** The path of [/s1/.../sk/] joined with [r1/.../rm]. *)
Lemma join_path_plain (segs rsegs : list chars) :
  rsegs <> [] ->
  forallb good_seg segs = true -> forallb good_seg rsegs = true ->
  join_path (slashed segs ++ ["/"%char]) (join_chars "/" rsegs)
  = slashed (segs ++ rsegs).
Proof.
  intros Hne Hs Hr.
  assert (forall l, forallb good_seg l = true ->
                    forallb (free "/") l = true) as Hfree.
  { intros l. apply good_segs_free. intros c Hc.
    by apply seg_char_facts in Hc as (_&->&_). }
  unfold join_path. cbv zeta.
  rewrite split_slashed by auto.
  rewrite !last_cons_snoc. cbn [nonempty].
  destruct (join_head rsegs Hne Hr) as (c & t & E & Hc).
  rewrite E.
  assert (is_char "/" c = false) as Hc'
    by (by apply seg_char_facts in Hc as (_ & -> & _)).
  rewrite !(pick_rel c t) by exact Hc'.
  rewrite <- E. rewrite split_join by auto.
  rewrite drop_empty_inner_plain by done.
  assert (forallb good_seg (segs ++ rsegs) = true) as Hall.
  { by rewrite forallb_app, Hs, Hr. }
  rewrite resolve_dots_plain.
  2:{ cbn [forallb is_dot is_dotdot negb andb]. revert Hall.
      apply forallb_impl. intros w Hw.
      by apply good_seg_inv in Hw as (_&_&->&->). }
  cbn [rev app].
  change ([] :: segs ++ rsegs) with (([] :: segs) ++ rsegs).
  destruct rsegs as [|r0 rs]; [done|].
  rewrite last_app_cons.
  pose proof (last_good (r0 :: rs) Hne Hr) as Hl.
  apply good_seg_inv in Hl as (_&_&->&->). cbn [orb].
  cbn [app]. rewrite join_cons. cbn [app].
  rewrite join_rest_nonnil by (by destruct segs).
  apply slash_join. by destruct segs.
Qed.

Lemma plain_render (sch host : chars) (segs : list chars) :
  is_http sch = true -> good_host host = true ->
  forallb good_seg segs = true ->
  forallb plain_char (render sch host segs) = true.
Proof.
  intros Hs Hh Hg. unfold render. rewrite !forallb_app.
  apply andb_true_iff in Hh as [_ Hh].
  assert (forallb plain_char sch = true) as ->
    by (destruct (is_http_inv _ Hs) as [-> | ->]; reflexivity).
  assert (forallb plain_char host = true) as ->.
  { revert Hh. apply forallb_impl. intros c Hc.
    by apply host_char_facts in Hc as (-> & _). }
  assert (forallb plain_char (slashed segs) = true) as ->.
  { apply forallb_slashed; [reflexivity|]. revert Hg.
    apply forallb_impl. intros w Hw.
    apply good_seg_inv in Hw as (_ & Hw & _). revert Hw.
    apply forallb_impl. intros c Hc.
    by apply seg_char_facts in Hc as (-> & _). }
  reflexivity.
Qed.

Lemma plain_join (rsegs : list chars) :
  forallb good_seg rsegs = true ->
  forallb plain_char (join_chars "/" rsegs) = true.
Proof.
  intros Hg. apply forallb_join; [reflexivity|]. revert Hg.
  apply forallb_impl. intros w Hw.
  apply good_seg_inv in Hw as (_ & Hw & _). revert Hw.
  apply forallb_impl. intros c Hc.
  by apply seg_char_facts in Hc as (-> & _).
Qed.

(** On plain texts the resolver appends the relative path to the
    base. *)
Lemma urljoin_plain (sch host : chars) (segs rsegs : list chars) :
  is_http sch = true -> good_host host = true ->
  forallb good_seg segs = true -> forallb good_seg rsegs = true ->
  rsegs <> [] ->
  urljoin_chars (render sch host segs ++ ["/"%char]) (join_chars "/" rsegs)
  = Some (render sch host (segs ++ rsegs)).
Proof.
  intros Hs Hh Hg Hr Hne. unfold urljoin_chars.
  rewrite urlparse_base by done. cbn [scheme netloc path params query].
  rewrite <- app_assoc, forallb_app, plain_render by done.
  cbn [app forallb]. rewrite plain_join by done.
  rewrite Hs. pose proof Hh as Hh'. unfold good_host in Hh'.
  apply andb_true_iff in Hh' as [-> _].
  change (plain_char "/") with true. cbn [andb negb].
  destruct (join_head rsegs Hne Hr) as (c & t & E & Hc).
  rewrite E at 1. cbn [nonempty negb]. rewrite urlparse_rel by done.
  cbn [scheme netloc path params query fragment nonempty negb andb].
  unfold same_chars. rewrite bool_decide_eq_true_2 by done.
  cbn [negb]. rewrite E at 1. cbn [nonempty negb andb].
  rewrite join_path_plain by done.
  unfold urlunparse. cbn [scheme netloc path params query fragment nonempty].
  assert (exists t', slashed (segs ++ rsegs) = "/"%char :: t') as [t' Et].
  { unfold slashed. destruct segs; [destruct rsegs|]; simpl; eauto. done. }
  rewrite Et.
  assert (nonempty sch = true) as ->
    by (destruct (is_http_inv _ Hs) as [-> | ->]; reflexivity).
  rewrite <- Et. unfold render. cbn [to_chars list_ascii_of_string app].
  reflexivity.
Qed.

Lemma nonempty_last (q : ascii -> bool) (w : chars) :
  nonempty w = true -> forallb q w = true ->
  exists pre x, w = pre ++ [x] /\ q x = true.
Proof.
  intros Hne Hq. destruct w as [|c w]; [done|].
  destruct (exists_last (l := c :: w)) as (pre & x & E); [done|].
  exists pre, x. split; [done|]. rewrite E, forallb_app in Hq.
  apply andb_true_iff in Hq as [_ Hq]. simpl in Hq.
  by apply andb_true_iff in Hq as [-> _].
Qed.

Lemma render_last (sch host : chars) (segs : list chars) :
  good_host host = true -> forallb good_seg segs = true ->
  exists pre x, render sch host segs = pre ++ [x] /\ is_char "/" x = false.
Proof.
  intros Hh Hg. unfold render, good_host in *.
  apply andb_true_iff in Hh as [Hne Hh].
  destruct segs as [|s0 segs0].
  - destruct (nonempty_last _ _ Hne Hh) as (pre & x & -> & Hx).
    exists (sch ++ to_chars "://" ++ pre), x. split.
    + unfold slashed. cbn [map concat to_chars list_ascii_of_string app].
      rewrite ?app_nil_r.
      repeat (rewrite <- app_assoc || (progress cbn [app])). reflexivity.
    + by apply host_char_facts in Hx as (_ & -> & _).
  - destruct (exists_last (l := s0 :: segs0)) as (segs' & w & E); [done|].
    rewrite E in *. rewrite forallb_app in Hg.
    apply andb_true_iff in Hg as [_ Hw]. simpl in Hw.
    apply andb_true_iff in Hw as [Hw _].
    apply good_seg_inv in Hw as (Hwne & Hw & _).
    destruct (nonempty_last _ _ Hwne Hw) as (pre & x & -> & Hx).
    exists (sch ++ to_chars "://" ++ host ++ slashed segs'
            ++ "/"%char :: pre), x.
    split.
    + rewrite slashed_app. unfold slashed at 2.
      cbn [map concat to_chars list_ascii_of_string app].
      rewrite ?app_nil_r.
      repeat (rewrite <- app_assoc || (progress cbn [app])). reflexivity.
    + by apply seg_char_facts in Hx as (_ & -> & _).
Qed.

Lemma with_trailing_slash_render (base_url : string) (sch host : chars)
    (segs : list chars) :
  good_host host = true -> forallb good_seg segs = true ->
  to_chars base_url = render sch host segs ->
  to_chars (with_trailing_slash base_url)
  = render sch host segs ++ ["/"%char].
Proof.
  intros Hh Hg E. unfold with_trailing_slash, endswith.
  destruct (render_last sch host segs Hh Hg) as (pre & x & Ep & Hx).
  rewrite E, Ep, rev_app_distr. cbn [rev app to_chars list_ascii_of_string
    starts_with]. unfold is_char in Hx. rewrite Ascii.eqb_sym, Hx.
  cbn [andb]. rewrite to_chars_app, E, Ep. reflexivity.
Qed.

(** C8, as worded, fails: the composed URL is not always the base, one
    separator and the substituted path.  A substituted path with a dot
    segment is resolved against the base, and one that is itself an
    absolute URL replaces the base. *)
Lemma url_join_as_worded_fails :
  build_url_with_path_params "https://api.x.com" "/pets/{petId}"
    [("petId", JStr "..")] = Some "https://api.x.com/"
  /\ join_as_worded "https://api.x.com" "/pets/.."
     = "https://api.x.com/pets/.."
  /\ build_url_with_path_params "https://api.x.com/v1" "/{target}"
       [("target", JStr "http://other.example/x")]
     = Some "http://other.example/x"
  /\ join_as_worded "https://api.x.com/v1" "/http://other.example/x"
     = "https://api.x.com/v1/http://other.example/x".
Proof. repeat split; vm_compute; reflexivity. Qed.

(** C8, amended: [build_url_with_path_params("https://api.x.com",
    "/pets/{petId}", {"petId": 123})] returns exactly
    [https://api.x.com/pets/123]; in general, for an [http] or [https]
    base URL [scheme://host/s1/.../sk] without a trailing slash and a
    substituted path whose segments, after at most one leading slash,
    are not empty, are printable ASCII without [/ ? # ; :] and square
    brackets and are neither [.] nor [..], the composed URL is the base
    URL, one separator and the substituted path without its leading
    slash. *)
Theorem url_composition :
  build_url_with_path_params "https://api.x.com" "/pets/{petId}"
    [("petId", JInt 123)] = Some "https://api.x.com/pets/123"
  /\ (forall (base_url path : string) (params : dict)
             (resolved_path : string) (sch host : chars)
             (segs rsegs : list chars),
        is_http sch = true -> good_host host = true ->
        forallb good_seg segs = true -> forallb good_seg rsegs = true ->
        (0 < length rsegs)%nat ->
        to_chars base_url = render sch host segs ->
        substitute path params = Some resolved_path ->
        to_chars (without_leading_slash resolved_path)
        = join_chars "/" rsegs ->
        build_url_with_path_params base_url path params
        = Some (base_url +:+ "/" +:+ without_leading_slash resolved_path)).
Proof.
  split; [by vm_compute|].
  intros base_url path params resolved_path sch host segs rsegs
         Hs Hh Hg Hr Hlen Hb Hsub Hrel.
  assert (rsegs <> []) as Hne by (destruct rsegs; [simpl in Hlen; lia|done]).
  unfold build_url_with_path_params. rewrite Hsub. cbn [mbind option_bind].
  unfold urljoin.
  rewrite (with_trailing_slash_render _ sch host segs) by done.
  rewrite Hrel, urljoin_plain by done. cbn [fmap option_fmap option_map].
  f_equal. rewrite <- (of_to_chars (base_url +:+ _)).
  f_equal. rewrite !to_chars_app, Hb, Hrel. unfold render.
  rewrite slashed_app, <- (slash_join rsegs) by done.
  rewrite <- !app_assoc. reflexivity.
Qed.

Lemma url_composition_witness :
  build_url_with_path_params "https://api.x.com/v2" "/pets/{petId}/toys"
    [("petId", JInt 7)]
  = Some ("https://api.x.com/v2" +:+ "/"
          +:+ without_leading_slash "/pets/7/toys").
Proof.
  apply (proj2 url_composition
           "https://api.x.com/v2" "/pets/{petId}/toys"
           [("petId", JInt 7)] "/pets/7/toys"
           (to_chars "https") (to_chars "api.x.com") [to_chars "v2"]
           [to_chars "pets"; to_chars "7"; to_chars "toys"]);
    try reflexivity.
  simpl. lia.
Defined.

End UrlFacts.

(** ** Parameter merge *)

Module MergeFacts.
Import PyStr Py ReadingEngine Aux Examples.

Lemma fields_get_set (fs : fields) (k k' : string) (f : field) :
  fields_get (dict_set fs k f) k'
  = if String.eqb k k' then Some f else fields_get fs k'.
Proof.
  induction fs as [|[k0 f0] fs IH]; simpl.
  - reflexivity.
  - destruct (String.eqb k0 k) eqn:E0; simpl.
    + apply String.eqb_eq in E0 as ->.
      destruct (String.eqb k k'); reflexivity.
    + destruct (String.eqb k0 k') eqn:E1; [|exact IH].
      apply String.eqb_eq in E1 as ->. by rewrite String.eqb_sym, E0.
Qed.

(** A round of the loop either leaves [fields] alone or sets the key of
    the parameter's contribution. *)
Lemma add_param_step (fs fs' : fields) (odd odd' : bool) (p : json) :
  add_param (fs, odd) p = Ok (fs', odd') ->
  fs' = match contribution p with
        | Some (k, f) => dict_set fs k f
        | None => fs
        end.
Proof.
  unfold contribution, add_param.
  destruct p as [| | | | | |d]; try discriminate.
  cbn [get_or mbind result_bind].
  destruct (truthy (dict_get_or d "name" JNull)); cbn [negb];
    [|by intros [= <- <-]].
  destruct (eq_str (dict_get_or d "in" JNull) "path"
            || eq_str (dict_get_or d "in" JNull) "query"); cbn [negb];
    [|by intros [= <- <-]].
  destruct (dict_get_or d "schema" (JDict [])) as [| | | | | |sc];
    try discriminate.
  cbn [get_or mbind result_bind].
  destruct (openapi_type_to_python (JDict sc)) as [ty|e]; [|discriminate].
  cbn [mbind result_bind].
  destruct (hashable (dict_get_or d "name" JNull)); cbn [negb];
    [|discriminate].
  destruct (dict_get_or d "name" JNull); by intros [= <- <-].
Qed.

Lemma latest_from (k : string) (params : list json) (init : option field) :
  fold_left (latest k) params init
  = match last_contribution k params with
    | Some f => Some f
    | None => init
    end.
Proof.
  unfold last_contribution. fold (latest k).
  revert init. induction params as [|p params IH]; intros init.
  - reflexivity.
  - cbn [fold_left]. rewrite IH, (IH (latest k None p)).
    destruct (fold_left (latest k) params None); [reflexivity|].
    unfold latest. destruct (contribution p) as [[k' f]|]; [|reflexivity].
    destruct (String.eqb k' k); reflexivity.
Qed.

Lemma add_params_fields (params : list json) (acc acc' : fields * bool)
    (k : string) :
  add_params acc params = Ok acc' ->
  fields_get (fst acc') k
  = match last_contribution k params with
    | Some f => Some f
    | None => fields_get (fst acc) k
    end.
Proof.
  revert acc. induction params as [|p params IH]; intros acc.
  - by intros [= <-].
  - cbn [add_params]. destruct (add_param acc p) as [acc1|e] eqn:E1;
      [|discriminate].
    cbn [mbind result_bind]. intros H. rewrite (IH _ H).
    unfold last_contribution at 2. fold (latest k). cbn [fold_left].
    rewrite latest_from.
    destruct (last_contribution k params); [reflexivity|].
    destruct acc as [fs odd], acc1 as [fs1 odd1].
    rewrite (add_param_step _ _ _ _ _ E1). unfold latest. cbn [fst].
    destruct (contribution p) as [[k' f]|]; [|reflexivity].
    rewrite fields_get_set. destruct (String.eqb k' k); reflexivity.
Qed.

(** C5, as worded, fails: an operation-level parameter with the name of
    a path-level parameter overrides it.  The input model has one field
    of that name, with the operation-level type and requiredness. *)
Lemma merge_as_worded_fails :
  build_input_model strict_library
                    [("parameters", JList [operation_level_id])]
                    (JList [path_level_id]) "listPets"
  = Ok [("id", Field TStr false (JStr EmptyString))]
  /\ contribution path_level_id
     = Some ("id", Field TInt true (JStr EmptyString))
  /\ ~ path_level_kept [path_level_id]
         [("id", Field TStr false (JStr EmptyString))].
Proof.
  split; [reflexivity|]. split; [reflexivity|].
  intros H.
  specialize (H path_level_id "id" (Field TInt true (JStr EmptyString))
                (or_introl eq_refl) eq_refl).
  discriminate H.
Qed.

(** C5, amended: the path-level parameters are visited before the
    operation-level ones and every name yields one input field; where
    an operation-level parameter of location path or query has the name
    of a path-level parameter, its type, requiredness and description
    replace the path-level ones, and a path-level parameter contributes
    its own field only when no operation-level parameter has its
    name. *)
Theorem parameter_merge (lib : Library) (operation : dict)
    (path_params operation_params : list json) (tool_name : string)
    (fs : fields) (k : string) :
  dict_get_or operation "parameters" (JList []) = JList operation_params ->
  build_input_model lib operation (JList path_params) tool_name = Ok fs ->
  k <> "body" ->
  fields_get fs k
  = match last_contribution k operation_params with
    | Some f => Some f
    | None => last_contribution k path_params
    end.
Proof.
  intros Hops Hb Hk. unfold build_input_model in Hb.
  rewrite Hops in Hb. cbn [all_params mbind result_bind] in Hb.
  destruct (add_params ([], false) (path_params ++ operation_params))
    as [acc|e] eqn:Ea; [|discriminate].
  cbn [mbind result_bind] in Hb.
  pose proof (add_params_fields _ _ _ k Ea) as Hf. cbn [fst fields_get] in Hf.
  assert (last_contribution k (path_params ++ operation_params)
          = match last_contribution k operation_params with
            | Some f => Some f
            | None => last_contribution k path_params
            end) as Hl.
  { unfold last_contribution at 1. fold (latest k).
    rewrite fold_left_app, latest_from. reflexivity. }
  rewrite Hl in Hf.
  assert (fields_get fs k = fields_get (fst acc) k) as ->.
  { destruct (get_or (dict_get_or operation "requestBody" (JDict []))
                "content" (JDict [])) as [content|e]; [|discriminate].
    cbn [mbind result_bind] in Hb.
    destruct (get_or content "application/json" (JDict [])) as [jc|e];
      [|discriminate].
    cbn [mbind result_bind] in Hb.
    destruct (truthy jc).
    - destruct (get_or (dict_get_or operation "requestBody" (JDict []))
                  "required" (JBool false)) as [br|e]; [|discriminate].
      cbn [mbind result_bind] in Hb.
      destruct (get_or (dict_get_or operation "requestBody" (JDict []))
                  "description" (JStr "JSON request body")) as [bd|e];
        [|discriminate].
      cbn [mbind result_bind] in Hb.
      destruct (snd acc); [discriminate|].
      destruct (create_model lib _ _); [discriminate|].
      injection Hb as <-. rewrite fields_get_set.
      destruct (String.eqb "body" k) eqn:E; [|reflexivity].
      apply String.eqb_eq in E. congruence.
    - cbn [mbind result_bind] in Hb.
      destruct (snd acc); [discriminate|].
      destruct (create_model lib _ _); [discriminate|].
      by injection Hb as <-. }
  destruct (last_contribution k operation_params); [exact Hf|].
  destruct (last_contribution k path_params); exact Hf.
Qed.

Lemma parameter_merge_witness :
  fields_get [("id", Field TStr false (JStr EmptyString))] "id"
  = match last_contribution "id" [operation_level_id] with
    | Some f => Some f
    | None => last_contribution "id" [path_level_id]
    end.
Proof.
  apply (parameter_merge strict_library
           [("parameters", JList [operation_level_id])]
           [path_level_id] [operation_level_id] "listPets");
    [reflexivity | reflexivity | discriminate].
Defined.

End MergeFacts.

(** ** Discovery order of the tool names *)

Module OrderFacts.
Import PyStr Py ReadingEngine Aux Examples.

Section Order.

Variable lib : Library.
Variable http_methods : list string.

(** What one round adds to the names and to the registered tools. *)
Lemma add_operation_names (base_url path : string) (path_item : dict)
    (plp : json) (tools tools' : list tool) (names names' : list string)
    (method : string) :
  add_operation lib base_url path path_item plp (tools, names) method
  = Ok (tools', names') ->
  exists new,
    names' = names ++ new
    /\ map t_name tools' = map t_name tools ++ new
    /\ Forall2 named new (operation_of path path_item method).
Proof.
  unfold add_operation, operation_of.
  destruct (dict_get path_item method) as [[| | | | | |operation]|];
    try (intros [= <- <-]; exists []; rewrite !app_nil_r;
         by repeat split).
  destruct (generate_tool_name method path
              (dict_get_or operation "operationId" JNull))
    as [tool_name|e] eqn:En; [|discriminate].
  cbn [mbind result_bind].
  destruct (build_input_model lib operation plp tool_name) as [im|e];
    [|discriminate].
  cbn [mbind result_bind].
  destruct (all_params plp (dict_get_or operation "parameters" (JList [])))
    as [ps|e]; [|discriminate].
  cbn [mbind result_bind].
  destruct (param_names "path" ps) as [pn|e]; [|discriminate].
  cbn [mbind result_bind].
  destruct (param_names "query" ps) as [qn|e]; [|discriminate].
  cbn [mbind result_bind].
  destruct (get_or (dict_get_or operation "requestBody" (JDict []))
              "content" (JDict [])) as [content|e]; [|discriminate].
  cbn [mbind result_bind].
  destruct (contains_key content "application/json") as [hb|e];
    [|discriminate].
  cbn [mbind result_bind].
  destruct (mcp_tool lib _); [discriminate|].
  cbn [library_call mbind result_bind]. intros [= <- <-].
  exists [tool_name]. repeat split.
  - by rewrite map_app.
  - constructor; [exact En | constructor].
Qed.

Lemma add_operations_names (base_url path : string) (path_item : dict)
    (plp : json) (methods : list string) (acc acc' : list tool * list string) :
  add_operations lib base_url path path_item plp acc methods = Ok acc' ->
  exists new,
    snd acc' = snd acc ++ new
    /\ map t_name (fst acc') = map t_name (fst acc) ++ new
    /\ Forall2 named new (flat_map (operation_of path path_item) methods).
Proof.
  revert acc. induction methods as [|m methods IH]; intros acc.
  - intros [= <-]. exists []. rewrite !app_nil_r. by repeat split.
  - cbn [add_operations].
    destruct (add_operation lib base_url path path_item plp acc m)
      as [acc1|e] eqn:E1; [|discriminate].
    cbn [mbind result_bind]. intros H.
    destruct acc as [tools names], acc1 as [tools1 names1].
    destruct (add_operation_names _ _ _ _ _ _ _ _ _ E1)
      as (new1 & Hn1 & Ht1 & Hf1).
    destruct (IH _ H) as (new2 & Hn2 & Ht2 & Hf2).
    cbn [fst snd] in *. exists (new1 ++ new2). repeat split.
    + by rewrite Hn2, Hn1, app_assoc.
    + by rewrite Ht2, Ht1, app_assoc.
    + cbn [flat_map]. by apply Forall2_app.
Qed.

Lemma add_paths_names (base_url : string) (entries : list (string * json))
    (acc acc' : list tool * list string) :
  add_paths lib http_methods base_url acc entries = Ok acc' ->
  exists new,
    snd acc' = snd acc ++ new
    /\ map t_name (fst acc') = map t_name (fst acc) ++ new
    /\ Forall2 named new (discovered http_methods entries).
Proof.
  revert acc. induction entries as [|[path item] entries IH]; intros acc.
  - intros [= <-]. exists []. rewrite !app_nil_r. by repeat split.
  - cbn [add_paths].
    destruct (add_path lib http_methods base_url acc (path, item))
      as [acc1|e] eqn:E1; [|discriminate].
    cbn [mbind result_bind]. intros H.
    destruct (IH _ H) as (new2 & Hn2 & Ht2 & Hf2).
    assert (exists new1,
              snd acc1 = snd acc ++ new1
              /\ map t_name (fst acc1) = map t_name (fst acc) ++ new1
              /\ Forall2 named new1
                   (operations_of http_methods (path, item)))
      as (new1 & Hn1 & Ht1 & Hf1).
    { unfold add_path in E1. unfold operations_of.
      destruct item as [| | | | | |path_item];
        try (injection E1 as <-; exists []; rewrite !app_nil_r;
             by repeat split).
      apply (add_operations_names _ _ _ _ _ _ _ E1). }
    exists (new1 ++ new2). repeat split.
    + by rewrite Hn2, Hn1, app_assoc.
    + by rewrite Ht2, Ht1, app_assoc.
    + unfold discovered. cbn [flat_map]. by apply Forall2_app.
Qed.

End Order.

(** C6, as worded, fails: under one path entry the names do not follow
    the order in which the seven methods are listed, but the order in
    which the runtime iterates the set that holds them; when that
    iteration meets [post] before [get], so do the names. *)
Lemma order_as_worded_fails :
  Permutation post_first written_order
  /\ names_of (build_mcp_server strict_library post_first "pets" pets_doc None)
     = Some ["createPet"; "listPets"]
  /\ names_of (build_mcp_server strict_library written_order "pets" pets_doc None)
     = Some ["listPets"; "createPet"].
Proof.
  split; [apply perm_swap|]. split; vm_compute; reflexivity.
Qed.

(** C6, amended: the tool names returned by a conversion are in
    discovery order: the path entries in the order of the document and,
    under one path entry, the methods in the order in which the runtime
    iterates the set of the seven methods (one order for the whole
    conversion, not necessarily the order in which the source lists
    them); no sorting is applied, and the tools are registered under
    these names in the same order. *)
Theorem tool_names_in_discovery_order (lib : Library)
    (http_methods : list string)
    (spec_name : string) (spec : dict) (base_url_override : option string)
    (mcp : FastMCP) (tool_names : list string) :
  build_mcp_server lib http_methods spec_name spec base_url_override
  = Ok (mcp, tool_names) ->
  Forall2 named tool_names (discovered http_methods (path_entries spec))
  /\ map t_name (mcp_tools mcp) = tool_names.
Proof.
  unfold build_mcp_server, path_entries.
  destruct (resolve_base_url spec base_url_override) as [base_url|e];
    [|discriminate].
  cbn [mbind result_bind].
  destruct (dict_get_or spec "paths" (JDict [])) as [| | | | | |entries];
    try discriminate.
  cbn [mbind result_bind].
  destruct (add_paths lib http_methods base_url ([], []) entries)
    as [acc|e] eqn:Ea; [|discriminate].
  cbn [mbind result_bind]. intros [= <- <-].
  destruct (add_paths_names _ _ _ _ _ _ Ea) as (new & Hn & Ht & Hf).
  cbn [fst snd app map mcp_tools] in *. rewrite Hn, Ht. by split.
Qed.

Lemma tool_names_in_discovery_order_witness :
  Forall2 named ["createPet"; "listPets"]
          (discovered post_first (path_entries pets_doc))
  /\ map t_name
       (mcp_tools
          (Server "pets"
             [Tool "createPet" (JStr EmptyString) []
                (Handler "post" "/pets" [] [] false "https://api.x.com");
              Tool "listPets" (JStr EmptyString) []
                (Handler "get" "/pets" [] [] false "https://api.x.com")]))
     = ["createPet"; "listPets"].
Proof.
  apply (tool_names_in_discovery_order strict_library post_first "pets"
           pets_doc None).
  vm_compute. reflexivity.
Defined.

End OrderFacts.

(** ** The failures of a conversion *)

Module FailureFacts.
Import PyStr Py ReadingEngine Aux Examples.













Section Methods.

Variable lib : Library.
Variable http_methods : list string.












Lemma unless_refused_ok {A} (r : result A) :
  is_ok r = true -> returns_unless_refused lib r.
Proof. by left. Qed.






End Methods.


(** What a library refuses is raised by the conversion: with a library
    that refuses a field name with a leading underscore and a
    description that is not a string, two documents that pass
    validation, have a base URL and are well shaped are not
    converted. *)
Lemma library_refusal_propagates :
  (Loader.validate_openapi_spec underscore_doc = []
   /\ well_shaped written_order underscore_doc = true
   /\ build_mcp_server strict_library written_order "pets" underscore_doc
        None
      = Raise (LibraryError "NameError"))
  /\ (Loader.validate_openapi_spec summary_doc = []
      /\ well_shaped written_order summary_doc = true
      /\ build_mcp_server strict_library written_order "pets" summary_doc
           None
         = Raise (LibraryError "ValidationError")).
Proof. repeat split; vm_compute; reflexivity. Qed.



End FailureFacts.
(** ** The invocation handler and upstream responses *)

Module HandlerFacts.
Import PyStr Py Invoke ReadingHandler Examples.

(** C7, as worded, fails: an upstream error code is not passed through
    as parsed JSON.  A response with status 500 whose content type
    indicates JSON and whose body parses makes the handler return the
    parsed body and nothing else: what it returns is what it returns
    for the same body with status 200, and the code 500 is in neither. *)
Lemma error_code_lost_with_json :
  status_code upstream_500_json = 500%Z
  /\ status_code upstream_200_json = 200%Z
  /\ handler_response upstream_500_json
     = Ok (Parsed (JList [JInt 1; JInt 2]))
  /\ handler_response upstream_500_json = handler_response upstream_200_json.
Proof. repeat split. Qed.

(** C7, amended: for every upstream response the handler returns and
    does not raise, whatever the status code; when the content type
    indicates JSON and the body parses it returns the parsed structure
    alone, the same for every status code, so that an upstream error
    code reaches the caller only if the body itself carries it; when
    the body does not parse, and for every response whose content type
    does not indicate JSON, it returns the fallback made of the text,
    the status code and the content type of the response, and there the
    upstream error code is passed on unchanged. *)
Theorem handler_error_transparency (r : response) :
  (exists out, handler_response r = Ok out)
  /\ (forall data, indicates_json r = true -> json_body r = Ok data ->
                   handler_response r = Ok (Parsed data))
  /\ (forall data code,
        indicates_json r = true -> json_body r = Ok data ->
        handler_response
          (Response code (content_type_header r) (text r) (json_body r))
        = handler_response r)
  /\ (forall e, indicates_json r = true -> json_body r = Raise e ->
                handler_response r = Ok (fallback_of r))
  /\ (indicates_json r = false -> handler_response r = Ok (fallback_of r))
  /\ (forall t s c, handler_response r = Ok (Fallback t s c) ->
                    s = status_code r).
Proof.
  unfold handler_response, indicates_json, fallback_of, try_json.
  cbn [content_type_header json_body text status_code].
  destruct (contains _ _) eqn:Ec; destruct (json_body r) as [data|e];
    repeat split; eauto; try discriminate; try congruence.
Qed.

Lemma handler_error_transparency_witness :
  handler_response upstream_404
  = Ok (Fallback "<h1>Not Found</h1>" 404 "text/html")
  /\ handler_response upstream_500_json
     = Ok (Parsed (JList [JInt 1; JInt 2]))
  /\ handler_response
       (Response 200 (content_type_header upstream_500_json)
          (text upstream_500_json) (json_body upstream_500_json))
     = handler_response upstream_500_json.
Proof.
  split; [|split].
  - apply (proj1 (proj2 (proj2 (proj2 (proj2
             (handler_error_transparency upstream_404)))))).
    reflexivity.
  - apply (proj1 (proj2 (handler_error_transparency upstream_500_json)));
      reflexivity.
  - apply (proj1 (proj2 (proj2
             (handler_error_transparency upstream_500_json)))
             (JList [JInt 1; JInt 2]) 200%Z); reflexivity.
Defined.

End HandlerFacts.

(** ** The dispatcher's 404 answers *)

Module DispatchFacts.
Import PyStr Py Registry Dispatcher ReadingDispatch Examples.

Lemma chars_app (a b : string) :
  to_chars (a +:+ b) = to_chars a ++ to_chars b.
Proof. induction a as [|c a IH]; simpl; [reflexivity | by rewrite IH]. Qed.


Lemma occurs_in_here (p s : chars) : occurs_in p (p ++ s) = true.
Proof.
  assert (starts_with p (p ++ s) = true) as H.
  { induction p as [|c p IH]; [done|]. simpl.
    by rewrite Ascii.eqb_refl, IH. }
  destruct (p ++ s); simpl; simpl in H; by rewrite H.
Qed.

Lemma occurs_in_later (p a s : chars) :
  occurs_in p s = true -> occurs_in p (a ++ s) = true.
Proof.
  intros H. induction a as [|c a IH]; [done|].
  cbn [app occurs_in]. rewrite IH. apply orb_true_r.
Qed.



Section Apps.

Variable App : Type.


End Apps.


End DispatchFacts.

(** ** The registry invariant *)

Module RegistryFacts.
Import Py Registry ControlPlane ReadingRegistry Examples.

Lemma empty_ok {App} : registry_ok (@empty_registry App).
Proof. intros n. unfold name_ok. cbn. by rewrite !lookup_empty. Qed.

Lemma exists_spec {App} (reg : SpecRegistry App) (n : string) :
  exists_ reg n = true <-> is_Some (_specs reg !! n).
Proof. unfold exists_. apply bool_decide_eq_true. Qed.

(** [register] keeps the invariant when the status is a validation
    outcome. *)
Lemma register_ok {App} (reg reg' : SpecRegistry App) (n raw : string)
    (spec : dict) (src : SourceType)
    (o : option string) (st : ValidationStatus) (errs : list string)
    (entry : SpecEntry) :
  st <> PENDING -> registry_ok reg ->
  register reg n raw spec src o st errs = Ok (reg', entry) ->
  registry_ok reg'.
Proof.
  intros Hst Hok. unfold register.
  destruct (exists_ reg n) eqn:Ex; [discriminate|].
  intros [= <- <-] m. unfold name_ok. cbn.
  destruct (decide (n = m)) as [<-|Hne].
  - rewrite lookup_insert_eq. cbn. repeat split; [done..|].
    specialize (Hok n). unfold name_ok in Hok.
    destruct (_specs reg !! n) eqn:E; [|done].
    apply not_true_iff_false in Ex. exfalso. apply Ex.
    apply exists_spec. by rewrite E.
  - rewrite lookup_insert_ne by done. apply Hok.
Qed.

(** [enable] keeps the invariant when the entry is valid. *)
Lemma enable_ok {App} (reg reg' : SpecRegistry App) (n : string)
    (app : App) (names : list string) (entry : SpecEntry) :
  registry_ok reg -> get reg n = Some entry ->
  validation_status entry = VALID ->
  enable reg n app names = Ok reg' -> registry_ok reg'.
Proof.
  intros Hok Hget Hst. unfold enable, get_or_raise. rewrite Hget.
  cbn [mbind result_bind]. intros [= <-] m. unfold name_ok. cbn.
  destruct (decide (n = m)) as [<-|Hne].
  - rewrite !lookup_insert_eq. cbn. split; [done | by eexists].
  - rewrite !lookup_insert_ne by done. apply Hok.
Qed.

Lemma disable_ok {App} (reg reg' : SpecRegistry App) (n : string) :
  registry_ok reg -> disable reg n = Ok reg' -> registry_ok reg'.
Proof.
  intros Hok. unfold disable, get_or_raise, get.
  destruct (_specs reg !! n) as [entry|] eqn:E; [|discriminate].
  cbn [mbind result_bind]. intros [= <-] m. unfold name_ok. cbn.
  destruct (decide (n = m)) as [<-|Hne].
  - rewrite lookup_insert_eq, lookup_delete_eq. cbn.
    repeat split; try done.
    specialize (Hok n). unfold name_ok in Hok. rewrite E in Hok.
    destruct (enabled entry); destruct Hok as [H _]; [by rewrite H | done].
  - rewrite lookup_insert_ne, lookup_delete_ne by done. apply Hok.
Qed.

Lemma delete_ok {App} (reg reg' : SpecRegistry App) (n : string) :
  registry_ok reg -> delete reg n = Ok reg' -> registry_ok reg'.
Proof.
  intros Hok. unfold delete.
  destruct (exists_ reg n); [|discriminate]. cbn [negb].
  destruct (disable reg n) as [reg1|e] eqn:Ed; [|discriminate].
  cbn [mbind result_bind]. intros [= <-] m.
  pose proof (disable_ok _ _ _ Hok Ed m) as H1.
  assert (_mcp_apps reg1 !! n = None) as Hn.
  { revert Ed. unfold disable, get_or_raise, get.
    destruct (_specs reg !! n); [|discriminate].
    cbn [mbind result_bind]. intros [= <-]. cbn. apply lookup_delete_eq. }
  unfold name_ok in *. cbn.
  destruct (decide (n = m)) as [<-|Hne].
  - by rewrite lookup_delete_eq.
  - by rewrite lookup_delete_ne.
Qed.

(** The application is retrievable exactly for an enabled entry. *)
Lemma retrievable_iff {App} (reg : SpecRegistry App) (n : string) :
  name_ok reg n ->
  (is_Some (get_mcp_app reg n)
   <-> exists entry, get reg n = Some entry /\ enabled entry = true).
Proof.
  unfold name_ok, get_mcp_app, get.
  destruct (_specs reg !! n) as [entry|].
  - destruct (enabled entry) eqn:En; cbn [negb].
    + intros [_ Happ]. split; [eauto | done].
    + intros _. split; [by intros [? ?] | by intros (e & [= <-] & ?); congruence].
  - intros _. split; [by intros [? ?] | by intros (e & ? & _)].
Qed.

Section Plane.

Variable lib : Library.
Variable http_methods : list string.
Variable detect_and_parse : string -> result dict.

Lemma apply_ok (reg : registry) (o : op) :
  registry_ok reg -> registry_ok (apply lib http_methods detect_and_parse reg o).
Proof.
  intros Hok. destruct o as [n content ov | n | n | n]; cbn [apply].
  - unfold upload_spec. destruct (exists_ reg n); [done|].
    destruct (Loader.load_from_string detect_and_parse content)
      as [[spec errs]|[]]; try done.
    destruct (register reg n content spec UPLOAD ov _ errs)
      as [[reg' entry]|e] eqn:Er; [|done].
    cbn [fst]. eapply register_ok; [|exact Hok|exact Er].
    by destruct errs.
  - unfold enable_spec. destruct (get reg n) as [entry|] eqn:Eg; [|done].
    destruct (bool_decide (validation_status entry = INVALID)) eqn:Ei;
      [done|].
    destruct (build_mcp_http_app lib http_methods n (parsed_spec entry)
                (base_url_override entry)) as [[app names]|[]]; try done.
    destruct (enable reg n app names) as [reg'|e] eqn:Ee; [|done].
    cbn [fst]. eapply enable_ok; [exact Hok|exact Eg| |exact Ee].
    apply bool_decide_eq_false in Ei.
    specialize (Hok n). unfold name_ok, get in *. rewrite Eg in Hok.
    destruct (enabled entry); [by destruct Hok|].
    destruct Hok as [Hp _]. by destruct (validation_status entry).
  - unfold disable_spec. destruct (disable reg n) as [reg'|[]] eqn:Ed;
      try done.
    cbn [fst]. by eapply disable_ok.
  - unfold delete_spec. destruct (delete reg n) as [reg'|[]] eqn:Ed;
      try done.
    cbn [fst]. by eapply delete_ok.
Qed.

Lemma run_ok (ops : list op) :
  registry_ok (run lib http_methods detect_and_parse ops).
Proof.
  unfold run. generalize (@empty_ok FastMCP).
  generalize (@empty_registry FastMCP).
  induction ops as [|o ops IH]; intros reg Hok; [exact Hok|].
  cbn [fold_left]. apply IH. by apply apply_ok.
Qed.

(** C1: after every sequence of register, enable, disable and delete
    requests and for every registered name, an enabled entry has status
    valid and a sub-application stored in the side table, an entry that
    is not enabled has no tool names and no sub-application stored, and
    a sub-application is retrievable exactly when the entry exists and
    is enabled. *)
Theorem registry_state_invariant (ops : list op) (n : string) :
  let reg := run lib http_methods detect_and_parse ops in
  (forall entry,
     get reg n = Some entry ->
     (enabled entry = true ->
      validation_status entry = VALID /\ is_Some (_mcp_apps reg !! n))
     /\ (enabled entry = false ->
         tool_names entry = [] /\ _mcp_apps reg !! n = None))
  /\ (is_Some (get_mcp_app reg n)
      <-> exists entry, get reg n = Some entry /\ enabled entry = true).
Proof.
  intros reg. pose proof (run_ok ops n) as Hn. fold reg in Hn. split.
  - intros entry Hget. unfold name_ok, get in *. rewrite Hget in Hn.
    destruct (enabled entry); split; try done; intros _; tauto.
  - by apply retrievable_iff.
Qed.

End Plane.

(** The registry on its own does not look at the validation status:
    the control plane's test in [enable_spec] is what keeps an invalid
    entry from being enabled. *)
Lemma registry_enable_unchecked :
  exists reg entry,
    (r ← register (@empty_registry unit) "a" "{}" [] UPLOAD None INVALID
                  ["Missing required field 'openapi'"];
     enable (fst r) "a" tt []) = Ok reg
    /\ get reg "a" = Some entry
    /\ enabled entry = true /\ validation_status entry = INVALID.
Proof.
  eexists _, _. split; [reflexivity|]. split; [vm_compute; reflexivity|].
  split; reflexivity.
Qed.

Lemma registry_state_invariant_witness :
  let reg := run strict_library written_order parse_pets enabled_then_disabled in
  (exists entry,
     get reg "store" = Some entry /\ enabled entry = true
     /\ validation_status entry = VALID
     /\ is_Some (_mcp_apps reg !! "store"))
  /\ (exists entry,
       get reg "pets" = Some entry /\ enabled entry = false
       /\ tool_names entry = [] /\ _mcp_apps reg !! "pets" = None).
Proof.
  intros reg. split.
  - eexists. split; [vm_compute; reflexivity|]. split; [reflexivity|].
    eapply (registry_state_invariant Examples.strict_library written_order parse_pets
              enabled_then_disabled "store");
      [vm_compute; reflexivity | reflexivity].
  - eexists. split; [vm_compute; reflexivity|]. split; [reflexivity|].
    eapply (registry_state_invariant Examples.strict_library written_order parse_pets
              enabled_then_disabled "pets");
      [vm_compute; reflexivity | reflexivity].
Defined.

End RegistryFacts.

(** ** Single start of a lifespan *)

Module LifespanFacts.
Import Lifespan ReadingLifespan Examples.

Lemma boot_wf (names : list string) : wf (boot names).
Proof.
  split; cbn; try done.
  intros i n pc H. rewrite list_lookup_fmap in H.
  destruct (names !! i); [|done]. by injection H as <- <-.
Qed.

Lemma wf_set_caller (w : world) (i : nat) (n : string) (old pc : caller_pc) :
  wf w -> callers w !! i = Some (n, old) -> caller_ok w n pc ->
  wf (set_caller i pc w).
Proof.
  intros [He Hs Ht Htab Hf Hc] Hi Hpc. unfold set_caller. rewrite Hi.
  split; cbn; try done.
  intros j m pc' Hj. destruct (decide (i = j)) as [<-|Hne].
  - rewrite list_lookup_insert_eq in Hj by (by eapply lookup_lt_Some).
    by injection Hj as <- <-.
  - rewrite list_lookup_insert_ne in Hj by done. by apply (Hc j).
Qed.

Lemma wf_set_task (w : world) (t : nat) (n : string) (old pc : task_pc) :
  wf w -> tasks w !! t = Some (n, old) -> signalled pc = signalled old ->
  wf (set_task t pc w).
Proof.
  intros [He Hs Ht Htab Hf Hc] Hold Hsig. unfold set_task. rewrite Hold.
  assert (t < length (tasks w)) as Hlt by (by eapply lookup_lt_Some).
  split; cbn.
  - by rewrite length_insert.
  - intros m t' Hm. destruct (Hs m t' Hm) as [pc' Hpc'].
    destruct (decide (t = t')) as [<-|Hne].
    + rewrite list_lookup_insert_eq by done. rewrite Hold in Hpc'.
      injection Hpc' as <- <-. eauto.
    + rewrite list_lookup_insert_ne by done. eauto.
  - intros t' m pc' Hm. destruct (decide (t = t')) as [<-|Hne].
    + rewrite list_lookup_insert_eq in Hm by done.
      injection Hm as <- <-. by apply (Ht t n old).
    + rewrite list_lookup_insert_ne in Hm by done. by apply (Ht t' m pc').
  - done.
  - intros t' m pc' Hm. destruct (decide (t = t')) as [<-|Hne].
    + rewrite list_lookup_insert_eq in Hm by done.
      injection Hm as <- <-. rewrite Hsig. by apply (Hf t n old).
    + rewrite list_lookup_insert_ne in Hm by done. by apply (Hf t' m pc').
  - intros i m cpc Hi. specialize (Hc i m cpc Hi).
    destruct cpc; cbn in *; try done.
    destruct Hc as (t' & pc' & Ht' & Hs').
    destruct (decide (t = t')) as [<-|Hne].
    + rewrite Hold in Ht'. injection Ht' as <- <-.
      exists t, pc. rewrite list_lookup_insert_eq by done.
      by rewrite Hsig.
    + exists t', pc'. by rewrite list_lookup_insert_ne.
Qed.

(** The task [t] of [n] signals and moves to a place past its
    [set()]. *)
Lemma wf_signal_task (w w' : world) (t : nat) (n : string)
    (old pc : task_pc) :
  wf w -> tasks w !! t = Some (n, old) -> signal n w = Some w' ->
  signalled pc = true -> wf (set_task t pc w').
Proof.
  intros [He Hs Ht Htab Hf Hc] Hold Hsig Hpc.
  assert (t < length (tasks w)) as Hlt by (by eapply lookup_lt_Some).
  unfold signal in Hsig.
  destruct (Htab n t (Ht t n old Hold)) as [_ Hi]. rewrite Hi in Hsig.
  injection Hsig as <-. unfold set_task. cbn. rewrite Hold.
  split; cbn.
  - by rewrite !length_insert.
  - intros m t' Hm. destruct (Hs m t' Hm) as [pc' Hpc'].
    destruct (decide (t = t')) as [<-|Hne].
    + rewrite list_lookup_insert_eq by done. rewrite Hold in Hpc'.
      injection Hpc' as <- <-. eauto.
    + rewrite list_lookup_insert_ne by done. eauto.
  - intros t' m pc' Hm. destruct (decide (t = t')) as [<-|Hne].
    + rewrite list_lookup_insert_eq in Hm by done.
      injection Hm as <- <-. by apply (Ht t n old).
    + rewrite list_lookup_insert_ne in Hm by done. by apply (Ht t' m pc').
  - done.
  - intros t' m pc' Hm. destruct (decide (t = t')) as [<-|Hne].
    + rewrite list_lookup_insert_eq in Hm by done.
      injection Hm as <- <-. rewrite Hpc.
      apply list_lookup_insert_eq. lia.
    + rewrite list_lookup_insert_ne in Hm by done.
      rewrite list_lookup_insert_ne by lia. by apply (Hf t' m pc').
  - intros i m cpc Hi'. specialize (Hc i m cpc Hi').
    destruct cpc; cbn in *; try done.
    destruct Hc as (t' & pc' & Ht' & Hs').
    destruct (decide (t = t')) as [<-|Hne].
    + rewrite Hold in Ht'. injection Ht' as <- <-.
      exists t, pc. by rewrite list_lookup_insert_eq.
    + exists t', pc'. by rewrite list_lookup_insert_ne.
Qed.

Lemma signal_defined (w : world) (t : nat) (n : string) (pc : task_pc) :
  wf w -> tasks w !! t = Some (n, pc) -> is_Some (signal n w).
Proof.
  intros Hw Ht. unfold signal.
  destruct (wf_tables w Hw n t (wf_tasks w Hw t n pc Ht)) as [_ ->].
  by eexists.
Qed.

(** The first call for a name makes its task and its two events. *)
Lemma wf_spawn (w : world) (n : string) :
  wf w -> _started (manager w) !! n = None ->
  wf (World (Manager (<[n := length (tasks w)]> (_started (manager w)))
                     (<[n := length (events w)]>
                        (_cleanup_events (manager w)))
                     (<[n := S (length (events w))]>
                        (_initialized (manager w))))
            (events w ++ [false; false])
            (tasks w ++ [(n, Created)]) (callers w)).
Proof.
  intros [He Hs Ht Htab Hf Hc] Hnew. split; cbn.
  - rewrite !length_app. cbn. lia.
  - intros m t Hm. destruct (decide (n = m)) as [<-|Hne].
    + rewrite lookup_insert_eq in Hm. injection Hm as <-.
      exists Created. by rewrite list_lookup_middle.
    + rewrite lookup_insert_ne in Hm by done.
      destruct (Hs m t Hm) as [pc Hpc]. exists pc.
      by apply lookup_app_l_Some.
  - intros t m pc Hm. apply lookup_app_Some in Hm as [Hm|[Hge Hm]].
    + pose proof (Ht t m pc Hm) as Hst.
      rewrite lookup_insert_ne; [done | congruence].
    + destruct (t - length (tasks w)) as [|k] eqn:Ek; [|done].
      injection Hm as <- <-. rewrite lookup_insert_eq. f_equal. lia.
  - intros m t Hm. destruct (decide (n = m)) as [<-|Hne].
    + rewrite lookup_insert_eq in Hm. injection Hm as <-.
      rewrite !lookup_insert_eq. split; f_equal; lia.
    + rewrite lookup_insert_ne in Hm by done.
      rewrite !lookup_insert_ne by done. by apply Htab.
  - intros t m pc Hm. apply lookup_app_Some in Hm as [Hm|[Hge Hm]].
    + pose proof (Hf t m pc Hm) as Hfl.
      by apply lookup_app_l_Some.
    + destruct (t - length (tasks w)) as [|k] eqn:Ek; [|done].
      injection Hm as <- <-. change (signalled Created) with false.
      match goal with
      | |- (_ ++ _) !! ?k = _ =>
          assert (k = length (events w) + 1) as -> by lia
      end.
      rewrite lookup_app_r by lia.
      assert (length (events w) + 1 - length (events w) = 1) as -> by lia.
      reflexivity.
  - intros i m pc Hi. specialize (Hc i m pc Hi).
    destruct pc; cbn in *; try done.
    + destruct Hc as (t & Hst & ->). exists t. split; [|done].
      rewrite lookup_insert_ne; [done | congruence].
    + destruct Hc as (t & pc' & Htk & Hsg). exists t, pc'.
      split; [|done]. by apply lookup_app_l_Some.
Qed.

Lemma enter_wf (w : world) (i : nat) (n : string) :
  wf w -> callers w !! i = Some (n, Entry) -> wf (enter i n w).
Proof.
  intros Hw Hi. unfold enter.
  destruct (_started (manager w) !! n) as [t|] eqn:Est.
  - destruct (wf_tables w Hw n t Est) as [_ ->].
    eapply wf_set_caller; [done..|]. cbn. eauto.
  - eapply wf_set_caller; [by apply wf_spawn | exact Hi |].
    cbn. exists (length (tasks w)). rewrite lookup_insert_eq.
    split; [done|]. pose proof (wf_events w Hw). lia.
Qed.

Lemma exec_wf (l : label) (w w' : world) :
  wf w -> exec l w = Some w' -> wf w'.
Proof.
  intros Hw. destruct l as [i|t|t|t|t|t]; cbn [exec].
  - destruct (callers w !! i) as [[n [|e| |]]|] eqn:Hi; try done.
    + intros [= <-]. by apply enter_wf.
    + destruct (events w !! e) as [[|]|] eqn:Hev; try done.
      intros [= <-]. eapply wf_set_caller; [done..|].
      pose proof (wf_callers w Hw i n _ Hi) as (t & Hst & ->).
      destruct (wf_started w Hw n t Hst) as [pc Hpc].
      pose proof (wf_flags w Hw t n pc Hpc) as Hfl.
      rewrite Hfl in Hev. injection Hev as Hsg. cbn. eauto.
  - destruct (tasks w !! t) as [[n []]|] eqn:Htk; try done.
    intros [= <-]. by eapply wf_set_task.
  - destruct (tasks w !! t) as [[n []]|] eqn:Htk; try done.
    destruct (signal_defined w t n _ Hw Htk) as [w1 Hs1]. rewrite Hs1.
    destruct (_cleanup_events (manager w1) !! n);
      intros [= <-]; by eapply wf_signal_task.
  - destruct (tasks w !! t) as [[n []]|] eqn:Htk; try done.
    intros [= <-]. unfold handle_failure.
    destruct (signal_defined w t n _ Hw Htk) as [w1 Hs1]. rewrite Hs1.
    by eapply wf_signal_task.
  - destruct (tasks w !! t) as [[n [| |c|]]|] eqn:Htk; try done.
    destruct (events w !! c) as [[|]|]; try done.
    intros [= <-]. by eapply wf_set_task.
  - destruct (tasks w !! t) as [[n [| |c|]]|] eqn:Htk; try done.
    destruct (events w !! c) as [[|]|]; try done.
    intros [= <-]. unfold handle_failure.
    destruct (signal_defined w t n _ Hw Htk) as [w1 Hs1]. rewrite Hs1.
    by eapply wf_signal_task.
Qed.

Lemma run_wf (schedule : list label) (w w' : world) :
  wf w -> run schedule w = Some w' -> wf w'.
Proof.
  revert w. induction schedule as [|l schedule IH]; intros w Hw.
  - by intros [= <-].
  - cbn [run]. destruct (exec l w) as [w1|] eqn:E; [|done].
    apply IH. by eapply exec_wf.
Qed.

(** In a list in which at most one index carries the name, the tasks of
    that name are at most one. *)
Lemma tasks_of_unique (l : list (string * task_pc)) (n : string) :
  (forall i j x y, l !! i = Some (n, x) -> l !! j = Some (n, y) -> i = j) ->
  (length (List.filter (fun t => bool_decide (fst t = n)) l) <= 1)%nat
  /\ (forall i pc, l !! i = Some (n, pc) ->
        snd <$> List.filter (fun t => bool_decide (fst t = n)) l = [pc]).
Proof.
  induction l as [|[m pc0] l IH]; intros Huniq.
  - split; [cbn; lia | intros i pc H; by rewrite lookup_nil in H].
  - assert (forall i j x y, l !! i = Some (n, x) -> l !! j = Some (n, y) ->
                            i = j) as Huniq'.
    { intros i j x y Hi Hj.
      specialize (Huniq (S i) (S j) x y Hi Hj). lia. }
    destruct (IH Huniq') as [IHlen IHone].
    cbn [List.filter fst]. destruct (decide (m = n)) as [->|Hne].
    + rewrite bool_decide_eq_true_2 by done.
      assert (List.filter (fun t => bool_decide (fst t = n)) l = []) as Hnil.
      { destruct (List.filter _ l) as [|[m' pc'] r] eqn:Ef; [done|].
        assert (In (m', pc') (List.filter
                  (fun t => bool_decide (fst t = n)) l)) as Hin
          by (rewrite Ef; by left).
        apply filter_In in Hin as [Hin Hm'].
        apply bool_decide_eq_true in Hm'. cbn in Hm'. subst m'.
        apply list_elem_of_In, list_elem_of_lookup in Hin as [j Hj].
        specialize (Huniq 0 (S j) pc0 pc' eq_refl Hj). lia. }
      rewrite Hnil. split; [cbn; lia|].
      intros [|i] pc H.
      * by injection H as <-.
      * specialize (Huniq 0 (S i) pc0 pc eq_refl H). lia.
    + rewrite bool_decide_eq_false_2 by done. split; [done|].
      intros [|i] pc H; [by injection H as -> |]. by apply (IHone i).
Qed.


(** C10: whatever the interleaving of N concurrent calls of
    [ensure_started] on a fresh manager, at most one background startup
    sequence is ever made for a name, exactly one once a call for that
    name has passed its entry, and a call for the name has returned only
    if that one sequence has gone past signalling "initialized". *)
Theorem ensure_started_single_start (names : list string)
    (schedule : list label) (w : world) (name : string) :
  run schedule (boot names) = Some w ->
  (length (tasks_of name w) <= 1)%nat
  /\ (forall i pc, callers w !! i = Some (name, pc) -> pc <> Entry ->
                   length (tasks_of name w) = 1%nat)
  /\ (forall i, callers w !! i = Some (name, Returned) ->
                exists pc, tasks_of name w = [pc] /\ signalled pc = true).
Proof.
  intros Hrun. pose proof (run_wf _ _ _ (boot_wf names) Hrun) as Hw.
  assert (forall i j x y, tasks w !! i = Some (name, x) ->
                          tasks w !! j = Some (name, y) -> i = j) as Huniq.
  { intros i j x y Hi Hj.
    pose proof (wf_tasks w Hw i name x Hi) as H1.
    pose proof (wf_tasks w Hw j name y Hj) as H2. congruence. }
  destruct (tasks_of_unique (tasks w) name Huniq) as [Hlen Hone].
  unfold tasks_of. split; [by rewrite length_fmap|]. split.
  - intros i pc Hi Hpc.
    pose proof (wf_callers w Hw i name pc Hi) as Hok.
    assert (exists t pc', tasks w !! t = Some (name, pc')) as (t & pc' & Ht).
    { destruct pc; cbn in Hok; try done.
      - destruct Hok as (t & Hst & _).
        destruct (wf_started w Hw name t Hst) as [pc' ?]. eauto.
      - destruct Hok as (t & pc' & ? & _). eauto. }
    by rewrite (Hone t pc' Ht).
  - intros i Hi.
    pose proof (wf_callers w Hw i name Returned Hi) as (t & pc' & Ht & Hs).
    exists pc'. by rewrite (Hone t pc' Ht).
Qed.

Lemma ensure_started_single_start_witness :
  callers after_three_calls
  = [("a", Returned); ("a", Returned); ("a", Returned)]
  /\ exists pc, tasks_of "a" after_three_calls = [pc]
                /\ signalled pc = true.
Proof.
  split; [vm_compute; reflexivity|].
  apply (ensure_started_single_start ["a"; "a"; "a"] three_calls
           after_three_calls "a") with (i := 0).
  - vm_compute. reflexivity.
  - vm_compute. reflexivity.
Defined.

End LifespanFacts.

(** ** Further properties: the shape of tool names *)

Module NameFacts.
Import PyStr Py Reading Convert Aux StrFacts ToolNameFacts More.
Import UrlFacts DispatchFacts.

(** No piece of a split contains a separator. *)
Lemma split_on_pieces (p : ascii -> bool) (s : chars) :
  Forall (fun w => forallb (fun c => negb (p c)) w = true) (split_on p s).
Proof.
  induction s as [|x s IH]; simpl.
  - repeat constructor.
  - destruct (p x) eqn:E.
    + constructor; [reflexivity | exact IH].
    + destruct (split_on p s) as [|w ws].
      * repeat constructor. simpl. by rewrite E.
      * inversion IH; subst. constructor; [|assumption].
        simpl. rewrite E. simpl. assumption.
Qed.

(** The words of a text are not empty and alphanumeric. *)
Lemma alnum_words_spec (s : chars) :
  Forall (fun w => nonblank w = true /\ forallb is_alnum w = true)
         (alnum_words s).
Proof.
  unfold alnum_words. apply List.Forall_forall. intros w Hw.
  apply List.filter_In in Hw. destruct Hw as [Hin Hne].
  split; [exact Hne|].
  pose proof (split_on_pieces (fun c => negb (is_alnum c)) s) as HF.
  rewrite List.Forall_forall in HF. specialize (HF w Hin).
  clear -HF. induction w as [|c w IH]; [reflexivity|].
  simpl in *. apply andb_true_iff in HF. destruct HF as [Hc Hw].
  rewrite negb_involutive in Hc. rewrite Hc. simpl. by apply IH.
Qed.

Lemma alnum_not_underscore (c : ascii) :
  is_alnum c = true -> Ascii.eqb underscore c = false.
Proof.
  intros H. destruct (Ascii.eqb underscore c) eqn:E; [|reflexivity].
  apply Ascii.eqb_eq in E. subst c. discriminate H.
Qed.

Lemma alnum_ident (c : ascii) : is_alnum c = true -> is_ident_char c = true.
Proof. apply sub_non_ident_class. Qed.

Lemma join_words_ident (ws : list chars) :
  Forall (fun w => nonblank w = true /\ forallb is_alnum w = true) ws ->
  forallb is_ident_char (join_chars underscore ws) = true.
Proof.
  induction 1 as [|w r [_ Hw] _ IH]; [reflexivity|].
  rewrite join_cons. rewrite forallb_app. apply andb_true_iff. split.
  - clear -Hw. induction w as [|c w IHw]; [reflexivity|].
    simpl in *. apply andb_true_iff in Hw. destruct Hw as [Hc Hw].
    rewrite (alnum_ident c Hc). simpl. by apply IHw.
  - destruct r as [|w' r']; [reflexivity|].
    change (join_rest underscore (w' :: r'))
      with (underscore :: join_chars underscore (w' :: r')).
    cbn [forallb]. rewrite IH. reflexivity.
Qed.

Lemma join_words_head (ws : list chars) :
  Forall (fun w => nonblank w = true /\ forallb is_alnum w = true) ws ->
  starts_with [underscore] (join_chars underscore ws) = false.
Proof.
  destruct 1 as [|w r [Hne Hw] _]; [reflexivity|].
  rewrite join_cons. destruct w as [|c w]; [discriminate Hne|].
  simpl in Hw. apply andb_true_iff in Hw. destruct Hw as [Hc _].
  cbn [app starts_with]. by rewrite (alnum_not_underscore c Hc).
Qed.

Lemma join_words_last (ws : list chars) :
  Forall (fun w => nonblank w = true /\ forallb is_alnum w = true) ws ->
  ws <> [] ->
  exists pre x, join_chars underscore ws = pre ++ [x] /\ is_alnum x = true.
Proof.
  induction 1 as [|w r [Hne Hw] Hr IH]; [done|]. intros _.
  destruct r as [|w' r'].
  - assert (exists pre x, w = pre ++ [x]) as (pre & x & ->).
    { destruct w as [|c w _] using rev_ind; [discriminate Hne|].
      by exists w, c. }
    exists pre, x. split; [reflexivity|].
    rewrite forallb_app in Hw. apply andb_true_iff in Hw.
    destruct Hw as [_ Hx]. simpl in Hx. by rewrite andb_true_r in Hx.
  - destruct IH as (pre & x & E & Hx); [done|].
    exists (w ++ underscore :: pre), x. split; [|exact Hx].
    rewrite join_cons.
    change (join_rest underscore (w' :: r'))
      with (underscore :: join_chars underscore (w' :: r')).
    rewrite E. by rewrite <- app_assoc.
Qed.

Lemma join_words_tail (ws : list chars) :
  Forall (fun w => nonblank w = true /\ forallb is_alnum w = true) ws ->
  starts_with [underscore] (rev (join_chars underscore ws)) = false.
Proof.
  intros HW. destruct ws as [|w r] eqn:E; [reflexivity|]. rewrite <- E in *.
  destruct (join_words_last ws HW) as (pre & x & -> & Hx); [by rewrite E|].
  rewrite rev_app_distr. cbn [rev app starts_with].
  by rewrite (alnum_not_underscore x Hx).
Qed.

Lemma occurs_after_alnum (w t : chars) :
  forallb is_alnum w = true ->
  occurs_in double_underscore (w ++ t) = occurs_in double_underscore t.
Proof.
  induction w as [|c w IH]; [reflexivity|]. intros H.
  simpl in H. apply andb_true_iff in H. destruct H as [Hc Hw].
  cbn [app]. cbn [occurs_in]. rewrite (IH Hw).
  unfold double_underscore at 1. cbn [starts_with].
  by rewrite (alnum_not_underscore c Hc).
Qed.

Lemma join_words_single (ws : list chars) :
  Forall (fun w => nonblank w = true /\ forallb is_alnum w = true) ws ->
  occurs_in double_underscore (join_chars underscore ws) = false.
Proof.
  induction 1 as [|w r [Hne Hw] Hr IH]; [reflexivity|].
  rewrite join_cons. rewrite (occurs_after_alnum _ _ Hw).
  destruct r as [|w' r']; [reflexivity|].
  change (join_rest underscore (w' :: r'))
    with (underscore :: join_chars underscore (w' :: r')).
  cbn [occurs_in]. rewrite IH. rewrite orb_false_r.
  unfold double_underscore. cbn [starts_with].
  change (Ascii.eqb underscore underscore) with true. cbn [andb].
  exact (join_words_head _ Hr).
Qed.

(** A text without an opening brace has no placeholder. *)
Lemma sub_placeholders_plain (s : chars) :
  forallb (fun c => negb (Ascii.eqb c lbrace)) s = true ->
  sub_placeholders None s = s.
Proof.
  induction s as [|c s IH]; [reflexivity|]. intros H.
  simpl in H. apply andb_true_iff in H. destruct H as [Hc Hs].
  simpl. apply negb_true_iff in Hc. rewrite Hc. by rewrite IH.
Qed.

(** Splitting a joined list of words gives the words back. *)
Lemma split_join_words (p : ascii -> bool) (sep : ascii) (ws : list chars) :
  p sep = true -> ws <> [] ->
  Forall (fun w => forallb (fun c => negb (p c)) w = true) ws ->
  split_on p (join_chars sep ws) = ws.
Proof.
  intros Hsep Hne HF. induction HF as [|w r Hw Hr IH]; [done|].
  rewrite join_cons. destruct r as [|w' r'].
  - simpl. rewrite app_nil_r. clear -Hw.
    induction w as [|c w IHw]; [reflexivity|].
    simpl in Hw. apply andb_true_iff in Hw. destruct Hw as [Hc Hw].
    rewrite split_on_cons. apply negb_true_iff in Hc. rewrite Hc.
    by rewrite (IHw Hw).
  - change (join_rest sep (w' :: r'))
      with (sep :: join_chars sep (w' :: r')).
    assert (split_on p (join_chars sep (w' :: r')) = w' :: r') as E
      by (by apply IH).
    clear IH Hne. induction w as [|c w IHw].
    + cbn [app]. rewrite split_on_cons, Hsep. by rewrite E.
    + simpl in Hw. apply andb_true_iff in Hw. destruct Hw as [Hc Hw].
      cbn [app]. rewrite split_on_cons. apply negb_true_iff in Hc.
      rewrite Hc. by rewrite (IHw Hw).
Qed.

Lemma filter_words (ws : list chars) :
  Forall (fun w => nonblank w = true /\ forallb is_alnum w = true) ws ->
  List.filter (fun w => negb (Nat.eqb (length w) 0)) ws = ws.
Proof.
  induction 1 as [|w r [Hne _] _ IH]; [reflexivity|].
  simpl. unfold nonblank in Hne. rewrite Hne. by rewrite IH.
Qed.

Lemma sanitized_single_underscores (name : string) :
  contains (sanitize_tool_name name) "__" = false.
Proof.
  rewrite sanitize_words. unfold words_joined, contains. rewrite to_of_chars.
  apply join_words_single. apply alnum_words_spec.
Qed.

(** X1: a sanitised name consists of ASCII letters, digits and
    underscores; it neither starts nor ends with an underscore and has
    no two underscores in a row. *)
Theorem sanitized_name_shape (name : string) :
  forallb is_ident_char (to_chars (sanitize_tool_name name)) = true
  /\ startswith (sanitize_tool_name name) "_" = false
  /\ endswith (sanitize_tool_name name) "_" = false
  /\ contains (sanitize_tool_name name) "__" = false.
Proof.
  rewrite sanitize_words. unfold words_joined, startswith, endswith, contains.
  rewrite to_of_chars.
  pose proof (alnum_words_spec (sub_placeholders None (to_chars name))) as HW.
  split; [by apply join_words_ident|].
  split; [by apply join_words_head|].
  split; [by apply join_words_tail|].
  by apply join_words_single.
Qed.

(** X2: sanitising is idempotent: a sanitised name is left as it is. *)
Theorem sanitize_idempotent (name : string) :
  sanitize_tool_name (sanitize_tool_name name) = sanitize_tool_name name.
Proof.
  rewrite (sanitize_words (sanitize_tool_name name)).
  rewrite (sanitize_words name).
  unfold words_joined at 1. unfold words_joined at 1. rewrite to_of_chars.
  set (ws := alnum_words (sub_placeholders None (to_chars name))).
  pose proof (alnum_words_spec (sub_placeholders None (to_chars name))) as HW.
  fold ws in HW. unfold words_joined. fold ws. f_equal.
  destruct ws as [|w r] eqn:E; [reflexivity|]. rewrite <- E in *.
  assert (Hne : ws <> []) by (by rewrite E).
  rewrite sub_placeholders_plain.
  - unfold alnum_words. rewrite split_join_words.
    + by rewrite filter_words.
    + reflexivity.
    + exact Hne.
    + eapply Forall_impl; [exact HW|]. intros a [_ Ha]. clear -Ha.
      induction a as [|c a IH]; [reflexivity|].
      simpl in *. apply andb_true_iff in Ha. destruct Ha as [Hc Ha].
      rewrite Hc. simpl. by apply IH.
  - pose proof (join_words_ident ws HW) as Hi. clear -Hi.
    induction (join_chars underscore ws) as [|c l IH]; [reflexivity|].
    simpl in *. apply andb_true_iff in Hi. destruct Hi as [Hc Hl].
    rewrite (IH Hl). rewrite andb_true_r. apply negb_true_iff.
    destruct (Ascii.eqb c lbrace) eqn:Ec; [|reflexivity].
    apply Ascii.eqb_eq in Ec. subst c. discriminate Hc.
Qed.

(** X3: a name made from the method and the path is never the name
    made from an operation identifier: the former contains two
    underscores in a row, the latter does not. *)
Theorem synthesized_names_apart (method path method' path' : string)
    (operation_id operation_id' : json) (tool_name : string) :
  truthy operation_id = false ->
  truthy operation_id' = true ->
  generate_tool_name method path operation_id = Ok tool_name ->
  contains tool_name "__" = true
  /\ generate_tool_name method' path' operation_id' <> Ok tool_name.
Proof.
  intros Hf Ht E. unfold generate_tool_name in *. rewrite Hf in E.
  rewrite Ht. injection E as <-.
  assert (Hc : contains (upper method +:+ "__" +:+ sanitize_tool_name path)
                        "__" = true).
  { unfold contains. rewrite !to_chars_app. apply occurs_in_later.
    apply (occurs_in_here (to_chars "__")). }
  split; [exact Hc|].
  destruct operation_id'; try discriminate. intros E. injection E as E.
  rewrite <- E in Hc.
  pose proof (sanitized_single_underscores s) as Hn. congruence.
Qed.

Lemma synthesized_names_apart_witness :
  contains "GET__pets" "__" = true
  /\ generate_tool_name "get" "/pets" (JStr "GET__pets") <> Ok "GET__pets".
Proof.
  apply (synthesized_names_apart "get" "/pets" "get" "/pets" JNull
           (JStr "GET__pets") "GET__pets"); reflexivity.
Defined.

End NameFacts.

(** ** Further properties: the conversion *)

Module ConvertFacts.
Import PyStr Py ReadingEngine Aux More Invoke OrderFacts MergeFacts.

(** *** The loops as a gathering of independent rounds *)

Lemma gather_app {A} (one : A -> result (list tool * list string))
    (l1 l2 : list A) :
  gather one (l1 ++ l2)
  = (r ← gather one l1; r' ← gather one l2;
     Ok (fst r ++ fst r', snd r ++ snd r')).
Proof.
  induction l1 as [|x l1 IH]; cbn [app gather].
  - destruct (gather one l2) as [[ts ns]|e]; reflexivity.
  - destruct (one x) as [[ts ns]|e]; cbn [mbind result_bind]; [|reflexivity].
    rewrite IH.
    destruct (gather one l1) as [[ts1 ns1]|e]; cbn [mbind result_bind];
      [|reflexivity].
    destruct (gather one l2) as [[ts2 ns2]|e]; cbn [mbind result_bind];
      [|reflexivity].
    cbn [fst snd]. by rewrite !app_assoc.
Qed.

(** A gathering over a permuted list succeeds as well and gives the
    same tools and names up to their order. *)
Lemma gather_perm {A} (one : A -> result (list tool * list string))
    (l l' : list A) :
  Permutation l l' ->
  forall r, gather one l = Ok r ->
  exists r', gather one l' = Ok r'
             /\ Permutation (fst r) (fst r')
             /\ Permutation (snd r) (snd r').
Proof.
  induction 1 as [|x l l' HP IH|x y l|l l' l'' HP1 IH1 HP2 IH2]; intros r.
  - intros [= <-]. by exists ([], []).
  - cbn [gather]. destruct (one x) as [[ts ns]|e]; [|discriminate].
    cbn [mbind result_bind].
    destruct (gather one l) as [r1|e] eqn:E; [|discriminate].
    cbn [mbind result_bind]. intros [= <-].
    destruct (IH _ eq_refl) as (r1' & -> & P1 & P2).
    cbn [mbind result_bind]. eexists. split; [reflexivity|].
    cbn [fst snd]. split; by apply Permutation_app_head.
  - cbn [gather].
    destruct (one y) as [[tsy nsy]|e]; [|discriminate].
    cbn [mbind result_bind].
    destruct (one x) as [[tsx nsx]|e]; [|discriminate].
    cbn [mbind result_bind].
    destruct (gather one l) as [[ts ns]|e]; [|discriminate].
    cbn [mbind result_bind fst snd]. intros [= <-].
    eexists. split; [reflexivity|]. cbn [fst snd].
    rewrite !app_assoc.
    split; apply Permutation_app_tail, Permutation_app_comm.
  - intros E. destruct (IH1 _ E) as (r1 & E1 & P1 & P2).
    destruct (IH2 _ E1) as (r2 & E2 & Q1 & Q2).
    exists r2. split; [exact E2|]. split; etrans; eauto.
Qed.

(** Two gatherings whose rounds agree up to order. *)
Lemma gather_ext {A} (one one' : A -> result (list tool * list string))
    (l : list A) :
  (forall x r, one x = Ok r ->
     exists r', one' x = Ok r'
                /\ Permutation (fst r) (fst r')
                /\ Permutation (snd r) (snd r')) ->
  forall r, gather one l = Ok r ->
  exists r', gather one' l = Ok r'
             /\ Permutation (fst r) (fst r')
             /\ Permutation (snd r) (snd r').
Proof.
  intros Hone. induction l as [|x l IH]; intros r.
  - intros [= <-]. by exists ([], []).
  - cbn [gather]. destruct (one x) as [r1|e] eqn:E1; [|discriminate].
    cbn [mbind result_bind].
    destruct (gather one l) as [r2|e]; [|discriminate].
    cbn [mbind result_bind]. intros [= <-].
    destruct (Hone _ _ E1) as (r1' & -> & P1 & P2).
    destruct (IH _ eq_refl) as (r2' & -> & Q1 & Q2).
    cbn [mbind result_bind]. eexists. split; [reflexivity|].
    cbn [fst snd]. split; by apply Permutation_app.
Qed.

Lemma gather_Forall2 {A B C} (one : A -> result (list tool * list string))
    (pick : list tool * list string -> list C)
    (R : C -> B -> Prop) (f : A -> list B) (l : list A) :
  pick ([], []) = [] ->
  (forall a b, pick (fst a ++ fst b, snd a ++ snd b) = pick a ++ pick b) ->
  (forall x r, one x = Ok r -> Forall2 R (pick r) (f x)) ->
  forall r, gather one l = Ok r -> Forall2 R (pick r) (flat_map f l).
Proof.
  intros Hnil Happ Hone. induction l as [|x l IH]; intros r.
  - intros [= <-]. rewrite Hnil. constructor.
  - cbn [gather]. destruct (one x) as [r1|e] eqn:E1; [|discriminate].
    cbn [mbind result_bind].
    destruct (gather one l) as [r2|e]; [|discriminate].
    cbn [mbind result_bind]. intros [= <-].
    rewrite Happ. cbn [flat_map]. apply Forall2_app; eauto.
Qed.

Section Rounds.

Variable lib : Library.
Variable http_methods : list string.
Variable base_url : string.

(** A round of the loop over the methods only appends to what has been
    gathered. *)
Lemma add_operation_acc (path : string) (path_item : dict) (plp : json)
    (acc : list tool * list string) (method : string) :
  add_operation lib base_url path path_item plp acc method
  = (r ← add_operation lib base_url path path_item plp ([], []) method;
     Ok (fst acc ++ fst r, snd acc ++ snd r)).
Proof.
  destruct acc as [tools names]. unfold add_operation.
  destruct (dict_get path_item method) as [[| | | | | |operation]|];
    cbn [mbind result_bind fst snd]; rewrite ?app_nil_r; try reflexivity.
  repeat match goal with
         | |- context [@mbind result _ _ _ _ ?x] =>
             destruct x; cbn [mbind result_bind]; try reflexivity
         end.
Qed.

Lemma add_operations_gather (path : string) (path_item : dict) (plp : json)
    (methods : list string) (acc : list tool * list string) :
  add_operations lib base_url path path_item plp acc methods
  = (r ← gather (add_operation lib base_url path path_item plp ([], []))
                methods;
     Ok (fst acc ++ fst r, snd acc ++ snd r)).
Proof.
  revert acc. induction methods as [|m methods IH]; intros acc.
  - destruct acc. cbn. by rewrite !app_nil_r.
  - cbn [add_operations gather]. rewrite add_operation_acc.
    destruct (add_operation lib base_url path path_item plp ([], []) m)
      as [r1|e]; cbn [mbind result_bind]; [|reflexivity].
    rewrite IH.
    destruct (gather _ methods) as [r2|e]; cbn [mbind result_bind];
      [|reflexivity].
    cbn [fst snd]. by rewrite !app_assoc.
Qed.

Lemma add_path_acc (acc : list tool * list string) (entry : string * json) :
  add_path lib http_methods base_url acc entry
  = (r ← add_path lib http_methods base_url ([], []) entry;
     Ok (fst acc ++ fst r, snd acc ++ snd r)).
Proof.
  destruct entry as [path item]. unfold add_path.
  destruct item; cbn [mbind result_bind fst snd]; rewrite ?app_nil_r;
    try (by destruct acc).
  rewrite (add_operations_gather _ _ _ _ acc).
  rewrite (add_operations_gather _ _ _ _ ([], [])).
  destruct (gather _ http_methods) as [r|e]; reflexivity.
Qed.

Lemma add_paths_gather (entries : list (string * json))
    (acc : list tool * list string) :
  add_paths lib http_methods base_url acc entries
  = (r ← gather (add_path lib http_methods base_url ([], [])) entries;
     Ok (fst acc ++ fst r, snd acc ++ snd r)).
Proof.
  revert acc. induction entries as [|e entries IH]; intros acc.
  - destruct acc. cbn. by rewrite !app_nil_r.
  - cbn [add_paths gather]. rewrite add_path_acc.
    destruct (add_path lib http_methods base_url ([], []) e) as [r1|x];
      cbn [mbind result_bind]; [|reflexivity].
    rewrite IH.
    destruct (gather _ entries) as [r2|x]; cbn [mbind result_bind];
      [|reflexivity].
    cbn [fst snd]. by rewrite !app_assoc.
Qed.

(** What one round gives: nothing, or the tool of the operation found
    under the method. *)
Lemma add_operation_one (path : string) (path_item : dict) (plp : json)
    (method : string) (r : list tool * list string) :
  add_operation lib base_url path path_item plp ([], []) method = Ok r ->
  snd r = map t_name (fst r)
  /\ Forall2 (bound_to base_url) (fst r) (operation_of path path_item method).
Proof.
  unfold add_operation, operation_of.
  destruct (dict_get path_item method) as [[| | | | | |operation]|];
    try (intros [= <-]; split; [reflexivity | constructor]).
  destruct (generate_tool_name method path
              (dict_get_or operation "operationId" JNull))
    as [tool_name|e] eqn:En; [|discriminate].
  cbn [mbind result_bind].
  repeat match goal with
         | |- context [@mbind result _ _ _ _ ?x] =>
             destruct x; cbn [mbind result_bind]; [|discriminate]
         end.
  intros [= <-]. cbn [fst snd app map]. split; [reflexivity|].
  constructor; [|constructor]. by repeat split.
Qed.

Lemma add_path_gather (path : string) (path_item : dict) :
  add_path lib http_methods base_url ([], []) (path, JDict path_item)
  = gather (add_operation lib base_url path path_item
              (dict_get_or path_item "parameters" (JList [])) ([], []))
           http_methods.
Proof.
  unfold add_path. rewrite add_operations_gather.
  destruct (gather _ http_methods) as [[ts ns]|e]; reflexivity.
Qed.

Lemma add_path_one (entry : string * json) (r : list tool * list string) :
  add_path lib http_methods base_url ([], []) entry = Ok r ->
  Forall2 (bound_to base_url) (fst r) (operations_of http_methods entry).
Proof.
  destruct entry as [path item].
  destruct item as [| | | | | |path_item];
    try (intros [= <-]; constructor).
  rewrite add_path_gather.
  apply (gather_Forall2 _ fst (bound_to base_url)
           (operation_of path path_item)); [done | done |].
  intros m r1 E. by apply add_operation_one in E as [_ ?].
Qed.

End Rounds.

(** The conversion as a gathering over the paths. *)
Lemma build_mcp_server_gather (lib : Library)
    (http_methods : list string)
    (spec_name : string) (spec : dict) (o : option string) :
  build_mcp_server lib http_methods spec_name spec o
  = (base_url ← resolve_base_url spec o;
     entries ← match dict_get_or spec "paths" (JDict []) with
               | JDict d => Ok d
               | _ => Raise AttributeError
               end;
     r ← gather (add_path lib http_methods base_url ([], [])) entries;
     Ok (Server spec_name (fst r), snd r)).
Proof.
  unfold build_mcp_server.
  destruct (resolve_base_url spec o) as [u|e]; cbn [mbind result_bind];
    [|reflexivity].
  destruct (dict_get_or spec "paths" (JDict [])); cbn [mbind result_bind];
    try reflexivity.
  rewrite add_paths_gather.
  by destruct (gather _ d) as [[ts ns]|e].
Qed.

Lemma build_mcp_server_inv (lib : Library)
    (http_methods : list string)
    (spec_name : string) (spec : dict) (base_url_override : option string)
    (mcp : FastMCP) (tool_names : list string) :
  build_mcp_server lib http_methods spec_name spec base_url_override
  = Ok (mcp, tool_names) ->
  exists base_url r,
    resolve_base_url spec base_url_override = Ok base_url
    /\ gather (add_path lib http_methods base_url ([], [])) (path_entries spec)
       = Ok r
    /\ mcp = Server spec_name (fst r) /\ tool_names = snd r.
Proof.
  rewrite build_mcp_server_gather. unfold path_entries.
  destruct (resolve_base_url spec base_url_override) as [u|e];
    [|discriminate].
  cbn [mbind result_bind].
  destruct (dict_get_or spec "paths" (JDict [])) as [| | | | | |entries];
    try discriminate.
  cbn [mbind result_bind].
  destruct (gather _ entries) as [r|e] eqn:E; [|discriminate].
  cbn [mbind result_bind]. intros [= <- <-]. by exists u, r.
Qed.

Lemma build_mcp_server_names (lib : Library) (http_methods : list string)
    (spec_name : string) (spec : dict) (o : option string)
    (mcp : FastMCP) (tool_names : list string) :
  build_mcp_server lib http_methods spec_name spec o = Ok (mcp, tool_names) ->
  map t_name (mcp_tools mcp) = tool_names.
Proof.
  unfold build_mcp_server.
  destruct (resolve_base_url spec o) as [u|e]; [|discriminate].
  cbn [mbind result_bind].
  destruct (dict_get_or spec "paths" (JDict [])) as [| | | | | |entries];
    try discriminate.
  cbn [mbind result_bind].
  destruct (add_paths lib http_methods u ([], []) entries) as [acc|e] eqn:Ea;
    [|discriminate].
  cbn [mbind result_bind]. intros [= <- <-].
  destruct (add_paths_names _ _ _ _ _ _ Ea) as (new & Hn & Ht & _).
  cbn [mcp_tools]. by rewrite Ht, Hn.
Qed.

(** *** The table of the server *)

Lemma table_get_set (table : list tool) (t : tool) (n : string) :
  table_get (table_set table t) n
  = if String.eqb (t_name t) n then Some t else table_get table n.
Proof.
  unfold table_get. induction table as [|t' table IH]; cbn [table_set find].
  - reflexivity.
  - destruct (String.eqb (t_name t') (t_name t)) eqn:E; cbn [find].
    + apply String.eqb_eq in E. rewrite E.
      by destruct (String.eqb (t_name t) n).
    + rewrite IH. destruct (String.eqb (t_name t') n) eqn:E';
        [|reflexivity].
      apply String.eqb_eq in E' as <-.
      by rewrite String.eqb_sym, E.
Qed.

Lemma last_named_from (n : string) (l : list tool) (init : option tool) :
  fold_left (fun acc t => if String.eqb (t_name t) n then Some t else acc)
            l init
  = match last_named n l with
    | Some t => Some t
    | None => init
    end.
Proof.
  unfold last_named. revert init.
  induction l as [|t l IH]; intros init; [reflexivity|].
  cbn [fold_left]. rewrite IH.
  rewrite (IH (if String.eqb (t_name t) n then Some t else None)).
  destruct (fold_left _ l None); [reflexivity|].
  by destruct (String.eqb (t_name t) n).
Qed.

Lemma table_get_fold (l table : list tool) (n : string) :
  table_get (fold_left table_set l table) n
  = match last_named n l with
    | Some t => Some t
    | None => table_get table n
    end.
Proof.
  revert table. induction l as [|t l IH]; intros table; [reflexivity|].
  cbn [fold_left]. rewrite IH, table_get_set.
  unfold last_named at 2. cbn [fold_left]. rewrite last_named_from.
  destruct (last_named n l); [reflexivity|].
  by destruct (String.eqb (t_name t) n).
Qed.

Lemma table_set_names (table : list tool) (t : tool) (n : string) :
  In n (map t_name (table_set table t))
  <-> In n (map t_name table) \/ n = t_name t.
Proof.
  induction table as [|t' table IH]; cbn [table_set map In].
  - intuition.
  - destruct (String.eqb (t_name t') (t_name t)) eqn:E; cbn [map In].
    + apply String.eqb_eq in E. rewrite E. intuition.
    + rewrite IH. intuition.
Qed.

Lemma table_set_NoDup (table : list tool) (t : tool) :
  List.NoDup (map t_name table) ->
  List.NoDup (map t_name (table_set table t)).
Proof.
  induction table as [|t' table IH]; cbn [table_set map].
  - intros _. constructor; [intros [] | constructor].
  - rewrite List.NoDup_cons_iff. intros [Hn Hd].
    destruct (String.eqb (t_name t') (t_name t)) eqn:E; cbn [map].
    + apply String.eqb_eq in E. rewrite <- E. by constructor.
    + constructor; [|by apply IH].
      rewrite table_set_names. intros [H | H]; [by apply Hn|].
      apply String.eqb_neq in E. by apply E.
Qed.

Lemma table_fold_NoDup (l table : list tool) :
  List.NoDup (map t_name table) ->
  List.NoDup (map t_name (fold_left table_set l table)).
Proof.
  revert table. induction l as [|t l IH]; intros table H; [exact H|].
  cbn [fold_left]. by apply IH, table_set_NoDup.
Qed.

Lemma table_fold_names (l table : list tool) (n : string) :
  In n (map t_name (fold_left table_set l table))
  <-> In n (map t_name table) \/ In n (map t_name l).
Proof.
  revert table. induction l as [|t l IH]; intros table; cbn [fold_left map In].
  - intuition.
  - rewrite IH, table_set_names. intuition.
Qed.

Lemma table_set_length (table : list tool) (t : tool) :
  length (table_set table t) <= S (length table).
Proof.
  induction table as [|t' table IH]; cbn [table_set length]; [lia|].
  destruct (String.eqb (t_name t') (t_name t)); cbn [length]; lia.
Qed.

Lemma table_fold_length (l table : list tool) :
  length (fold_left table_set l table) <= length table + length l.
Proof.
  revert table. induction l as [|t l IH]; intros table; cbn [fold_left length];
    [lia|].
  pose proof (IH (table_set table t)). pose proof (table_set_length table t).
  lia.
Qed.

Lemma table_set_fresh (table : list tool) (t : tool) :
  ~ In (t_name t) (map t_name table) -> table_set table t = table ++ [t].
Proof.
  induction table as [|t' table IH]; cbn [table_set map In app];
    [reflexivity|].
  intros H. destruct (String.eqb (t_name t') (t_name t)) eqn:E.
  - apply String.eqb_eq in E. destruct H. by left.
  - f_equal. apply IH. intros H'. apply H. by right.
Qed.

Lemma table_fold_fresh (l table : list tool) :
  List.NoDup (map t_name (table ++ l)) ->
  fold_left table_set l table = table ++ l.
Proof.
  revert table. induction l as [|t l IH]; intros table; cbn [fold_left].
  - by rewrite app_nil_r.
  - intros H.
    assert (table ++ t :: l = (table ++ [t]) ++ l) as Eq
      by (by rewrite <- app_assoc).
    rewrite Eq in H |- *.
    rewrite table_set_fresh; [by apply IH|].
    rewrite map_app in H. apply List.NoDup_app_remove_r in H.
    rewrite map_app in H. cbn [map] in H.
    apply List.NoDup_remove_2 in H. by rewrite app_nil_r in H.
Qed.

Lemma table_get_In (table : list tool) (t : tool) :
  List.NoDup (map t_name table) ->
  In t table <-> table_get table (t_name t) = Some t.
Proof.
  unfold table_get. intros Hd. split.
  - induction table as [|t' table IH]; [intros []|].
    cbn [map] in Hd. apply List.NoDup_cons_iff in Hd as [Hn Hd].
    cbn [In find]. intros [-> | Hin].
    + by rewrite String.eqb_refl.
    + destruct (String.eqb (t_name t') (t_name t)) eqn:E; [|by apply IH].
      apply String.eqb_eq in E. destruct Hn. rewrite E.
      by apply in_map.
  - intros H. by apply find_some in H as [H _].
Qed.

(** The tools that a server holds: one per name, and under each name
    the last registration. *)
Lemma tool_table_last (mcp : FastMCP) :
  List.NoDup (map t_name (tool_table mcp))
  /\ forall t, In t (tool_table mcp)
               <-> last_named (t_name t) (mcp_tools mcp) = Some t.
Proof.
  assert (List.NoDup (map t_name (tool_table mcp))) as Hd
    by (apply table_fold_NoDup; constructor).
  split; [exact Hd|]. intros t.
  rewrite (table_get_In _ _ Hd). unfold tool_table.
  rewrite table_get_fold. by destruct (last_named (t_name t) (mcp_tools mcp)).
Qed.



(** X4: every registration of a converted server stems from one
    discovered operation, in discovery order: its handler carries the
    method and the path template of that operation and the resolved
    base URL, and its name is the one generated for the operation.  The
    server holds one tool per name, the last one registered under it:
    when the names are pairwise distinct its tools are the
    registrations, and an operation whose name is used again later has
    no tool. *)
Theorem tools_bound_to_operations (lib : Library)
    (http_methods : list string)
    (spec_name : string) (spec : dict) (base_url_override : option string)
    (mcp : FastMCP) (tool_names : list string) :
  build_mcp_server lib http_methods spec_name spec base_url_override
  = Ok (mcp, tool_names) ->
  exists base_url,
    resolve_base_url spec base_url_override = Ok base_url
    /\ mcp_name mcp = spec_name
    /\ Forall2 (bound_to base_url) (mcp_tools mcp)
               (discovered http_methods (path_entries spec))
    /\ List.NoDup (map t_name (tool_table mcp))
    /\ (forall t, In t (tool_table mcp)
                  <-> last_named (t_name t) (mcp_tools mcp) = Some t)
    /\ (List.NoDup tool_names -> tool_table mcp = mcp_tools mcp).
Proof.
  intros Hb. pose proof (build_mcp_server_names _ _ _ _ _ _ _ Hb) as Hn.
  destruct (build_mcp_server_inv _ _ _ _ _ _ _ Hb) as (u & r & Hu & E & -> & _).
  exists u. split; [exact Hu|]. split; [reflexivity|].
  split.
  { cbn [mcp_tools]. unfold discovered.
    apply (gather_Forall2 _ fst (bound_to u) (operations_of http_methods)
             (path_entries spec) eq_refl (fun _ _ => eq_refl)
             (add_path_one lib http_methods u) _ E). }
  split; [apply tool_table_last|]. split; [apply tool_table_last|].
  rewrite <- Hn. intros Hd. unfold tool_table.
  by rewrite table_fold_fresh.
Qed.

Lemma tools_bound_to_operations_witness :
  exists base_url,
    resolve_base_url Examples.repeated_name_doc None = Ok base_url
    /\ mcp_name
         (Server "pets"
            [Tool "x" (JStr "read") []
               (Handler "get" "/pets" [] [] false "https://api.x.com");
             Tool "x" (JStr "write") []
               (Handler "post" "/pets" [] [] false "https://api.x.com")])
       = "pets"
    /\ Forall2 (bound_to base_url)
         [Tool "x" (JStr "read") []
            (Handler "get" "/pets" [] [] false "https://api.x.com");
          Tool "x" (JStr "write") []
            (Handler "post" "/pets" [] [] false "https://api.x.com")]
         (discovered written_order (path_entries Examples.repeated_name_doc))
    /\ List.NoDup (map t_name
         [Tool "x" (JStr "write") []
            (Handler "post" "/pets" [] [] false "https://api.x.com")])
    /\ (forall t,
          In t [Tool "x" (JStr "write") []
                  (Handler "post" "/pets" [] [] false "https://api.x.com")]
          <-> last_named (t_name t)
                [Tool "x" (JStr "read") []
                   (Handler "get" "/pets" [] [] false "https://api.x.com");
                 Tool "x" (JStr "write") []
                   (Handler "post" "/pets" [] [] false "https://api.x.com")]
              = Some t)
    /\ (List.NoDup ["x"; "x"] ->
        [Tool "x" (JStr "write") []
           (Handler "post" "/pets" [] [] false "https://api.x.com")]
        = [Tool "x" (JStr "read") []
             (Handler "get" "/pets" [] [] false "https://api.x.com");
           Tool "x" (JStr "write") []
             (Handler "post" "/pets" [] [] false "https://api.x.com")]).
Proof.
  apply (tools_bound_to_operations Examples.strict_library written_order
           "pets" Examples.repeated_name_doc None
           (Server "pets"
              [Tool "x" (JStr "read") []
                 (Handler "get" "/pets" [] [] false "https://api.x.com");
               Tool "x" (JStr "write") []
                 (Handler "post" "/pets" [] [] false "https://api.x.com")])
           ["x"; "x"]).
  reflexivity.
Defined.

(** With a repeated name the tool that the server holds under it
    depends on the order in which the methods are visited. *)
Lemma held_tool_depends_on_order :
  (exists mcp names,
     build_mcp_server Examples.strict_library written_order "pets"
       Examples.repeated_name_doc None = Ok (mcp, names)
     /\ map t_description (tool_table mcp) = [JStr "write"])
  /\ (exists mcp names,
        build_mcp_server Examples.strict_library Examples.post_first "pets"
          Examples.repeated_name_doc None = Ok (mcp, names)
        /\ map t_description (tool_table mcp) = [JStr "read"]).
Proof. split; eexists _, _; split; reflexivity. Qed.

(** X5: the order in which the set of methods is iterated decides
    the order of the registrations and of the names: under another
    order the conversion succeeds as well, registers the same tools and
    returns the same names, up to their order.  When the names are
    pairwise distinct the two servers hold the same tools up to their
    order; under a repeated name the tool that is held is the one
    registered last, which the order can change. *)
Theorem tools_up_to_order (lib : Library)
    (http_methods http_methods' : list string)
    (spec_name : string) (spec : dict) (base_url_override : option string)
    (mcp : FastMCP) (tool_names : list string) :
  Permutation http_methods http_methods' ->
  build_mcp_server lib http_methods spec_name spec base_url_override
  = Ok (mcp, tool_names) ->
  exists mcp' tool_names',
    build_mcp_server lib http_methods' spec_name spec base_url_override
    = Ok (mcp', tool_names')
    /\ mcp_name mcp' = mcp_name mcp
    /\ Permutation (mcp_tools mcp) (mcp_tools mcp')
    /\ Permutation tool_names tool_names'
    /\ (List.NoDup tool_names ->
        Permutation (tool_table mcp) (tool_table mcp')).
Proof.
  intros HP Hb. pose proof (build_mcp_server_names _ _ _ _ _ _ _ Hb) as Hn.
  revert Hb. rewrite !build_mcp_server_gather.
  destruct (resolve_base_url spec base_url_override) as [u|e];
    [|discriminate].
  cbn [mbind result_bind].
  destruct (dict_get_or spec "paths" (JDict [])) as [| | | | | |entries];
    try discriminate.
  cbn [mbind result_bind].
  destruct (gather _ entries) as [r|e] eqn:E; [|discriminate].
  cbn [mbind result_bind]. intros [= <- <-].
  destruct (gather_ext (add_path lib http_methods u ([], []))
              (add_path lib http_methods' u ([], [])) entries) with (r := r)
    as (r' & E' & P1 & P2); [|exact E|].
  - intros [path item] r1.
    destruct item as [| | | | | |path_item];
      try (intros [= <-]; by exists ([], [])).
    rewrite !add_path_gather. by apply gather_perm.
  - rewrite E'. cbn [mbind result_bind]. eexists _, _.
    split; [reflexivity|]. split; [reflexivity|].
    split; [exact P1|]. split; [exact P2|].
    cbn [mcp_tools] in Hn. intros Hd. unfold tool_table. cbn [mcp_tools].
    assert (List.NoDup (map t_name (fst r'))) as Hd'.
    { apply (Permutation_NoDup (l := map t_name (fst r)));
        [by apply Permutation_map | by rewrite Hn]. }
    rewrite (table_fold_fresh (fst r) []) by (cbn [app]; by rewrite Hn).
    rewrite (table_fold_fresh (fst r') []) by exact Hd'.
    exact P1.
Qed.

Lemma tools_up_to_order_witness :
  exists mcp' tool_names',
    build_mcp_server Examples.strict_library Examples.post_first "pets"
      Examples.pets_doc None
    = Ok (mcp', tool_names')
    /\ mcp_name mcp' = "pets"
    /\ Permutation
         [Tool "listPets" (JStr EmptyString) []
            (Handler "get" "/pets" [] [] false "https://api.x.com");
          Tool "createPet" (JStr EmptyString) []
            (Handler "post" "/pets" [] [] false "https://api.x.com")]
         (mcp_tools mcp')
    /\ Permutation ["listPets"; "createPet"] tool_names'
    /\ (List.NoDup ["listPets"; "createPet"] ->
        Permutation
          [Tool "listPets" (JStr EmptyString) []
             (Handler "get" "/pets" [] [] false "https://api.x.com");
           Tool "createPet" (JStr EmptyString) []
             (Handler "post" "/pets" [] [] false "https://api.x.com")]
          (tool_table mcp')).
Proof.
  apply (tools_up_to_order Examples.strict_library written_order
           Examples.post_first "pets" Examples.pets_doc None
           (Server "pets"
              [Tool "listPets" (JStr EmptyString) []
                 (Handler "get" "/pets" [] [] false "https://api.x.com");
               Tool "createPet" (JStr EmptyString) []
                 (Handler "post" "/pets" [] [] false "https://api.x.com")])
           ["listPets"; "createPet"]).
  - apply perm_swap.
  - reflexivity.
Defined.

(** *** The base URL *)

Lemma lstrip_head (c : ascii) (s : chars) :
  starts_with [c] (lstrip_chars c s) = false.
Proof.
  induction s as [|x s IH]; [reflexivity|].
  cbn [lstrip_chars]. destruct (Ascii.eqb x c) eqn:E; [exact IH|].
  cbn [starts_with]. rewrite Ascii.eqb_sym. by rewrite E.
Qed.

Lemma lstrip_all (c : ascii) (s : chars) :
  forallb (fun x => Ascii.eqb x c) s = true -> lstrip_chars c s = [].
Proof.
  induction s as [|x s IH]; [reflexivity|]. intros H.
  simpl in H. apply andb_true_iff in H. destruct H as [Hx Hs].
  cbn [lstrip_chars]. rewrite Hx. by apply IH.
Qed.

Lemma rstrip_trimmed (s : string) : endswith (rstrip "/" s) "/" = false.
Proof.
  unfold endswith, rstrip, rstrip_chars.
  rewrite UrlFacts.to_of_chars, rev_involutive.
  apply (lstrip_head "/").
Qed.

Lemma resolve_base_url_rstrip (spec : dict) (o : option string) (u : string) :
  resolve_base_url spec o = Ok u -> exists t, u = rstrip "/" t.
Proof.
  unfold resolve_base_url.
  assert (H : forall r : result string,
            r = (if truthy (dict_get_or spec "servers" (JList []))
                 then first ← item0 (dict_get_or spec "servers" (JList []));
                      match first with
                      | JDict d =>
                          match dict_get d "url" with
                          | Some (JStr u) => Ok (rstrip "/" u)
                          | Some _ => Raise AttributeError
                          | None =>
                              Raise (OpenAPIConversionError no_server_message)
                          end
                      | _ => Raise (OpenAPIConversionError no_server_message)
                      end
                 else Raise (OpenAPIConversionError no_server_message)) ->
            r = Ok u -> exists t, u = rstrip "/" t).
  { intros r ->. destruct (truthy _); [|discriminate].
    destruct (item0 _) as [first|e]; [|discriminate].
    cbn [mbind result_bind].
    destruct first as [| | | | | |d]; try discriminate.
    destruct (dict_get d "url") as [[| | | |t| |]|]; try discriminate.
    intros [= <-]. by exists t. }
  destruct o as [t|].
  - destruct (String.eqb t EmptyString).
    + by apply H.
    + intros [= <-]. by exists t.
  - by apply H.
Qed.

(** X6: a resolved base URL never ends with a slash, so that the
    handler appends exactly one before it joins the path; an override
    that consists of slashes only is accepted and resolves to the empty
    text. *)
Theorem resolved_base_url_trimmed (spec : dict)
    (base_url_override : option string) :
  (forall base_url,
     resolve_base_url spec base_url_override = Ok base_url ->
     endswith base_url "/" = false
     /\ with_trailing_slash base_url = base_url +:+ "/")
  /\ (forall c s,
        forallb (fun x => Ascii.eqb x "/") (to_chars (String c s)) = true ->
        resolve_base_url spec (Some (String c s)) = Ok EmptyString).
Proof.
  split.
  - intros base_url E. apply resolve_base_url_rstrip in E as [t ->].
    pose proof (rstrip_trimmed t) as H.
    split; [exact H|]. unfold with_trailing_slash. by rewrite H.
  - intros c s Hs. unfold resolve_base_url. cbn [String.eqb].
    f_equal. unfold rstrip, rstrip_chars.
    rewrite lstrip_all; [reflexivity|].
    clear -Hs. revert Hs.
    generalize (to_chars (String c s)). intros l Hl.
    induction l as [|x l IH] using rev_ind; [reflexivity|].
    rewrite rev_app_distr. rewrite forallb_app in Hl.
    apply andb_true_iff in Hl. destruct Hl as [Hl Hx].
    simpl in Hx. simpl. rewrite andb_true_r in Hx. rewrite Hx.
    by apply IH.
Qed.

Lemma resolved_base_url_trimmed_witness :
  (endswith "https://a.example/v1" "/" = false
   /\ with_trailing_slash "https://a.example/v1" = "https://a.example/v1/")
  /\ resolve_base_url Examples.one_server (Some "//") = Ok EmptyString.
Proof.
  split.
  - apply (proj1 (resolved_base_url_trimmed Examples.one_server None)).
    reflexivity.
  - apply (proj2 (resolved_base_url_trimmed Examples.one_server None)).
    reflexivity.
Defined.

(** *** The input model *)

(** What a parameter that contributes a field looks like. *)
Lemma contribution_inv (p : json) (k : string) (f : field) :
  contribution p = Some (k, f) ->
  exists d,
    p = JDict d /\ dict_get d "name" = Some (JStr k)
    /\ eq_str (location d) "path" || eq_str (location d) "query" = true
    /\ f_required f = declared_required d.
Proof.
  unfold contribution, add_param.
  destruct p as [| | | | | |d]; try discriminate.
  cbn [get_or mbind result_bind].
  destruct (truthy (dict_get_or d "name" JNull)); [|discriminate].
  cbn [negb]. fold (location d).
  destruct (eq_str (location d) "path" || eq_str (location d) "query")
    eqn:Eloc; [|discriminate].
  cbn [negb].
  destruct (openapi_type_to_python (dict_get_or d "schema" (JDict [])))
    as [ty|e]; [|discriminate].
  cbn [mbind result_bind].
  destruct (hashable (dict_get_or d "name" JNull)); [|discriminate].
  cbn [negb]. unfold dict_get_or at 1 2.
  destruct (dict_get d "name") as [[| | | |s| |]|] eqn:En; try discriminate.
  cbn [dict_set]. intros [= <- <-]. exists d.
  split; [reflexivity|]. split; [exact En|]. split; [exact Eloc|].
  reflexivity.
Qed.

Lemma last_contribution_In (k : string) (params : list json) (f : field) :
  last_contribution k params = Some f ->
  exists p, In p params /\ contribution p = Some (k, f).
Proof.
  induction params as [|p params IH] using rev_ind; [discriminate|].
  unfold last_contribution. rewrite fold_left_app. cbn [fold_left].
  fold (last_contribution k params).
  destruct (contribution p) as [[k' f']|] eqn:Ec.
  - destruct (String.eqb k' k) eqn:Ek.
    + apply String.eqb_eq in Ek. subst k'. intros [= <-].
      exists p. split; [|exact Ec]. apply in_or_app. right. by left.
    + intros H. destruct (IH H) as (q & Hq & Eq).
      exists q. split; [|exact Eq]. apply in_or_app. by left.
  - intros H. destruct (IH H) as (q & Hq & Eq).
    exists q. split; [|exact Eq]. apply in_or_app. by left.
Qed.

(** The input model in two parts: the fields of the parameters, then
    the field of the request body. *)
Lemma build_input_model_inv (lib : Library) (operation : dict)
    (pp ops : list json) (tool_name : string) (fs : fields) :
  dict_get_or operation "parameters" (JList []) = JList ops ->
  build_input_model lib operation (JList pp) tool_name = Ok fs ->
  exists fs0 rb content,
    add_params ([], false) (pp ++ ops) = Ok (fs0, false)
    /\ dict_get_or operation "requestBody" (JDict []) = JDict rb
    /\ dict_get_or rb "content" (JDict []) = JDict content
    /\ fs = if truthy (dict_get_or content "application/json" (JDict []))
            then dict_set fs0 "body"
                   (Field TDict
                      (truthy (dict_get_or rb "required" (JBool false)))
                      (dict_get_or rb "description"
                         (JStr "JSON request body")))
            else fs0.
Proof.
  intros Hops Hb. unfold build_input_model in Hb.
  rewrite Hops in Hb. cbn [all_params mbind result_bind] in Hb.
  destruct (add_params ([], false) (pp ++ ops)) as [[fs0 odd]|e] eqn:Ea;
    [|discriminate].
  cbn [mbind result_bind fst snd] in Hb.
  destruct (dict_get_or operation "requestBody" (JDict []))
    as [| | | | | |rb] eqn:Erb; try discriminate.
  cbn [get_or mbind result_bind] in Hb.
  destruct (dict_get_or rb "content" (JDict [])) as [| | | | | |content]
    eqn:Ec; try discriminate.
  cbn [get_or mbind result_bind] in Hb.
  exists fs0, rb, content.
  destruct (truthy (dict_get_or content "application/json" (JDict [])));
    cbn [mbind result_bind] in Hb;
    destruct odd; try discriminate;
    destruct (create_model lib _ _); try discriminate;
    injection Hb as <-; by repeat split.
Qed.

(** X7: every field of an input model other than [body] stems
    from a declared parameter of that name whose location is [path] or
    [query]; parameters of other locations never become fields.  The
    field is required exactly when that parameter is a path parameter
    or declares a true [required]. *)
Theorem input_fields_declared (lib : Library) (operation : dict)
    (path_params operation_params : list json) (tool_name : string)
    (fs : fields) (k : string) (f : field) :
  dict_get_or operation "parameters" (JList []) = JList operation_params ->
  build_input_model lib operation (JList path_params) tool_name = Ok fs ->
  fields_get fs k = Some f ->
  k <> "body" ->
  exists d,
    In (JDict d) (path_params ++ operation_params)
    /\ dict_get d "name" = Some (JStr k)
    /\ eq_str (location d) "path" || eq_str (location d) "query" = true
    /\ f_required f = declared_required d.
Proof.
  intros Hops Hb Hf Hk.
  destruct (build_input_model_inv _ _ _ _ _ _ Hops Hb)
    as (fs0 & rb & content & Ea & _ & _ & ->).
  assert (Hf0 : fields_get fs0 k = Some f).
  { destruct (truthy _); [|exact Hf].
    rewrite fields_get_set in Hf.
    destruct (String.eqb "body" k) eqn:E; [|exact Hf].
    apply String.eqb_eq in E. congruence. }
  pose proof (add_params_fields _ _ _ k Ea) as Hl.
  cbn [fst fields_get] in Hl. rewrite Hf0 in Hl.
  destruct (last_contribution k (path_params ++ operation_params))
    as [f'|] eqn:El; [|discriminate].
  injection Hl as ->.
  destruct (last_contribution_In _ _ _ El) as (p & Hin & Ec).
  destruct (contribution_inv _ _ _ Ec) as (d & -> & Hn & Hloc & Hr).
  by exists d.
Qed.

Lemma input_fields_declared_witness :
  exists d,
    In (JDict d) ([Examples.path_level_id] ++ [Examples.operation_level_id])
    /\ dict_get d "name" = Some (JStr "id")
    /\ eq_str (location d) "path" || eq_str (location d) "query" = true
    /\ f_required (Field TStr false (JStr EmptyString))
       = declared_required d.
Proof.
  apply (input_fields_declared Examples.strict_library
           [("parameters", JList [Examples.operation_level_id])]
           [Examples.path_level_id] [Examples.operation_level_id]
           "listPets"
           [("id", Field TStr false (JStr EmptyString))] "id");
    [reflexivity | reflexivity | reflexivity | discriminate].
Defined.

(** X8: when an input model is built, [requestBody] and its
    [content] are objects; a non-empty [application/json] entry gives
    the field [body] of type [dict], required exactly when
    [requestBody.required] is true, whatever a parameter of the name
    [body] declared; without such an entry the request body adds no
    field. *)
Theorem body_field (lib : Library) (operation : dict)
    (path_params operation_params : list json) (tool_name : string)
    (fs : fields) :
  dict_get_or operation "parameters" (JList []) = JList operation_params ->
  build_input_model lib operation (JList path_params) tool_name = Ok fs ->
  exists rb content,
    dict_get_or operation "requestBody" (JDict []) = JDict rb
    /\ dict_get_or rb "content" (JDict []) = JDict content
    /\ fields_get fs "body"
       = if truthy (dict_get_or content "application/json" (JDict []))
         then Some (Field TDict
                      (truthy (dict_get_or rb "required" (JBool false)))
                      (dict_get_or rb "description"
                         (JStr "JSON request body")))
         else last_contribution "body" (path_params ++ operation_params).
Proof.
  intros Hops Hb.
  destruct (build_input_model_inv _ _ _ _ _ _ Hops Hb)
    as (fs0 & rb & content & Ea & Hrb & Hc & ->).
  exists rb, content. split; [exact Hrb|]. split; [exact Hc|].
  destruct (truthy _).
  - rewrite fields_get_set. reflexivity.
  - pose proof (add_params_fields _ _ _ "body" Ea) as Hl.
    cbn [fst fields_get] in Hl. rewrite Hl.
    by destruct (last_contribution "body" _).
Qed.

Lemma body_field_witness :
  exists rb content,
    dict_get_or [("requestBody",
                  JDict [("required", JBool true);
                         ("content",
                          JDict [("application/json",
                                  JDict [("schema", JDict [])])])])]
      "requestBody" (JDict []) = JDict rb
    /\ dict_get_or rb "content" (JDict []) = JDict content
    /\ fields_get [("body", Field TDict true (JStr "JSON request body"))]
         "body"
       = if truthy (dict_get_or content "application/json" (JDict []))
         then Some (Field TDict
                      (truthy (dict_get_or rb "required" (JBool false)))
                      (dict_get_or rb "description"
                         (JStr "JSON request body")))
         else last_contribution "body" ([] ++ []).
Proof.
  apply (body_field Examples.strict_library
           [("requestBody",
             JDict [("required", JBool true);
                    ("content",
                     JDict [("application/json",
                             JDict [("schema", JDict [])])])])]
           [] [] "createPet"); reflexivity.
Defined.

(** *** The request of a handler *)

Lemma filter_In_dict (p : string * json -> bool) (kwargs : dict)
    (k : string) (v : json) :
  In (k, v) (List.filter p kwargs) <-> In (k, v) kwargs /\ p (k, v) = true.
Proof. apply List.filter_In. Qed.

(** X9: the request that a handler sends has the upper-cased
    method; its query parameters are arguments of the call that are
    declared as query parameters and are not [None], and they are left
    out altogether when there is none; a JSON body is sent only by a
    handler of an operation with a JSON body, and only when the
    argument [body] is truthy. *)
Theorem handler_request_contents (h : handler) (kwargs : dict)
    (rq : request) :
  handler_request h kwargs = Some rq ->
  rq_method rq = upper (h_method h)
  /\ (forall q, rq_params rq = Some q ->
        q <> []
        /\ forall k v, In (k, v) q <->
             In (k, v) kwargs
             /\ member k (h_query_param_names h) = true
             /\ is_none v = false)
  /\ (rq_params rq = None ->
      forall k v, In (k, v) kwargs ->
                  member k (h_query_param_names h) = true -> v = JNull)
  /\ (forall b, rq_json rq = Some b ->
        h_has_body h = true /\ dict_get kwargs "body" = Some b
        /\ truthy b = true)
  /\ (h_has_body h = false -> rq_json rq = None).
Proof.
  unfold handler_request.
  destruct (build_url_with_path_params _ _ _) as [url|]; [|discriminate].
  cbn [mbind option_bind]. intros [= <-]. cbn [rq_method rq_params rq_json].
  split; [reflexivity|].
  set (q := List.filter _ kwargs).
  assert (Hq : forall k v, In (k, v) q <->
                 In (k, v) kwargs
                 /\ member k (h_query_param_names h) = true
                 /\ is_none v = false).
  { intros k v. unfold q. rewrite filter_In_dict. cbn [fst snd].
    rewrite andb_true_iff, negb_true_iff. tauto. }
  split; [|split; [|split]].
  - intros q'. destruct q as [|x q0] eqn:Eq; [discriminate|].
    cbn [length Nat.eqb]. intros [= <-]. split; [discriminate|exact Hq].
  - destruct q as [|x q0] eqn:Eq; [|discriminate]. intros _ k v Hin Hm.
    destruct (is_none v) eqn:Ev; [by destruct v|].
    exfalso. by apply (proj2 (Hq k v)).
  - intros b. destruct (h_has_body h).
    + unfold dict_get_or. destruct (dict_get kwargs "body") as [v|].
      * destruct (truthy v) eqn:Ev; [|discriminate].
        intros [= <-]. by repeat split.
      * discriminate.
    + discriminate.
  - by intros ->.
Qed.

Lemma handler_request_contents_witness :
  rq_method
    (Request "GET" "https://api.x.com/pets/7" (Some [("limit", JInt 5)])
             None)
  = upper "get"
  /\ rq_params
       (Request "GET" "https://api.x.com/pets/7" (Some [("limit", JInt 5)])
                None) <> Some []
  /\ rq_json
       (Request "GET" "https://api.x.com/pets/7" (Some [("limit", JInt 5)])
                None) = None.
Proof.
  pose proof (handler_request_contents
                (Handler "get" "/pets/{petId}" ["petId"] ["limit"; "tag"]
                         false "https://api.x.com")
                [("petId", JInt 7); ("limit", JInt 5); ("tag", JNull);
                 ("body", JDict [("a", JInt 1)])]
                (Request "GET" "https://api.x.com/pets/7"
                         (Some [("limit", JInt 5)]) None)
                eq_refl) as (Hm & Hq & _ & _ & Hb).
  split; [exact Hm|]. split.
  - intros E. by destruct (Hq _ E) as [Hne _].
  - by apply Hb.
Defined.

End ConvertFacts.

(** ** Further properties: validation and the summary of a document *)

Module InfoFacts.
Import PyStr Py ReadingEngine Aux More Loader LoaderInfo OrderFacts.

(** X10: a document passes validation exactly when [openapi] is a
    string that starts with [3.] and [paths] is an object, which may be
    empty; no other key is looked at, and there are at most two
    messages. *)
Theorem validation_passes_iff (spec : dict) :
  (validate_openapi_spec spec = []
   <-> (exists version, dict_get spec "openapi" = Some (JStr version)
                        /\ startswith version "3." = true)
       /\ (exists paths, dict_get spec "paths" = Some (JDict paths)))
  /\ (length (validate_openapi_spec spec) <= 2)%nat
  /\ (forall k v, k <> "openapi" -> k <> "paths" ->
        validate_openapi_spec ((k, v) :: spec) = validate_openapi_spec spec).
Proof.
  unfold validate_openapi_spec. split; [split|split].
  - intros H. apply app_eq_nil in H as [H1 H2]. split.
    + destruct (dict_get spec "openapi") as [[| | | |version| |]|];
        try discriminate.
      exists version. split; [reflexivity|].
      by destruct (startswith version "3.").
    + destruct (dict_get spec "paths") as [[| | | | | |paths]|];
        try discriminate.
      by exists paths.
  - intros [(version & -> & ->) (paths & ->)]. reflexivity.
  - destruct (dict_get spec "openapi") as [[| | | |version| |]|];
      destruct (dict_get spec "paths") as [[| | | | | |paths]|];
      try destruct (startswith version "3."); cbn; lia.
  - intros k v H1 H2. cbn [dict_get].
    destruct (String.eqb k "openapi") eqn:E1;
      [apply String.eqb_eq in E1; congruence|].
    destruct (String.eqb k "paths") eqn:E2;
      [apply String.eqb_eq in E2; congruence|].
    reflexivity.
Qed.

(** *** Counting the operations *)

Lemma count_methods_filter (http_methods : list string) (path_item : dict)
    (n : nat) :
  count_methods http_methods path_item n
  = (n + length (List.filter (dict_has path_item) http_methods))%nat.
Proof.
  unfold count_methods. revert n.
  induction http_methods as [|m ms IH]; intros n; cbn [fold_left List.filter].
  - cbn. lia.
  - rewrite IH. destruct (dict_has path_item m); cbn [length]; lia.
Qed.

Lemma count_operations_present (http_methods : list string) (paths : dict) :
  count_operations http_methods paths
  = length (flat_map (present_methods http_methods) paths).
Proof.
  unfold count_operations.
  assert (H : forall n,
            fold_left (fun n entry =>
                         match snd entry with
                         | JDict path_item =>
                             count_methods http_methods path_item n
                         | _ => n
                         end) paths n
            = (n + length (flat_map (present_methods http_methods) paths))%nat).
  { induction paths as [|[path item] paths IH]; intros n;
      cbn [fold_left flat_map].
    - cbn. lia.
    - rewrite IH. rewrite length_app. unfold present_methods at 2.
      cbn [snd]. destruct item; cbn [length]; try lia.
      rewrite count_methods_filter. lia. }
  apply H.
Qed.

Lemma filter_length_perm {A} (p : A -> bool) (l l' : list A) :
  Permutation l l' -> length (List.filter p l) = length (List.filter p l').
Proof.
  induction 1 as [|x l l' _ IH|x y l|l l' l'' _ IH1 _ IH2]; cbn [List.filter].
  - reflexivity.
  - destruct (p x); cbn [length]; by rewrite IH.
  - destruct (p x), (p y); reflexivity.
  - by rewrite IH1.
Qed.

Lemma count_operations_perm (http_methods http_methods' : list string)
    (paths : dict) :
  Permutation http_methods http_methods' ->
  count_operations http_methods paths = count_operations http_methods' paths.
Proof.
  intros HP. rewrite !count_operations_present.
  induction paths as [|[path item] paths IH]; [reflexivity|].
  cbn [flat_map]. rewrite !length_app, IH. f_equal.
  unfold present_methods. cbn [snd]. destruct item; try reflexivity.
  by apply filter_length_perm.
Qed.

(** X11: the summary of a document does not depend on the
    order in which the set of methods is iterated. *)
Theorem get_spec_info_order (http_methods http_methods' : list string)
    (spec : dict) :
  Permutation http_methods http_methods' ->
  get_spec_info http_methods spec = get_spec_info http_methods' spec.
Proof.
  intros HP. unfold get_spec_info.
  destruct (dict_get_or spec "paths" (JDict [])); try reflexivity.
  by rewrite (count_operations_perm _ _ _ HP).
Qed.

Lemma get_spec_info_order_witness :
  get_spec_info written_order Examples.pets_doc
  = get_spec_info Examples.post_first Examples.pets_doc.
Proof.
  apply (get_spec_info_order written_order Examples.post_first).
  apply perm_swap.
Defined.

(** The discovered operations of an entry are among its present
    methods. *)
Lemma operations_le_present (http_methods : list string)
    (entry : string * json) :
  (length (operations_of http_methods entry)
   <= length (present_methods http_methods entry))%nat.
Proof.
  destruct entry as [path item]. unfold operations_of, present_methods.
  cbn [snd]. destruct item as [| | | | | |path_item]; try (cbn; lia).
  induction http_methods as [|m ms IH]; [cbn; lia|].
  cbn [flat_map List.filter]. rewrite length_app.
  assert (D : dict_has path_item m
              = match dict_get path_item m with
                | Some _ => true
                | None => false
                end) by reflexivity.
  rewrite D.
  destruct (dict_get path_item m) as [[| | | | | |operation]|];
    cbn [length app]; lia.
Qed.

Lemma operations_eq_present (http_methods : list string) (path : string)
    (path_item : dict) :
  (forall m v, In m http_methods -> dict_get path_item m = Some v ->
               is_dict v = true) ->
  length (operations_of http_methods (path, JDict path_item))
  = length (present_methods http_methods (path, JDict path_item)).
Proof.
  unfold operations_of, present_methods. cbn [snd].
  induction http_methods as [|m ms IH]; intros H; [reflexivity|].
  cbn [flat_map List.filter]. rewrite length_app.
  rewrite IH by (intros m' v Hin; apply H; by right).
  assert (D : dict_has path_item m
              = match dict_get path_item m with
                | Some _ => true
                | None => false
                end) by reflexivity.
  rewrite D.
  destruct (dict_get path_item m) as [v|] eqn:E; [|reflexivity].
  specialize (H m v (or_introl eq_refl) E).
  destruct v; try discriminate. reflexivity.
Qed.

(** X12: for a document that converts, the summary counts its
    paths and counts at least as many operations as the conversion
    makes tools; the two numbers agree when every entry under a method
    key is an object. *)
Theorem tools_at_most_operations (lib : Library)
    (http_methods http_methods' : list string)
    (spec_name : string) (spec : dict) (base_url_override : option string)
    (mcp : FastMCP) (tool_names : list string) (info : spec_info) :
  Permutation http_methods http_methods' ->
  build_mcp_server lib http_methods spec_name spec base_url_override
  = Ok (mcp, tool_names) ->
  get_spec_info http_methods' spec = Ok info ->
  path_count info = length (path_entries spec)
  /\ (length tool_names <= operation_count info)%nat
  /\ ((forall path path_item m v,
         In (path, JDict path_item) (path_entries spec) ->
         In m http_methods -> dict_get path_item m = Some v ->
         is_dict v = true) ->
      length tool_names = operation_count info).
Proof.
  intros HP Hb Hi.
  unfold build_mcp_server in Hb. unfold get_spec_info in Hi.
  unfold path_entries.
  destruct (resolve_base_url spec base_url_override) as [u|e];
    [|discriminate].
  cbn [mbind result_bind] in Hb.
  destruct (dict_get_or spec "paths" (JDict [])) as [| | | | | |entries];
    try discriminate.
  rewrite <- (count_operations_perm http_methods http_methods' _ HP) in Hi.
  cbn [mbind result_bind] in Hb.
  destruct (add_paths lib http_methods u ([], []) entries) as [acc|e] eqn:Ea;
    [|discriminate].
  cbn [mbind result_bind] in Hb. injection Hb as <- <-.
  destruct (add_paths_names _ _ _ _ _ _ Ea) as (new & Hn & _ & Hf).
  cbn [snd app] in Hn. rewrite Hn.
  apply Forall2_length in Hf. rewrite Hf.
  repeat match type of Hi with
         | context [@mbind result _ _ _ _ ?x] =>
             destruct x; cbn [mbind result_bind] in Hi; [|discriminate]
         end.
  injection Hi as <-. cbn [path_count operation_count].
  rewrite count_operations_present. unfold discovered.
  split; [reflexivity|]. split.
  - clear. induction entries as [|e entries IH]; [cbn; lia|].
    cbn [flat_map]. rewrite !length_app.
    pose proof (operations_le_present http_methods e). lia.
  - intros H. clear -H.
    induction entries as [|[path item] entries IH]; [reflexivity|].
    cbn [flat_map]. rewrite !length_app.
    rewrite IH by (intros p i m v Hin; apply (H p i m v); by right).
    f_equal. destruct item as [| | | | | |path_item]; try reflexivity.
    apply operations_eq_present. intros m v Hm.
    apply (H path path_item m v); [by left | exact Hm].
Qed.

Lemma tools_at_most_operations_witness :
  path_count (Info (JStr "Untitled") (JStr "unknown") JNull
                   [JStr "https://api.x.com"] 1 2)
  = length (path_entries Examples.pets_doc)
  /\ (length ["listPets"; "createPet"]
      <= operation_count (Info (JStr "Untitled") (JStr "unknown") JNull
                               [JStr "https://api.x.com"] 1 2))%nat.
Proof.
  pose proof (tools_at_most_operations Examples.strict_library written_order Examples.post_first
                "pets" Examples.pets_doc None
                (Server "pets"
                   [Tool "listPets" (JStr EmptyString) []
                      (Handler "get" "/pets" [] [] false
                               "https://api.x.com");
                    Tool "createPet" (JStr EmptyString) []
                      (Handler "post" "/pets" [] [] false
                               "https://api.x.com")])
                ["listPets"; "createPet"]
                (Info (JStr "Untitled") (JStr "unknown") JNull
                      [JStr "https://api.x.com"] 1 2)
                (Permutation_sym (perm_swap _ _ _)) eq_refl eq_refl)
    as (H1 & H2 & _).
  by split.
Defined.

End InfoFacts.

(** ** Further properties: the control plane and the registry *)

Module PlaneFacts.
Import PyStr Py Registry ControlPlane ReadingRegistry ReadingEngine More
       Views RegistryFacts.

Lemma exists_lookup {App} (reg : SpecRegistry App) (n : string) :
  exists_ reg n = match _specs reg !! n with
                  | Some _ => true
                  | None => false
                  end.
Proof.
  unfold exists_. destruct (_specs reg !! n) eqn:E.
  - apply bool_decide_eq_true. by eexists.
  - apply bool_decide_eq_false. by intros [? ?].
Qed.

(** What the four operations of the registry do to the two tables. *)
Lemma register_tables {App} (reg reg' : SpecRegistry App) (n raw : string)
    (spec : dict) (src : SourceType) (o : option string)
    (st : ValidationStatus) (errs : list string) (entry : SpecEntry) :
  register reg n raw spec src o st errs = Ok (reg', entry) ->
  _specs reg !! n = None
  /\ entry = Entry n src raw spec false st errs o []
  /\ reg' = Reg (<[n := entry]> (_specs reg)) (_mcp_apps reg).
Proof.
  unfold register. rewrite exists_lookup.
  destruct (_specs reg !! n); [discriminate|]. by intros [= <- <-].
Qed.

Lemma enable_tables {App} (reg reg' : SpecRegistry App) (n : string)
    (app : App) (names : list string) :
  enable reg n app names = Ok reg' ->
  exists entry,
    _specs reg !! n = Some entry
    /\ reg' = Reg (<[n := Entry (name entry) (source_type entry)
                           (raw_text entry) (parsed_spec entry) true
                           (validation_status entry)
                           (validation_errors entry)
                           (base_url_override entry) names]>
                    (_specs reg))
                  (<[n := app]> (_mcp_apps reg)).
Proof.
  unfold enable, get_or_raise, get.
  destruct (_specs reg !! n) as [entry|]; [|discriminate].
  cbn [mbind result_bind]. intros [= <-]. by exists entry.
Qed.

Lemma disable_tables {App} (reg : SpecRegistry App) (n : string) :
  disable reg n
  = match _specs reg !! n with
    | Some entry =>
        Ok (Reg (<[n := Entry (name entry) (source_type entry)
                           (raw_text entry) (parsed_spec entry) false
                           (validation_status entry)
                           (validation_errors entry)
                           (base_url_override entry) []]>
                   (_specs reg))
                (base.delete n (_mcp_apps reg)))
    | None => Raise KeyError
    end.
Proof.
  unfold disable, get_or_raise, get. by destruct (_specs reg !! n).
Qed.

Lemma delete_tables {App} (reg : SpecRegistry App) (n : string) :
  delete reg n
  = match _specs reg !! n with
    | Some entry =>
        Ok (Reg (base.delete n (_specs reg)) (base.delete n (_mcp_apps reg)))
    | None => Raise KeyError
    end.
Proof.
  unfold delete. rewrite exists_lookup, disable_tables.
  destruct (_specs reg !! n); [|reflexivity].
  cbn [negb mbind result_bind _specs _mcp_apps].
  by rewrite delete_insert_eq.
Qed.

Section Plane.

Variable lib : Library.
Variable http_methods : list string.
Variable detect_and_parse : string -> result dict.

(** X13: a control-plane request that is not answered with
    status 200 leaves the registry as it was. *)
Theorem failed_request_changes_nothing (reg : registry) (o : op) :
  answer lib http_methods detect_and_parse reg o <> HTTP 200 ->
  apply lib http_methods detect_and_parse reg o = reg.
Proof.
  destruct o as [n content ov|n|n|n]; cbn [answer apply].
  - unfold upload_spec. destruct (exists_ reg n); [done|].
    destruct (Loader.load_from_string detect_and_parse content)
      as [[spec errs]|[]]; try done.
    destruct (register reg n content spec UPLOAD ov _ errs)
      as [[reg' entry]|e]; [|done].
    cbn [fst snd]. congruence.
  - unfold enable_spec. destruct (get reg n) as [entry|]; [|done].
    destruct (bool_decide (validation_status entry = INVALID)); [done|].
    destruct (build_mcp_http_app lib http_methods n (parsed_spec entry)
                (base_url_override entry)) as [[app names]|[]]; try done.
    destruct (enable reg n app names) as [reg'|e]; [|done].
    cbn [fst snd]. congruence.
  - unfold disable_spec. by destruct (disable reg n) as [reg'|[]].
  - unfold delete_spec. by destruct (delete reg n) as [reg'|[]].
Qed.

(** X14: disabling and deleting answer 200 for a registered name
    and 404 otherwise, and nothing else; enabling answers 404 exactly
    for an unregistered name; an upload answers 409 for a taken name
    and otherwise 200 whenever the content parses, also when the
    document fails validation, and 400 when the parser rejects it. *)
Theorem reply_codes (reg : registry) (name : string) :
  snd (disable_spec reg name)
  = (if exists_ reg name then HTTP 200 else HTTP 404)
  /\ snd (delete_spec reg name)
     = (if exists_ reg name then HTTP 200 else HTTP 404)
  /\ (snd (enable_spec lib http_methods reg name) = HTTP 404
      <-> exists_ reg name = false)
  /\ (forall content o,
        snd (upload_spec detect_and_parse reg name content o)
        = if exists_ reg name then HTTP 409
          else match detect_and_parse content with
               | Ok _ => HTTP 200
               | Raise (OpenAPILoadError _) => HTTP 400
               | Raise e => Unhandled e
               end).
Proof.
  split; [|split; [|split]].
  - unfold disable_spec. rewrite disable_tables, exists_lookup.
    by destruct (_specs reg !! name).
  - unfold delete_spec. rewrite delete_tables, exists_lookup.
    by destruct (_specs reg !! name).
  - unfold enable_spec, get. rewrite exists_lookup.
    destruct (_specs reg !! name) as [entry|] eqn:E; [|done].
    split; [|discriminate].
    destruct (bool_decide (validation_status entry = INVALID));
      [discriminate|].
    destruct (build_mcp_http_app lib http_methods name (parsed_spec entry)
                (base_url_override entry)) as [[app names]|[]];
      try discriminate.
    unfold enable, get_or_raise, get. rewrite E. discriminate.
  - intros content o. unfold upload_spec.
    destruct (exists_ reg name) eqn:Ex; [reflexivity|].
    unfold Loader.load_from_string.
    destruct (detect_and_parse content) as [spec|[]]; try reflexivity.
    cbn [mbind result_bind]. unfold register. rewrite Ex. reflexivity.
Qed.

(** X15: an upload answered with 200 stores, under a name that
    was free, an entry that is not enabled and has no tool names; it
    carries the content, the parsed document, the override as given
    and the messages of the validation, and is flagged [INVALID]
    exactly when there is a message.  No application is retrievable
    for it. *)
Theorem upload_registers (reg reg' : registry) (name content : string)
    (base_url_override : option string) :
  upload_spec detect_and_parse reg name content base_url_override
  = (reg', HTTP 200) ->
  exists spec,
    detect_and_parse content = Ok spec
    /\ get reg name = None
    /\ get reg' name
       = Some (Entry name UPLOAD content spec false
                 (match Loader.validate_openapi_spec spec with
                  | [] => VALID
                  | _ :: _ => INVALID
                  end)
                 (Loader.validate_openapi_spec spec)
                 base_url_override [])
    /\ get_mcp_app reg' name = None
    /\ is_enabled reg' name = false.
Proof.
  unfold upload_spec. destruct (exists_ reg name); [discriminate|].
  unfold Loader.load_from_string.
  destruct (detect_and_parse content) as [spec|[]]; try discriminate.
  cbn [mbind result_bind].
  destruct (register reg name content spec UPLOAD base_url_override _ _)
    as [[reg1 entry]|e] eqn:Er; [|discriminate].
  intros [= <-]. apply register_tables in Er as (Hfree & -> & ->).
  exists spec. split; [reflexivity|]. split; [exact Hfree|].
  unfold get, get_mcp_app, is_enabled, get. cbn [_specs].
  rewrite lookup_insert_eq. by repeat split.
Qed.

(** X16: a control-plane request about one name leaves the entry
    and the application of every other name as they were. *)
Theorem other_names_untouched (reg : registry) (o : op) (n : string) :
  n <> target o ->
  get (apply lib http_methods detect_and_parse reg o) n = get reg n
  /\ get_mcp_app (apply lib http_methods detect_and_parse reg o) n
     = get_mcp_app reg n.
Proof.
  intros Hn.
  assert (H : _specs (apply lib http_methods detect_and_parse reg o) !! n
              = _specs reg !! n
              /\ _mcp_apps (apply lib http_methods detect_and_parse reg o) !! n
                 = _mcp_apps reg !! n).
  { destruct o as [m content ov|m|m|m]; cbn [target] in Hn; cbn [apply].
    - unfold upload_spec. destruct (exists_ reg m); [done|].
      destruct (Loader.load_from_string detect_and_parse content)
        as [[spec errs]|[]]; try done.
      destruct (register reg m content spec UPLOAD ov _ errs)
        as [[reg' entry]|e] eqn:Er; [|done].
      apply register_tables in Er as (_ & _ & ->). cbn.
      by rewrite lookup_insert_ne.
    - unfold enable_spec. destruct (get reg m) as [entry|]; [|done].
      destruct (bool_decide (validation_status entry = INVALID)); [done|].
      destruct (build_mcp_http_app lib http_methods m (parsed_spec entry)
                  (base_url_override entry)) as [[app names]|[]]; try done.
      destruct (enable reg m app names) as [reg'|e] eqn:Ee; [|done].
      apply enable_tables in Ee as (entry' & _ & ->). cbn.
      by rewrite !lookup_insert_ne.
    - unfold disable_spec. rewrite disable_tables.
      destruct (_specs reg !! m); [|done]. cbn.
      by rewrite lookup_insert_ne, lookup_delete_ne.
    - unfold delete_spec. rewrite delete_tables.
      destruct (_specs reg !! m); [|done]. cbn.
      by rewrite !lookup_delete_ne. }
  destruct H as [H1 H2]. unfold get_mcp_app, get. by rewrite H1, H2.
Qed.

(** X17: after a delete request the name is free, whether or not
    it was registered: no entry and no application are found under it,
    a second delete is answered with 404 and an upload under the name
    is not refused as a duplicate. *)
Theorem delete_frees_name (reg : registry) (name : string) :
  let reg' := fst (delete_spec reg name) in
  exists_ reg' name = false
  /\ get reg' name = None
  /\ get_mcp_app reg' name = None
  /\ snd (delete_spec reg' name) = HTTP 404
  /\ (forall content o,
        snd (upload_spec detect_and_parse reg' name content o) <> HTTP 409).
Proof.
  cbn zeta.
  assert (H : _specs (fst (delete_spec reg name)) !! name = None).
  { unfold delete_spec. rewrite delete_tables.
    destruct (_specs reg !! name) eqn:E; cbn; [|exact E].
    apply lookup_delete_eq. }
  assert (Hex : exists_ (fst (delete_spec reg name)) name = false)
    by (by rewrite exists_lookup, H).
  split; [exact Hex|]. split; [exact H|].
  split; [unfold get_mcp_app, get; by rewrite H|]. split.
  - unfold delete_spec at 1. by rewrite delete_tables, H.
  - intros content o. unfold upload_spec. rewrite Hex.
    destruct (Loader.load_from_string detect_and_parse content)
      as [[spec errs]|[]]; try done.
    by destruct (register _ name content spec UPLOAD o _ errs) as [[? ?]|?].
Qed.

(** X18: enabling twice and disabling twice give the registry and
    the answer of doing it once. *)
Theorem requests_idempotent (reg : registry) (name : string) :
  enable_spec lib http_methods (fst (enable_spec lib http_methods reg name)) name
  = enable_spec lib http_methods reg name
  /\ disable_spec (fst (disable_spec reg name)) name
     = disable_spec reg name.
Proof.
  split.
  - unfold enable_spec at 2 3.
    destruct (get reg name) as [entry|] eqn:Eg;
      [|cbn [fst]; unfold enable_spec; by rewrite Eg].
    destruct (bool_decide (validation_status entry = INVALID)) eqn:Ei;
      [cbn [fst]; unfold enable_spec; by rewrite Eg, Ei|].
    destruct (build_mcp_http_app lib http_methods name (parsed_spec entry)
                (base_url_override entry)) as [[app names]|e] eqn:Eb.
    + destruct (enable reg name app names) as [reg'|e] eqn:Ee.
      * cbn [fst]. apply enable_tables in Ee as (entry' & El & ->).
        unfold get in Eg. rewrite Eg in El. injection El as <-.
        unfold enable_spec, get. cbn [_specs]. rewrite lookup_insert_eq.
        cbn [validation_status parsed_spec Registry.base_url_override].
        rewrite Ei, Eb. unfold enable, get_or_raise, get. cbn [_specs].
        rewrite lookup_insert_eq. cbn [mbind result_bind].
        cbn [_specs _mcp_apps Registry.name source_type raw_text parsed_spec
             validation_status validation_errors
             Registry.base_url_override].
        by rewrite !insert_insert_eq.
      * cbn [fst]. unfold enable_spec. by rewrite Eg, Ei, Eb, Ee.
    + destruct e; cbn [fst]; unfold enable_spec; by rewrite Eg, Ei, Eb.
  - unfold disable_spec. rewrite (disable_tables reg).
    destruct (_specs reg !! name) as [entry|] eqn:E.
    + cbn [fst]. rewrite disable_tables. cbn [_specs _mcp_apps].
      rewrite lookup_insert_eq.
      cbn [Registry.name source_type raw_text parsed_spec
           validation_status validation_errors Registry.base_url_override].
      by rewrite insert_insert_eq, delete_delete_eq.
    + cbn [fst]. by rewrite disable_tables, E.
Qed.


Lemma build_names (spec_name : string) (spec : dict) (o : option string)
    (mcp : FastMCP) (tool_names : list string) :
  build_mcp_http_app lib http_methods spec_name spec o = Ok (mcp, tool_names) ->
  map t_name (mcp_tools mcp) = tool_names.
Proof.
  unfold build_mcp_http_app, build_mcp_server.
  destruct (resolve_base_url spec o) as [u|e]; [|discriminate].
  cbn [mbind result_bind].
  destruct (dict_get_or spec "paths" (JDict [])) as [| | | | | |entries];
    try discriminate.
  cbn [mbind result_bind].
  destruct (add_paths lib http_methods u ([], []) entries) as [acc|e] eqn:Ea;
    [|discriminate].
  cbn [mbind result_bind]. intros [= <- <-].
  destruct (OrderFacts.add_paths_names _ _ _ _ _ _ Ea) as (new & Hn & Ht & _).
  cbn [mcp_tools]. by rewrite Ht, Hn.
Qed.

(** X20: the detail view answers 404 exactly for an unregistered
    name.  After an enable request answered with 200 it shows the
    entry as enabled, with one name for every registration of the
    application that is now retrievable, in the order of the
    registrations.  These are the names of the tools that the
    application holds, but a name that was registered more than once is
    listed as often and held once: the list is the list of the held
    tools' names when no name is repeated.  After a disable request
    answered with 200 it shows the entry as not enabled and without
    tool names. *)
Theorem detail_follows_requests (reg : registry) (name : string) :
  (get_spec reg name = inr (HTTP 404) <-> get reg name = None)
  /\ (forall reg',
        enable_spec lib http_methods reg name = (reg', HTTP 200) ->
        exists metadata app,
          get_spec reg' name = inl metadata
          /\ md_enabled metadata = true
          /\ get_mcp_app reg' name = Some app
          /\ md_tool_names metadata = map t_name (mcp_tools app)
          /\ (forall n, In n (md_tool_names metadata)
                        <-> In n (map t_name (tool_table app)))
          /\ length (tool_table app) <= length (md_tool_names metadata)
          /\ (List.NoDup (md_tool_names metadata) ->
              md_tool_names metadata = map t_name (tool_table app)))
  /\ (forall reg',
        disable_spec reg name = (reg', HTTP 200) ->
        exists metadata,
          get_spec reg' name = inl metadata
          /\ md_enabled metadata = false
          /\ md_tool_names metadata = []
          /\ get_mcp_app reg' name = None).
Proof.
  split; [|split].
  - unfold get_spec, get_metadata, get_or_raise.
    destruct (get reg name); cbn [mbind result_bind]; split; done.
  - intros reg'. unfold enable_spec.
    destruct (get reg name) as [entry|] eqn:Eg; [|discriminate].
    destruct (bool_decide (validation_status entry = INVALID));
      [discriminate|].
    destruct (build_mcp_http_app lib http_methods name (parsed_spec entry)
                (base_url_override entry)) as [[app names]|[]] eqn:Eb;
      try discriminate.
    destruct (enable reg name app names) as [reg1|e] eqn:Ee;
      [|discriminate].
    intros [= <-]. apply enable_tables in Ee as (entry' & _ & ->).
    eexists _, app. unfold get_spec, get_metadata, get_or_raise, get_mcp_app,
      get. cbn [_specs _mcp_apps]. rewrite !lookup_insert_eq.
    cbn [mbind result_bind enabled negb].
    split; [reflexivity|]. split; [reflexivity|]. split; [reflexivity|].
    cbn [md_tool_names tool_names].
    rewrite <- (build_names _ _ _ _ _ Eb). unfold tool_table.
    split; [reflexivity|]. split; [|split].
    + intros n. rewrite ConvertFacts.table_fold_names. cbn [map In].
      split; [by right | by intros [[]|]].
    + rewrite length_map.
      exact (ConvertFacts.table_fold_length (mcp_tools app) []).
    + intros Hd. by rewrite ConvertFacts.table_fold_fresh.
  - intros reg'. unfold disable_spec. rewrite disable_tables.
    destruct (_specs reg !! name) as [entry|]; [|discriminate].
    intros [= <-]. eexists.
    unfold get_spec, get_metadata, get_or_raise, get_mcp_app, get.
    cbn [_specs _mcp_apps]. rewrite !lookup_insert_eq.
    cbn [mbind result_bind enabled negb]. by repeat split.
Qed.

(** X21: the listing has exactly one item for every registered
    name, enabled or not, and the count of the health check is the
    number of registered names.  An upload answered with 200 raises
    the count by one, a delete answered with 200 lowers it by one, and
    enabling and disabling leave it as it is. *)
Theorem listing_complete (reg : registry) :
  (forall item,
     In item (list_specs reg)
     <-> exists n entry, get reg n = Some entry /\ item = summary entry)
  /\ health_check reg = size (_specs reg)
  /\ (forall name content o reg',
        upload_spec detect_and_parse reg name content o = (reg', HTTP 200) ->
        health_check reg' = S (health_check reg))
  /\ (forall name reg',
        delete_spec reg name = (reg', HTTP 200) ->
        S (health_check reg') = health_check reg)
  /\ (forall name,
        health_check (fst (enable_spec lib http_methods reg name))
        = health_check reg
        /\ health_check (fst (disable_spec reg name)) = health_check reg).
Proof.
  assert (Hsize : forall r : registry, health_check r = size (_specs r)).
  { intros r. unfold health_check, list_all.
    by rewrite !length_fmap, length_map_to_list. }
  split; [|split; [apply Hsize|split; [|split]]].
  - intros item. unfold list_specs, list_all. rewrite <- list_elem_of_In.
    rewrite list_elem_of_fmap. split.
    + intros (entry & -> & Hin). apply list_elem_of_fmap in Hin.
      destruct Hin as ([n e] & -> & Hin).
      apply elem_of_map_to_list in Hin. by exists n, e.
    + intros (n & entry & Hg & ->). exists entry. split; [reflexivity|].
      apply list_elem_of_fmap. exists (n, entry). split; [reflexivity|].
      by apply elem_of_map_to_list.
  - intros name content o reg'. unfold upload_spec.
    destruct (exists_ reg name); [discriminate|].
    destruct (Loader.load_from_string detect_and_parse content)
      as [[spec errs]|[]]; try discriminate.
    destruct (register reg name content spec UPLOAD o _ errs)
      as [[reg1 entry]|e] eqn:Er; [|discriminate].
    intros [= <-]. apply register_tables in Er as (Hfree & _ & ->).
    rewrite !Hsize. cbn [_specs]. by apply map_size_insert_None.
  - intros name reg'. unfold delete_spec. rewrite delete_tables.
    destruct (_specs reg !! name) as [entry|] eqn:E; [|discriminate].
    intros [= <-]. rewrite !Hsize. cbn [_specs].
    pose proof (map_size_insert_None name entry
                  (base.delete name (_specs reg)) (lookup_delete_eq _ _))
      as Hs.
    rewrite insert_delete_id in Hs by exact E. by rewrite Hs.
  - intros name. rewrite !Hsize. split.
    + unfold enable_spec. destruct (get reg name) as [entry|] eqn:Eg;
        [|reflexivity].
      destruct (bool_decide (validation_status entry = INVALID));
        [reflexivity|].
      destruct (build_mcp_http_app lib http_methods name (parsed_spec entry)
                  (base_url_override entry)) as [[app names]|[]];
        try reflexivity.
      destruct (enable reg name app names) as [reg1|e] eqn:Ee;
        [|reflexivity].
      apply enable_tables in Ee as (entry' & El & ->). cbn [fst _specs].
      by apply map_size_insert_Some.
    + unfold disable_spec. rewrite disable_tables.
      destruct (_specs reg !! name) as [entry|] eqn:E; [|reflexivity].
      cbn [fst _specs]. by apply map_size_insert_Some.
Qed.

End Plane.


Lemma failed_request_changes_nothing_witness :
  apply Examples.strict_library written_order Examples.parse_pets MoreExamples.pets_uploaded
        (Register "pets" "again" None)
  = MoreExamples.pets_uploaded.
Proof.
  apply (failed_request_changes_nothing Examples.strict_library written_order Examples.parse_pets
           MoreExamples.pets_uploaded (Register "pets" "again" None)).
  vm_compute. discriminate.
Defined.

Lemma reply_codes_witness :
  snd (enable_spec Examples.strict_library written_order MoreExamples.pets_uploaded "ghost")
  = HTTP 404.
Proof.
  apply (proj2 (proj1 (proj2 (proj2
           (reply_codes Examples.strict_library written_order Examples.parse_pets
              MoreExamples.pets_uploaded "ghost"))))).
  vm_compute. reflexivity.
Defined.

Lemma upload_registers_witness :
  exists spec,
    Examples.parse_pets "..." = Ok spec
    /\ get (empty_registry : registry) "pets" = None
    /\ get MoreExamples.pets_uploaded "pets"
       = Some (Entry "pets" UPLOAD "..." spec false
                 (match Loader.validate_openapi_spec spec with
                  | [] => VALID
                  | _ :: _ => INVALID
                  end)
                 (Loader.validate_openapi_spec spec) None [])
    /\ get_mcp_app MoreExamples.pets_uploaded "pets" = None
    /\ is_enabled MoreExamples.pets_uploaded "pets" = false.
Proof.
  apply (upload_registers Examples.parse_pets empty_registry
           MoreExamples.pets_uploaded "pets" "..." None).
  reflexivity.
Defined.

Lemma other_names_untouched_witness :
  get (apply Examples.strict_library written_order Examples.parse_pets MoreExamples.pets_enabled
             (Delete "store")) "pets"
  = get MoreExamples.pets_enabled "pets"
  /\ get_mcp_app (apply Examples.strict_library written_order Examples.parse_pets
                        MoreExamples.pets_enabled (Delete "store")) "pets"
     = get_mcp_app MoreExamples.pets_enabled "pets".
Proof.
  apply (other_names_untouched Examples.strict_library written_order Examples.parse_pets
           MoreExamples.pets_enabled (Delete "store") "pets").
  discriminate.
Defined.

Lemma delete_frees_name_witness :
  exists_ (fst (delete_spec MoreExamples.pets_enabled "pets")) "pets" = false
  /\ get (fst (delete_spec MoreExamples.pets_enabled "pets")) "pets" = None.
Proof.
  pose proof (delete_frees_name Examples.parse_pets
                MoreExamples.pets_enabled "pets") as (H1 & H2 & _).
  by split.
Defined.

Lemma detail_follows_requests_witness :
  exists metadata app,
    get_spec (fst (enable_spec Examples.strict_library written_order
                     MoreExamples.repeated_uploaded "pets")) "pets"
    = inl metadata
    /\ md_enabled metadata = true
    /\ get_mcp_app (fst (enable_spec Examples.strict_library written_order
                           MoreExamples.repeated_uploaded "pets")) "pets"
       = Some app
    /\ md_tool_names metadata = map t_name (mcp_tools app)
    /\ (forall n, In n (md_tool_names metadata)
                  <-> In n (map t_name (tool_table app)))
    /\ length (tool_table app) <= length (md_tool_names metadata)
    /\ (List.NoDup (md_tool_names metadata) ->
        md_tool_names metadata = map t_name (tool_table app)).
Proof.
  apply (proj1 (proj2 (detail_follows_requests Examples.strict_library
                         written_order MoreExamples.repeated_uploaded
                         "pets"))).
  reflexivity.
Defined.

(** The stored names of a document with a repeated operation
    identifier: two names, one held tool. *)
Lemma repeated_name_listed_twice :
  exists entry app,
    get (fst (enable_spec Examples.strict_library written_order
                MoreExamples.repeated_uploaded "pets")) "pets" = Some entry
    /\ get_mcp_app (fst (enable_spec Examples.strict_library written_order
                           MoreExamples.repeated_uploaded "pets")) "pets"
       = Some app
    /\ tool_names entry = ["x"; "x"]
    /\ map t_name (tool_table app) = ["x"].
Proof. eexists _, _. repeat split. Qed.

Lemma listing_complete_witness :
  S (health_check (fst (delete_spec MoreExamples.pets_enabled "pets")))
  = health_check MoreExamples.pets_enabled.
Proof.
  apply (proj1 (proj2 (proj2 (proj2
           (listing_complete Examples.strict_library written_order Examples.parse_pets
              MoreExamples.pets_enabled)))) "pets").
  reflexivity.
Defined.

End PlaneFacts.

(** ** Further properties: the dispatcher *)

Module RouteFacts.
Import PyStr Py UrlLib Registry ControlPlane Dispatcher ReadingDispatch Aux
       More
       StrFacts DispatchFacts PlaneFacts.

Lemma length_to_chars (s : string) : length (to_chars s) = String.length s.
Proof. induction s as [|c s IH]; [reflexivity|]. cbn. by rewrite IH. Qed.

Lemma starts_with_app (p s : chars) : starts_with p (p ++ s) = true.
Proof.
  induction p as [|a p IH]; [reflexivity|].
  cbn [app starts_with]. by rewrite Ascii.eqb_refl.
Qed.

(** [c in s] for a one-character text. *)
Lemma occurs_single (c : ascii) (s : chars) :
  occurs_in [c] s = negb (free c s).
Proof.
  unfold free, is_char. induction s as [|x s IH]; [reflexivity|].
  cbn [occurs_in starts_with forallb]. rewrite IH.
  rewrite (Ascii.eqb_sym c x).
  destruct (Ascii.eqb x c); destruct s; reflexivity.
Qed.

Lemma split_once_spec (sep : ascii) (s : chars) :
  free sep (fst (split_once sep s)) = true
  /\ s = fst (split_once sep s)
         ++ match snd (split_once sep s) with
            | Some r => sep :: r
            | None => []
            end.
Proof.
  unfold free, is_char. induction s as [|x s [IH1 IH2]]; [done|].
  cbn [split_once]. destruct (Ascii.eqb x sep) eqn:E.
  - apply Ascii.eqb_eq in E. subst x. done.
  - destruct (split_once sep s) as [h t]. cbn [fst snd] in *.
    cbn [forallb]. rewrite E, IH1. split; [reflexivity|].
    cbn [app]. by rewrite <- IH2.
Qed.

Lemma split_once_here (sep : ascii) (h r : chars) :
  free sep h = true -> split_once sep (h ++ sep :: r) = (h, Some r).
Proof.
  unfold free, is_char. induction h as [|x h IH]; cbn [app split_once].
  - by rewrite Ascii.eqb_refl.
  - cbn [forallb]. rewrite andb_true_iff, negb_true_iff. intros [-> Hh].
    by rewrite (IH Hh).
Qed.

Lemma lstrip_keep (c : ascii) (s : chars) :
  starts_with [c] s = false -> lstrip_chars c s = s.
Proof.
  destruct s as [|x s]; [reflexivity|]. cbn [starts_with lstrip_chars].
  rewrite (Ascii.eqb_sym c x). destruct (Ascii.eqb x c); [|reflexivity].
  by destruct s.
Qed.

Lemma rstrip_keep (c : ascii) (s : chars) :
  starts_with [c] (rev s) = false -> rstrip_chars c s = s.
Proof.
  intros H. unfold rstrip_chars. rewrite (lstrip_keep _ _ H).
  apply rev_involutive.
Qed.

Lemma rstrip_end (c : ascii) (s : chars) :
  starts_with [c] (rev (rstrip_chars c s)) = false.
Proof.
  unfold rstrip_chars. rewrite rev_involutive.
  induction (rev s) as [|x l IH]; [reflexivity|].
  cbn [lstrip_chars]. destruct (Ascii.eqb x c) eqn:E; [exact IH|].
  cbn [starts_with]. rewrite Ascii.eqb_sym, E. reflexivity.
Qed.

Lemma forallb_rev' {A} (p : A -> bool) (l : list A) :
  forallb p (rev l) = forallb p l.
Proof.
  induction l as [|x l IH]; [reflexivity|].
  cbn [rev forallb]. rewrite forallb_app, IH. cbn [forallb].
  rewrite andb_true_r. apply andb_comm.
Qed.

(** A word that is free of [c] and not empty neither starts nor ends
    with [c]. *)
Lemma free_ends (c : ascii) (w t : chars) :
  w <> [] -> free c w = true ->
  starts_with [c] (w ++ t) = false /\ starts_with [c] (rev w ++ t) = false.
Proof.
  intros Hne Hf.
  assert (H : forall v, v <> [] -> free c v = true ->
                        starts_with [c] (v ++ t) = false).
  { intros [|x v] Hv Hfv; [done|]. unfold free, is_char in Hfv.
    cbn [forallb] in Hfv. apply andb_true_iff in Hfv as [Hx _].
    apply negb_true_iff in Hx. cbn [app starts_with].
    by rewrite Ascii.eqb_sym, Hx. }
  split; [by apply H|]. apply H.
  - intros E. apply Hne. by rewrite <- (rev_involutive w), E.
  - unfold free in *. by rewrite forallb_rev'.
Qed.

(** The two parts of [/name/rest] and of [/name]. *)
Lemma parts_of_mounted (name rest : chars) :
  name <> [] -> free "/" name = true ->
  starts_with ["/"%char] (rev rest) = false ->
  split_once "/" (strip_chars "/" ("/"%char :: name ++ "/"%char :: rest))
  = (name, match rest with [] => None | _ :: _ => Some rest end).
Proof.
  intros Hne Hf Hr. unfold strip_chars.
  change (lstrip_chars "/" ("/"%char :: name ++ "/"%char :: rest))
    with (lstrip_chars "/" (name ++ "/"%char :: rest)).
  rewrite lstrip_keep by (by apply free_ends).
  destruct rest as [|x rest].
  - unfold rstrip_chars. rewrite rev_app_distr.
    change (rev ["/"%char] ++ rev name) with ("/"%char :: rev name).
    change (lstrip_chars "/" ("/"%char :: rev name))
      with (lstrip_chars "/" (rev name)).
    rewrite lstrip_keep.
    + rewrite rev_involutive. by apply UrlFacts.split_once_absent.
    + rewrite <- (app_nil_r (rev name)). by apply free_ends.
  - rewrite rstrip_keep.
    + by apply split_once_here.
    + rewrite rev_app_distr. cbn [rev] in *. rewrite <- !app_assoc in *.
      destruct (rev rest) as [|y l]; [exact Hr|exact Hr].
Qed.

Lemma parts_of_bare (name : chars) :
  name <> [] -> free "/" name = true ->
  split_once "/" (strip_chars "/" ("/"%char :: name)) = (name, None).
Proof.
  intros Hne Hf. unfold strip_chars.
  change (lstrip_chars "/" ("/"%char :: name)) with (lstrip_chars "/" name).
  rewrite lstrip_keep
    by (rewrite <- (app_nil_r name); by apply free_ends).
  rewrite rstrip_keep
    by (rewrite <- (app_nil_r (rev name)); by apply free_ends).
  by apply UrlFacts.split_once_absent.
Qed.

(** The path that is left when the mount prefix is removed. *)
Lemma local_path_mounted (ty root tail : string) :
  startswith tail "/" = true ->
  local_path (Scope ty (Some (root +:+ tail)) (Some root)) = tail.
Proof.
  intros Ht. unfold local_path.
  cbn [sc_path sc_root_path default from_option id].
  destruct (String.eqb root EmptyString) eqn:E.
  - apply String.eqb_eq in E. subst root. cbn [negb andb].
    change (EmptyString +:+ tail) with tail. by rewrite Ht.
  - assert (Hs : startswith (root +:+ tail) root = true).
    { unfold startswith. rewrite chars_app. apply starts_with_app. }
    rewrite Hs. cbn [negb andb].
    rewrite <- length_to_chars, chars_app, drop_app_length, UrlFacts.of_to_chars.
    by rewrite Ht.
Qed.

Section Apps.

Variable App : Type.

(** The dispatcher in terms of the first segment. *)
Lemma call_by_name (reg : SpecRegistry App) (sc : scope) :
  is_request sc = true -> first_segment sc <> EmptyString ->
  call reg sc
  = match get_mcp_app reg (first_segment sc) with
    | None =>
        match get reg (first_segment sc) with
        | None => Responded 404 (not_found (first_segment sc))
        | Some _ => Responded 404 (not_enabled (first_segment sc))
        end
    | Some mcp_app =>
        Forwarded (first_segment sc) mcp_app
          ("/" +:+ default EmptyString (snd (path_parts (local_path sc))))
          (default EmptyString (sc_root_path sc) +:+ "/"
           +:+ first_segment sc)
    end.
Proof.
  unfold is_request, first_segment, call. intros -> Hn. cbn [negb].
  destruct (path_parts (local_path sc)) as [spec_name rest].
  cbn [fst snd] in *.
  destruct (String.eqb spec_name EmptyString) eqn:E; [|reflexivity].
  apply String.eqb_eq in E. contradiction.
Qed.

(** X22: a request for [root/name/rest], where [root] is the
    mount prefix, [name] is not empty and has no slash and [rest] does
    not end with a slash, is forwarded to the application that is
    retrievable for [name]: with the path [/rest] and with the root
    path [root/name].  A request for [root/name] is forwarded with the
    path [/]. *)
Theorem dispatch_round_trip (reg : SpecRegistry App) (ty root name rest
    : string) (app : App) :
  ty = "http" \/ ty = "websocket" ->
  name <> EmptyString ->
  contains name "/" = false ->
  endswith rest "/" = false ->
  get_mcp_app reg name = Some app ->
  call reg (Scope ty (Some (root +:+ "/" +:+ name +:+ "/" +:+ rest))
                  (Some root))
  = Forwarded name app ("/" +:+ rest) (root +:+ "/" +:+ name)
  /\ call reg (Scope ty (Some (root +:+ "/" +:+ name)) (Some root))
     = Forwarded name app "/" (root +:+ "/" +:+ name).
Proof.
  intros Hty Hne Hfree Hrest Happ.
  assert (Hn : to_chars name <> []).
  { intros E. apply Hne. by rewrite <- (UrlFacts.of_to_chars name), E. }
  assert (Hf : free "/" (to_chars name) = true).
  { unfold contains in Hfree. change (to_chars "/") with ["/"%char] in Hfree.
    rewrite occurs_single in Hfree. by apply negb_false_iff in Hfree. }
  assert (Hreq : forall p,
            is_request (Scope ty (Some p) (Some root)) = true).
  { intros p. unfold is_request. cbn [sc_type].
    by destruct Hty as [-> | ->]. }
  split.
  - assert (Hp : path_parts
                   (local_path
                      (Scope ty (Some (root +:+ "/" +:+ name +:+ "/" +:+ rest))
                             (Some root)))
                 = (name, match to_chars rest with
                          | [] => None
                          | _ :: _ => Some rest
                          end)).
    { rewrite local_path_mounted by reflexivity.
      unfold path_parts. rewrite !chars_app.
      change (to_chars "/" ++ to_chars name ++ to_chars "/" ++ to_chars rest)
        with ("/"%char :: to_chars name ++ "/"%char :: to_chars rest).
      rewrite parts_of_mounted by assumption. rewrite UrlFacts.of_to_chars.
      destruct (to_chars rest) eqn:Er; [reflexivity|].
      cbn [fmap option_fmap option_map]. by rewrite <- Er, UrlFacts.of_to_chars. }
    rewrite call_by_name.
    + unfold first_segment. rewrite Hp. cbn [fst snd sc_root_path default from_option id].
      rewrite Happ. f_equal.
      destruct (to_chars rest) eqn:Er; [|reflexivity].
      cbn [default from_option id]. by rewrite <- (UrlFacts.of_to_chars rest), Er.
    + apply Hreq.
    + unfold first_segment. by rewrite Hp.
  - assert (Hp : path_parts
                   (local_path
                      (Scope ty (Some (root +:+ "/" +:+ name)) (Some root)))
                 = (name, None)).
    { rewrite local_path_mounted by reflexivity.
      unfold path_parts. rewrite !chars_app.
      change (to_chars "/" ++ to_chars name)
        with ("/"%char :: to_chars name).
      rewrite parts_of_bare by assumption. by rewrite UrlFacts.of_to_chars. }
    rewrite call_by_name.
    + unfold first_segment. rewrite Hp. cbn [fst snd sc_root_path default from_option id].
      by rewrite Happ.
    + apply Hreq.
    + unfold first_segment. by rewrite Hp.
Qed.

(** X23: whenever the dispatcher forwards a request, the name
    is the first segment of the path, is not empty and has no slash,
    and the application is the one retrievable for it; the forwarded
    path starts with a slash and is either [/] or does not end with a
    slash, so that a trailing slash of the request is not passed on;
    the forwarded root path is the inbound one followed by a slash and
    the name. *)
Theorem forwarded_shape (reg : SpecRegistry App) (sc : scope)
    (name : string) (app : App) (path root_path : string) :
  call reg sc = Forwarded name app path root_path ->
  name = first_segment sc
  /\ name <> EmptyString
  /\ contains name "/" = false
  /\ get_mcp_app reg name = Some app
  /\ startswith path "/" = true
  /\ (path = "/" \/ endswith path "/" = false)
  /\ root_path = default EmptyString (sc_root_path sc) +:+ "/" +:+ name.
Proof.
  unfold call, first_segment, path_parts.
  destruct (negb _); [discriminate|].
  pose proof (split_once_spec "/"
                (strip_chars "/" (to_chars (local_path sc)))) as [Hf Hs].
  pose proof (rstrip_end "/"
                (lstrip_chars "/" (to_chars (local_path sc)))) as He.
  fold (strip_chars "/" (to_chars (local_path sc))) in He.
  destruct (split_once "/" (strip_chars "/" (to_chars (local_path sc))))
    as [h t]. cbn [fst snd] in *.
  destruct (String.eqb (of_chars h) EmptyString) eqn:E; [discriminate|].
  destruct (get_mcp_app reg (of_chars h)) as [a|] eqn:Ea.
  2: { destruct (get reg (of_chars h)); discriminate. }
  intros [= <- <- <- <-].
  split; [reflexivity|]. split.
  { intros E'. rewrite E' in E. discriminate. }
  split.
  { unfold contains. rewrite UrlFacts.to_of_chars. change (to_chars "/") with ["/"%char].
    rewrite occurs_single. by rewrite Hf. }
  split; [exact Ea|]. split; [reflexivity|]. split; [|reflexivity].
  destruct t as [r|]; [right|by left].
  cbn [fmap option_fmap option_map default from_option id]. unfold endswith.
  rewrite chars_app, UrlFacts.to_of_chars. change (to_chars "/") with ["/"%char].
  cbn [rev app]. rewrite Hs in He. rewrite rev_app_distr in He.
  cbn [rev] in He. rewrite <- !app_assoc in He. cbn [app] in He.
  destruct (rev r) as [|x l]; [|exact He].
  cbn [app starts_with] in He. discriminate He.
Qed.

End Apps.

Lemma dispatch_round_trip_witness :
  exists app,
    call MoreExamples.pets_enabled
         (Scope "http" (Some "/mcp/pets/sse") (Some "/mcp"))
    = Forwarded "pets" app "/sse" "/mcp/pets".
Proof.
  destruct (get_mcp_app MoreExamples.pets_enabled "pets") as [app|] eqn:E;
    [|discriminate E].
  exists app.
  apply (proj1 (dispatch_round_trip FastMCP MoreExamples.pets_enabled
                  "http" "/mcp" "pets" "sse" app
                  (or_introl eq_refl) ltac:(discriminate) eq_refl eq_refl
                  E)).
Defined.

Lemma forwarded_shape_witness :
  exists app,
    "pets" = first_segment
               (Scope "http" (Some "/mcp/pets/sse/") (Some "/mcp"))
    /\ "pets" <> EmptyString
    /\ contains "pets" "/" = false
    /\ get_mcp_app MoreExamples.pets_enabled "pets" = Some app
    /\ startswith "/sse" "/" = true
    /\ ("/sse" = "/" \/ endswith "/sse" "/" = false)
    /\ "/mcp/pets" = default EmptyString (Some "/mcp") +:+ "/" +:+ "pets".
Proof.
  destruct (get_mcp_app MoreExamples.pets_enabled "pets") as [app|] eqn:E;
    [|discriminate E].
  exists app.
  assert (H : call MoreExamples.pets_enabled
                (Scope "http" (Some "/mcp/pets/sse/") (Some "/mcp"))
              = Forwarded "pets" app "/sse" "/mcp/pets").
  { unfold call. cbn [sc_type String.eqb Ascii.eqb Bool.eqb negb orb].
    vm_compute path_parts. cbv iota beta. cbn [String.eqb].
    rewrite E. reflexivity. }
  pose proof (forwarded_shape FastMCP MoreExamples.pets_enabled _ _ _ _ _ H)
    as Hs.
  rewrite E in Hs. exact Hs.
Defined.

Section Plane.

Variable lib : Library.
Variable http_methods : list string.
Variable detect_and_parse : string -> result dict.

(** X24: what the dispatcher answers to a request for a name
    follows the last control-plane request about that name that was
    answered with 200: after an enable it forwards to the application
    that is now retrievable; after a disable, and after an upload, it
    answers 404 with the message that the spec is not enabled; after
    a delete it answers 404 with the message that the spec is not
    found. *)
Theorem dispatch_follows_requests (reg : registry) (sc : scope) :
  is_request sc = true ->
  first_segment sc <> EmptyString ->
  (forall reg',
     enable_spec lib http_methods reg (first_segment sc) = (reg', HTTP 200) ->
     exists app path root_path,
       get_mcp_app reg' (first_segment sc) = Some app
       /\ call reg' sc = Forwarded (first_segment sc) app path root_path)
  /\ (forall reg',
        disable_spec reg (first_segment sc) = (reg', HTTP 200) ->
        call reg' sc = Responded 404 (not_enabled (first_segment sc)))
  /\ (forall reg',
        delete_spec reg (first_segment sc) = (reg', HTTP 200) ->
        call reg' sc = Responded 404 (not_found (first_segment sc)))
  /\ (forall reg' content o,
        upload_spec detect_and_parse reg (first_segment sc) content o
        = (reg', HTTP 200) ->
        call reg' sc = Responded 404 (not_enabled (first_segment sc))).
Proof.
  intros Hreq Hne. set (name := first_segment sc) in *.
  split; [|split; [|split]].
  - intros reg'. unfold enable_spec.
    destruct (get reg name) as [entry|] eqn:Eg; [|discriminate].
    destruct (bool_decide (validation_status entry = INVALID));
      [discriminate|].
    destruct (build_mcp_http_app lib http_methods name (parsed_spec entry)
                (base_url_override entry)) as [[app names]|[]];
      try discriminate.
    destruct (enable reg name app names) as [reg1|e] eqn:Ee;
      [|discriminate].
    intros [= <-]. apply enable_tables in Ee as (entry' & _ & ->).
    assert (Ha : get_mcp_app
                   (Reg (<[name := Entry (Registry.name entry')
                                   (source_type entry') (raw_text entry')
                                   (parsed_spec entry') true
                                   (validation_status entry')
                                   (validation_errors entry')
                                   (base_url_override entry') names]>
                           (_specs reg))
                        (<[name := app]> (_mcp_apps reg))) name
                 = Some app).
    { unfold get_mcp_app, get. cbn [_specs _mcp_apps].
      rewrite lookup_insert_eq. cbn [enabled negb].
      apply lookup_insert_eq. }
    exists app. rewrite (call_by_name _ _ sc Hreq Hne). fold name.
    rewrite Ha. by eexists _, _.
  - intros reg'. unfold disable_spec. rewrite disable_tables.
    destruct (_specs reg !! name) as [entry|]; [|discriminate].
    intros [= <-]. rewrite (call_by_name _ _ sc Hreq Hne). fold name.
    unfold get_mcp_app, get. cbn [_specs _mcp_apps].
    by rewrite lookup_insert_eq.
  - intros reg'. unfold delete_spec. rewrite delete_tables.
    destruct (_specs reg !! name) as [entry|]; [|discriminate].
    intros [= <-]. rewrite (call_by_name _ _ sc Hreq Hne). fold name.
    unfold get_mcp_app, get. cbn [_specs _mcp_apps].
    by rewrite lookup_delete_eq.
  - intros reg' content o. unfold upload_spec.
    destruct (exists_ reg name); [discriminate|].
    destruct (Loader.load_from_string detect_and_parse content)
      as [[spec errs]|[]]; try discriminate.
    destruct (register reg name content spec UPLOAD o _ errs)
      as [[reg1 entry]|e] eqn:Er; [|discriminate].
    intros [= <-]. apply register_tables in Er as (_ & -> & ->).
    rewrite (call_by_name _ _ sc Hreq Hne). fold name.
    unfold get_mcp_app, get. cbn [_specs _mcp_apps].
    by rewrite lookup_insert_eq.
Qed.

End Plane.

Lemma dispatch_follows_requests_witness :
  call (fst (disable_spec MoreExamples.pets_enabled "pets"))
       (Scope "http" (Some "/mcp/pets/sse") (Some "/mcp"))
  = Responded 404 (not_enabled "pets").
Proof.
  apply (proj1 (proj2 (dispatch_follows_requests Examples.strict_library written_order
                         Examples.parse_pets MoreExamples.pets_enabled
                         (Scope "http" (Some "/mcp/pets/sse") (Some "/mcp"))
                         eq_refl ltac:(discriminate)))).
  reflexivity.
Defined.

End RouteFacts.

(** ** Further properties: the lifespans *)

Module LifeFacts.
Import Lifespan ReadingLifespan LifespanMore LifespanStop LifespanFacts.

Lemma boot_idle (names : list string) : idle (boot names).
Proof. intros t n pc H. cbn in H. by rewrite lookup_nil in H. Qed.

Lemma idle_set_caller (w : world) (i : nat) (pc : caller_pc) :
  idle w -> idle (set_caller i pc w).
Proof.
  intros H. unfold set_caller. by destruct (callers w !! i) as [[n old]|].
Qed.

(** A task changes its place, neither to serve on another event nor
    with a change of the cleanup events. *)
Lemma idle_set_task (w w0 : world) (t : nat) (n : string) (old pc : task_pc) :
  idle w -> tasks w !! t = Some (n, old) ->
  tasks w0 = tasks w ->
  (forall k, events w0 !! (2 * k) = events w !! (2 * k)) ->
  (forall c, pc = Serving c -> c = 2 * t) ->
  idle (set_task t pc w0).
Proof.
  intros Hi Hold Htk Hev Hpc. unfold set_task. rewrite Htk, Hold.
  assert (Hlt : t < length (tasks w)) by (by eapply lookup_lt_Some).
  intros t' m pc' Hm. cbn [tasks events manager callers] in *.
  rewrite Hev.
  destruct (decide (t = t')) as [<-|Hne].
  - rewrite list_lookup_insert_eq in Hm by done. injection Hm as <- <-.
    split; [by apply (Hi t n old)|exact Hpc].
  - rewrite list_lookup_insert_ne in Hm by done. by apply (Hi t' m pc').
Qed.

Lemma signal_events (w w' : world) (t : nat) (n : string) (pc : task_pc) :
  wf w -> tasks w !! t = Some (n, pc) -> signal n w = Some w' ->
  w' = World (manager w) (<[2 * t + 1 := true]> (events w)) (tasks w)
             (callers w).
Proof.
  intros Hw Ht. unfold signal.
  destruct (wf_tables w Hw n t (wf_tasks w Hw t n pc Ht)) as [_ ->].
  by intros [= <-].
Qed.

Lemma odd_insert (ev : list bool) (t k : nat) :
  <[2 * t + 1 := true]> ev !! (2 * k) = ev !! (2 * k).
Proof. apply list_lookup_insert_ne. lia. Qed.

Lemma exec_idle (l : label) (w w' : world) :
  wf w -> idle w -> exec l w = Some w' -> idle w'.
Proof.
  intros Hw Hi. destruct l as [i|t|t|t|t|t]; cbn [exec].
  - destruct (callers w !! i) as [[n [|e| |]]|] eqn:Hc; try done.
    + intros [= <-]. unfold enter.
      destruct (_started (manager w) !! n) as [t|] eqn:Est.
      * destruct (_initialized (manager w) !! n); by apply idle_set_caller.
      * apply idle_set_caller. intros t m pc Hm.
        cbn [tasks events] in Hm |- *.
        pose proof (wf_events w Hw) as He.
        apply lookup_app_Some in Hm as [Hm|[Hge Hm]].
        -- destruct (Hi t m pc Hm) as [H1 H2]. split; [|exact H2].
           by apply lookup_app_l_Some.
        -- destruct (t - length (tasks w)) as [|k] eqn:Ek; [|done].
           injection Hm as <- <-. split; [|done].
           assert (2 * t = length (events w)) as -> by lia.
           by rewrite list_lookup_middle.
    + destruct (events w !! e) as [[|]|]; try done.
      intros [= <-]. by apply idle_set_caller.
  - destruct (tasks w !! t) as [[n []]|] eqn:Htk; try done.
    intros [= <-].
    by apply (idle_set_task w w t n Created Starting).
  - destruct (tasks w !! t) as [[n []]|] eqn:Htk; try done.
    destruct (signal_defined w t n _ Hw Htk) as [w1 Hs1]. rewrite Hs1.
    pose proof (signal_events _ _ _ _ _ Hw Htk Hs1) as ->. cbn [manager].
    destruct (wf_tables w Hw n t (wf_tasks w Hw t n _ Htk)) as [-> _].
    intros [= <-].
    apply (idle_set_task w _ t n Starting); try done.
    + intros k. apply odd_insert.
    + by intros c [= <-].
  - destruct (tasks w !! t) as [[n []]|] eqn:Htk; try done.
    intros [= <-]. unfold handle_failure.
    destruct (signal_defined w t n _ Hw Htk) as [w1 Hs1]. rewrite Hs1.
    pose proof (signal_events _ _ _ _ _ Hw Htk Hs1) as ->.
    cbn [default from_option id].
    apply (idle_set_task w _ t n Starting); try done.
    intros k. apply odd_insert.
  - destruct (tasks w !! t) as [[n [| |c|]]|] eqn:Htk; try done.
    destruct (Hi t n _ Htk) as [Hf Hc]. rewrite (Hc c eq_refl), Hf. done.
  - destruct (tasks w !! t) as [[n [| |c|]]|] eqn:Htk; try done.
    destruct (Hi t n _ Htk) as [Hf Hc]. rewrite (Hc c eq_refl), Hf. done.
Qed.

Lemma run_idle (schedule : list label) (w w' : world) :
  wf w -> idle w -> run schedule w = Some w' -> wf w' /\ idle w'.
Proof.
  revert w. induction schedule as [|l schedule IH]; intros w Hw Hi.
  - by intros [= <-].
  - cbn [run]. destruct (exec l w) as [w1|] eqn:E; [|done].
    apply IH; [by eapply exec_wf | by eapply exec_idle].
Qed.

(** X25: without a call of [stop] the shutdown of a lifespan
    never runs: in every world reached from a fresh manager by calls of
    [ensure_started], no cleanup event is set, no task can take its
    shutdown step, and a task that has completed its startup is
    serving. *)
Theorem no_shutdown_without_stop (names : list string)
    (schedule : list label) (w : world) :
  run schedule (boot names) = Some w ->
  forall t,
    exec (Shutdown t) w = None
    /\ exec (ShutdownRaises t) w = None
    /\ (forall n c, tasks w !! t = Some (n, Serving c) ->
                    events w !! c = Some false
                    /\ _cleanup_events (manager w) !! n = Some c).
Proof.
  intros Hrun t.
  destruct (run_idle _ _ _ (boot_wf names) (boot_idle names) Hrun)
    as [Hw Hi].
  cbn [exec]. destruct (tasks w !! t) as [[n pc]|] eqn:Htk; [|done].
  destruct (Hi t n pc Htk) as [Hf Hc].
  destruct pc as [| |c|]; try done.
  pose proof (Hc c eq_refl) as ->. rewrite Hf.
  split; [reflexivity|]. split; [reflexivity|].
  intros n' c' [= <- <-]. split; [exact Hf|].
  by destruct (wf_tables w Hw n t (wf_tasks w Hw t n _ Htk)) as [-> _].
Qed.

Lemma no_shutdown_without_stop_witness :
  exec (Shutdown 0) Examples.after_three_calls = None
  /\ exec (ShutdownRaises 0) Examples.after_three_calls = None
  /\ (forall n c,
        tasks Examples.after_three_calls !! 0 = Some (n, Serving c) ->
        events Examples.after_three_calls !! c = Some false
        /\ _cleanup_events (manager Examples.after_three_calls) !! n
           = Some c).
Proof.
  apply (no_shutdown_without_stop ["a"; "a"; "a"] Examples.three_calls
           Examples.after_three_calls eq_refl 0).
Defined.



(** *** Every schedule is finite *)

Lemma sum_insert {A} (f : A -> nat) (l : list A) (i : nat) (x old : A) :
  l !! i = Some old ->
  sum_list_with f (<[i := x]> l) + f old = sum_list_with f l + f x.
Proof.
  revert i. induction l as [|y l IH]; intros [|i] H; try done.
  - injection H as ->. cbn. lia.
  - specialize (IH i H).
    change (<[S i := x]> (y :: l)) with (y :: <[i := x]> l).
    cbn [sum_list_with]. lia.
Qed.

Lemma potential_set_caller (w : world) (i : nat) (n : string)
    (old pc : caller_pc) :
  callers w !! i = Some (n, old) ->
  potential (set_caller i pc w) + caller_weight (n, old)
  = potential w + caller_weight (n, pc).
Proof.
  intros H. unfold set_caller, potential. rewrite H. cbn [callers tasks].
  pose proof (sum_insert caller_weight (callers w) i (n, pc) (n, old) H).
  lia.
Qed.

Lemma potential_set_task (w : world) (t : nat) (n : string)
    (old pc : task_pc) :
  tasks w !! t = Some (n, old) ->
  potential (set_task t pc w) + task_weight (n, old)
  = potential w + task_weight (n, pc).
Proof.
  intros H. unfold set_task, potential. rewrite H. cbn [callers tasks].
  pose proof (sum_insert task_weight (tasks w) t (n, pc) (n, old) H).
  lia.
Qed.

(** Every step uses up some of the potential. *)
Lemma exec_potential (l : label) (w w' : world) :
  wf w -> idle w -> exec l w = Some w' -> potential w' < potential w.
Proof.
  intros Hw Hi. destruct l as [i|t|t|t|t|t]; cbn [exec].
  - destruct (callers w !! i) as [[n [|e| |]]|] eqn:Hc; try done.
    + intros [= <-]. unfold enter.
      destruct (_started (manager w) !! n) as [t|].
      * destruct (_initialized (manager w) !! n);
          match goal with
          | |- potential (set_caller i ?pc w) < _ =>
              pose proof (potential_set_caller w i n Entry pc Hc) as H
          end; unfold caller_weight, task_weight in H; cbn [snd] in H; lia.
      * match goal with
        | |- potential (set_caller i ?pc ?w1) < _ =>
            pose proof (potential_set_caller w1 i n Entry pc Hc) as H;
            assert (H1 : potential w1 = potential w + 2)
        end.
        { unfold potential. cbn [callers tasks].
          rewrite sum_list_with_app.
          change (sum_list_with task_weight [(n, Created)]) with 2. lia. }
        unfold caller_weight, task_weight in H; cbn [snd] in H. lia.
    + destruct (events w !! e) as [[|]|]; try done. intros [= <-].
      pose proof (potential_set_caller w i n (Waiting e) Returned Hc) as H.
      unfold caller_weight, task_weight in H; cbn [snd] in H. lia.
  - destruct (tasks w !! t) as [[n []]|] eqn:Htk; try done.
    intros [= <-].
    pose proof (potential_set_task w t n Created Starting Htk) as H.
    unfold caller_weight, task_weight in H; cbn [snd] in H. lia.
  - destruct (tasks w !! t) as [[n []]|] eqn:Htk; try done.
    destruct (signal_defined w t n _ Hw Htk) as [w1 Hs1]. rewrite Hs1.
    pose proof (signal_events _ _ _ _ _ Hw Htk Hs1) as ->. cbn [manager].
    destruct (_cleanup_events (manager w) !! n) as [c|]; intros [= <-];
      match goal with
      | |- potential (set_task t ?pc ?w1) < _ =>
          pose proof (potential_set_task w1 t n Starting pc Htk) as H
      end; unfold caller_weight, task_weight in H; cbn [snd] in H; unfold potential in *; cbn [callers tasks] in *; lia.
  - destruct (tasks w !! t) as [[n []]|] eqn:Htk; try done.
    intros [= <-]. unfold handle_failure.
    destruct (signal_defined w t n _ Hw Htk) as [w1 Hs1]. rewrite Hs1.
    pose proof (signal_events _ _ _ _ _ Hw Htk Hs1) as ->.
    cbn [default from_option id].
    match goal with
    | |- potential (set_task t ?pc ?w1) < _ =>
        pose proof (potential_set_task w1 t n Starting pc Htk) as H
    end.
    unfold caller_weight, task_weight in H; cbn [snd] in H. unfold potential in *. cbn [callers tasks] in *. lia.
  - destruct (tasks w !! t) as [[n [| |c|]]|] eqn:Htk; try done.
    destruct (Hi t n _ Htk) as [Hf Hc]. rewrite (Hc c eq_refl), Hf. done.
  - destruct (tasks w !! t) as [[n [| |c|]]|] eqn:Htk; try done.
    destruct (Hi t n _ Htk) as [Hf Hc]. rewrite (Hc c eq_refl), Hf. done.
Qed.

Lemma run_potential (schedule : list label) (w w' : world) :
  wf w -> idle w -> run schedule w = Some w' ->
  length schedule + potential w' <= potential w.
Proof.
  revert w. induction schedule as [|l schedule IH]; intros w Hw Hi.
  - intros [= <-]. cbn. lia.
  - cbn [run]. destruct (exec l w) as [w1|] eqn:E; [|done]. intros H.
    pose proof (exec_potential _ _ _ Hw Hi E).
    pose proof (IH w1 (exec_wf _ _ _ Hw E) (exec_idle _ _ _ Hw Hi E) H).
    cbn [length]. lia.
Qed.

Lemma potential_boot (names : list string) :
  potential (boot names) = 4 * length names.
Proof.
  unfold potential, boot. cbn [callers tasks sum_list_with].
  induction names as [|n names IH]; [reflexivity|].
  cbn [map sum_list_with length]. unfold caller_weight at 1. cbn [snd].
  lia.
Qed.

(** X27: N concurrent calls of [ensure_started] on a fresh manager
    and the tasks they make take at most 4 N steps together, whatever
    the scheduler chooses: no schedule goes on for ever. *)
Theorem schedules_bounded (names : list string) (schedule : list label)
    (w : world) :
  run schedule (boot names) = Some w ->
  length schedule <= 4 * length names.
Proof.
  intros Hrun.
  pose proof (run_potential _ _ _ (boot_wf names) (boot_idle names) Hrun).
  rewrite potential_boot in H. lia.
Qed.

Lemma schedules_bounded_witness :
  length Examples.three_calls <= 4 * length ["a"; "a"; "a"].
Proof.
  apply (schedules_bounded ["a"; "a"; "a"] Examples.three_calls
           Examples.after_three_calls eq_refl).
Defined.

(** *** The outcome of a startup *)

(** A call that waits for a name whose task is past its [set()] can
    return. *)
Lemma released (w : world) (t i : nat) (n : string) (pc : task_pc)
    (e : nat) :
  wf w -> tasks w !! t = Some (n, pc) -> signalled pc = true ->
  callers w !! i = Some (n, Waiting e) ->
  exists w', exec (Call i) w = Some w'
             /\ callers w' !! i = Some (n, Returned).
Proof.
  intros Hw Ht Hs Hc. cbn [exec]. rewrite Hc.
  destruct (wf_callers w Hw i n _ Hc) as (t' & Hst & ->).
  pose proof (wf_tasks w Hw t n pc Ht) as Hst'.
  rewrite Hst in Hst'. injection Hst' as ->.
  rewrite (wf_flags w Hw t n pc Ht), Hs.
  eexists. split; [reflexivity|]. unfold set_caller. rewrite Hc.
  cbn [callers]. apply list_lookup_insert_eq.
  by eapply lookup_lt_Some.
Qed.

Lemma set_task_lookup (w : world) (t : nat) (n : string) (old pc : task_pc) :
  tasks w !! t = Some (n, old) ->
  tasks (set_task t pc w) !! t = Some (n, pc).
Proof.
  intros H. unfold set_task. rewrite H. cbn [tasks].
  apply list_lookup_insert_eq. by eapply lookup_lt_Some.
Qed.

(** X28: a startup that is under way can end in two ways, by
    completing and by raising, and either way every call that waits
    for the name can return afterwards: a failed startup does not
    leave its callers blocked. *)
Theorem startup_outcome_releases_waiters (names : list string)
    (schedule : list label) (w : world) (t : nat) (n : string) (l : label) :
  run schedule (boot names) = Some w ->
  tasks w !! t = Some (n, Starting) ->
  l = StartupDone t \/ l = StartupRaises t ->
  exists w',
    exec l w = Some w'
    /\ (l = StartupRaises t -> tasks w' !! t = Some (n, Finished))
    /\ forall i e,
         callers w' !! i = Some (n, Waiting e) ->
         exists w'', exec (Call i) w' = Some w''
                     /\ callers w'' !! i = Some (n, Returned).
Proof.
  intros Hrun Htk Hl.
  pose proof (run_wf _ _ _ (boot_wf names) Hrun) as Hw.
  destruct (signal_defined w t n _ Hw Htk) as [w1 Hs1].
  pose proof (signal_events _ _ _ _ _ Hw Htk Hs1) as E1.
  assert (Htk1 : tasks w1 !! t = Some (n, Starting)) by (by subst w1).
  assert (exists w' pc, exec l w = Some w'
                        /\ tasks w' !! t = Some (n, pc)
                        /\ signalled pc = true
                        /\ (l = StartupRaises t -> pc = Finished))
    as (w' & pc & He & Ht' & Hsg & Hfin).
  { destruct Hl as [-> | ->]; cbn [exec]; rewrite Htk.
    - rewrite Hs1. destruct (_cleanup_events (manager w1) !! n) as [c|].
      + exists (set_task t (Serving c) w1), (Serving c).
        split; [reflexivity|]. split; [by eapply set_task_lookup|].
        split; [reflexivity | discriminate].
      + exists (set_task t Finished w1), Finished.
        split; [reflexivity|]. split; [by eapply set_task_lookup|].
        split; [reflexivity | discriminate].
    - unfold handle_failure. rewrite Hs1. cbn [default from_option id].
      exists (set_task t Finished w1), Finished.
      split; [reflexivity|]. split; [by eapply set_task_lookup|].
      by split. }
  exists w'. split; [exact He|]. split.
  - intros Hr. by rewrite (Hfin Hr) in Ht'.
  - intros i e Hc.
    apply (released w' t i n pc e (exec_wf _ _ _ Hw He) Ht' Hsg Hc).
Qed.

Lemma startup_outcome_releases_waiters_witness :
  exists w',
    exec (StartupRaises 0)
         (default (boot [])
            (run [Call 0; Call 1; TaskBegin 0] (boot ["a"; "a"])))
    = Some w'
    /\ (StartupRaises 0 = StartupRaises 0 ->
        tasks w' !! 0 = Some ("a", Finished))
    /\ forall i e,
         callers w' !! i = Some ("a", Waiting e) ->
         exists w'', exec (Call i) w' = Some w''
                     /\ callers w'' !! i = Some ("a", Returned).
Proof.
  apply (startup_outcome_releases_waiters ["a"; "a"]
           [Call 0; Call 1; TaskBegin 0] _ 0 "a" (StartupRaises 0)
           eq_refl eq_refl (or_intror eq_refl)).
Defined.

(** *** Stopping *)

(** X29: [stop] for a name that is not tracked returns at once and
    changes nothing.  For a name whose task is serving, in a world
    reached from a fresh manager by calls of [ensure_started], it sets
    the cleanup event of that task, which can then take its shutdown
    step and finish.  When [stop] has run to its end the name is
    tracked in none of the three tables and the entries of the other
    names are as they were. *)
Theorem stop_untracks (names : list string) (schedule : list label)
    (w : world) (name : string) :
  run schedule (boot names) = Some w ->
  (_started (manager w) !! name = None ->
   stop_enter name w = (w, StopReturned))
  /\ (forall t c,
        tasks w !! t = Some (name, Serving c) ->
        exists w1 w2,
          stop_enter name w = (w1, StopWaiting t)
          /\ events w1 !! c = Some true
          /\ exec (Shutdown t) w1 = Some w2
          /\ tasks w2 !! t = Some (name, Finished))
  /\ (let m := manager (stop_leave name w) in
      _started m !! name = None
      /\ _cleanup_events m !! name = None
      /\ _initialized m !! name = None
      /\ forall n, n <> name ->
           _started m !! n = _started (manager w) !! n
           /\ _cleanup_events m !! n = _cleanup_events (manager w) !! n
           /\ _initialized m !! n = _initialized (manager w) !! n).
Proof.
  intros Hrun.
  destruct (run_idle _ _ _ (boot_wf names) (boot_idle names) Hrun)
    as [Hw Hi].
  split; [|split].
  - intros H. unfold stop_enter. by rewrite H.
  - intros t c Htk.
    pose proof (wf_tasks w Hw t name _ Htk) as Hst.
    destruct (wf_tables w Hw name t Hst) as [Hcl _].
    destruct (Hi t name _ Htk) as [Hf Hc]. pose proof (Hc c eq_refl) as ->.
    assert (Hlt : 2 * t < length (events w)) by (by eapply lookup_lt_Some).
    unfold stop_enter. rewrite Hst, Hcl.
    eexists _, _. split; [reflexivity|]. cbn [events].
    split; [by apply list_lookup_insert_eq|].
    cbn [exec tasks events]. rewrite Htk.
    rewrite list_lookup_insert_eq by exact Hlt.
    split; [reflexivity|].
    apply set_task_lookup with (old := Serving (2 * t)). exact Htk.
  - cbn zeta. unfold stop_leave. cbn [manager _started _cleanup_events
                                      _initialized].
    rewrite !lookup_delete_eq. repeat split; try reflexivity;
      by apply lookup_delete_ne.
Qed.

Lemma stop_untracks_witness :
  exists w1 w2,
    stop_enter "a" Examples.after_three_calls = (w1, StopWaiting 0)
    /\ events w1 !! 0 = Some true
    /\ exec (Shutdown 0) w1 = Some w2
    /\ tasks w2 !! 0 = Some ("a", Finished).
Proof.
  apply (proj1 (proj2 (stop_untracks ["a"; "a"; "a"] Examples.three_calls
                         Examples.after_three_calls "a" eq_refl)) 0 0).
  reflexivity.
Defined.

(** *** Restarting after a stop *)

Lemma wf_sound (w : world) : wf w -> sound w.
Proof.
  intros [He Hs Ht Htab Hf Hc]. split; try done.
  - intros t n pc H. right. by apply (Ht t n pc).
  - intros i n pc Hi. specialize (Hc i n pc Hi).
    destruct pc; cbn in *; try done.
    destruct Hc as (t & Hst & ->). destruct (Hs n t Hst) as [pc' Hpc'].
    by exists t, pc'.
Qed.

Lemma sound_set_caller (w : world) (i : nat) (n : string)
    (old pc : caller_pc) :
  sound w -> callers w !! i = Some (n, old) -> caller_sound w n pc ->
  sound (set_caller i pc w).
Proof.
  intros [He Hs Ht Htab Hf Hc] Hi Hpc. unfold set_caller. rewrite Hi.
  split; cbn; try done.
  intros j m pc' Hj. destruct (decide (i = j)) as [<-|Hne].
  - rewrite list_lookup_insert_eq in Hj by (by eapply lookup_lt_Some).
    by injection Hj as <- <-.
  - rewrite list_lookup_insert_ne in Hj by done. by apply (Hc j).
Qed.

(** A task that has not completed changes its place. *)
Lemma sound_set_task (w : world) (ev : list bool) (t : nat) (n : string)
    (old pc : task_pc) :
  sound w -> tasks w !! t = Some (n, old) -> old <> Finished ->
  length ev = length (events w) ->
  (forall k, k <> t -> ev !! (2 * k + 1) = events w !! (2 * k + 1)) ->
  ev !! (2 * t + 1) = Some (signalled pc) ->
  (signalled old = true -> signalled pc = true) ->
  sound (set_task t pc (World (manager w) ev (tasks w) (callers w))).
Proof.
  intros [He Hs Ht Htab Hf Hc] Hold Hnf Hlen Hev Hfl Hmono.
  unfold set_task. cbn [tasks manager events callers]. rewrite Hold.
  assert (t < length (tasks w)) as Hlt by (by eapply lookup_lt_Some).
  split; cbn.
  - rewrite length_insert. lia.
  - intros m t' Hm. destruct (Hs m t' Hm) as [pc' Hpc'].
    destruct (decide (t = t')) as [<-|Hne].
    + rewrite list_lookup_insert_eq by done. rewrite Hold in Hpc'.
      injection Hpc' as <- <-. eauto.
    + rewrite list_lookup_insert_ne by done. eauto.
  - intros t' m pc' Hm. destruct (decide (t = t')) as [<-|Hne].
    + rewrite list_lookup_insert_eq in Hm by done.
      injection Hm as <- <-. right.
      by destruct (Ht t n old Hold) as [->|H].
    + rewrite list_lookup_insert_ne in Hm by done. by apply (Ht t' m pc').
  - done.
  - intros t' m pc' Hm. destruct (decide (t = t')) as [<-|Hne].
    + rewrite list_lookup_insert_eq in Hm by done.
      by injection Hm as <- <-.
    + rewrite list_lookup_insert_ne in Hm by done.
      etrans; [apply (Hev t'); congruence | by apply (Hf t' m pc')].
  - intros i m cpc Hi. specialize (Hc i m cpc Hi).
    destruct cpc; cbn in *; try done.
    + destruct Hc as (t' & pc' & Ht' & ->).
      destruct (decide (t = t')) as [<-|Hne].
      * rewrite Hold in Ht'. injection Ht' as <- <-.
        exists t, pc. by rewrite list_lookup_insert_eq.
      * exists t', pc'. by rewrite list_lookup_insert_ne.
    + destruct Hc as (t' & pc' & Ht' & Hs').
      destruct (decide (t = t')) as [<-|Hne].
      * rewrite Hold in Ht'. injection Ht' as <- <-.
        exists t, pc. rewrite list_lookup_insert_eq by done. auto.
      * exists t', pc'. by rewrite list_lookup_insert_ne.
Qed.

Lemma world_eta (w : world) :
  World (manager w) (events w) (tasks w) (callers w) = w.
Proof. by destruct w. Qed.

Lemma sound_move_task (w : world) (t : nat) (n : string)
    (old pc : task_pc) :
  sound w -> tasks w !! t = Some (n, old) -> old <> Finished ->
  signalled pc = signalled old -> sound (set_task t pc w).
Proof.
  intros Hw Hold Hnf Hsig. rewrite <- (world_eta w).
  eapply sound_set_task; try done.
  - rewrite Hsig. by apply (sound_flags w Hw t n old).
  - by rewrite Hsig.
Qed.

Lemma sound_signal (w w' : world) (t : nat) (n : string) (old : task_pc) :
  sound w -> tasks w !! t = Some (n, old) -> old <> Finished ->
  signal n w = Some w' ->
  w' = World (manager w) (<[2 * t + 1 := true]> (events w)) (tasks w)
             (callers w).
Proof.
  intros Hw Hold Hnf. unfold signal.
  destruct (sound_tasks w Hw t n old Hold) as [->|Hst]; [done|].
  destruct (sound_tables w Hw n t Hst) as [_ ->]. by intros [= <-].
Qed.

Lemma sound_signal_defined (w : world) (t : nat) (n : string)
    (old : task_pc) :
  sound w -> tasks w !! t = Some (n, old) -> old <> Finished ->
  is_Some (signal n w).
Proof.
  intros Hw Hold Hnf. unfold signal.
  destruct (sound_tasks w Hw t n old Hold) as [->|Hst]; [done|].
  destruct (sound_tables w Hw n t Hst) as [_ ->]. by eexists.
Qed.

Lemma sound_signal_task (w w' : world) (t : nat) (n : string)
    (old pc : task_pc) :
  sound w -> tasks w !! t = Some (n, old) -> old <> Finished ->
  signal n w = Some w' -> signalled pc = true ->
  sound (set_task t pc w').
Proof.
  intros Hw Hold Hnf Hsig Hpc.
  rewrite (sound_signal _ _ _ _ _ Hw Hold Hnf Hsig).
  assert (2 * t + 1 < length (events w)) as Hlt.
  { pose proof (sound_events w Hw).
    assert (t < length (tasks w)) by (by eapply lookup_lt_Some). lia. }
  eapply sound_set_task; try done.
  - by rewrite length_insert.
  - intros k Hk. apply list_lookup_insert_ne. lia.
  - rewrite Hpc. by apply list_lookup_insert_eq.
Qed.

Lemma sound_spawn (w : world) (n : string) :
  sound w -> _started (manager w) !! n = None ->
  sound (World (Manager (<[n := length (tasks w)]> (_started (manager w)))
                        (<[n := length (events w)]>
                           (_cleanup_events (manager w)))
                        (<[n := S (length (events w))]>
                           (_initialized (manager w))))
               (events w ++ [false; false])
               (tasks w ++ [(n, Created)]) (callers w)).
Proof.
  intros [He Hs Ht Htab Hf Hc] Hnew. split; cbn.
  - rewrite !length_app. cbn. lia.
  - intros m t Hm. destruct (decide (n = m)) as [<-|Hne].
    + rewrite lookup_insert_eq in Hm. injection Hm as <-.
      exists Created. by rewrite list_lookup_middle.
    + rewrite lookup_insert_ne in Hm by done.
      destruct (Hs m t Hm) as [pc Hpc]. exists pc.
      by apply lookup_app_l_Some.
  - intros t m pc Hm. apply lookup_app_Some in Hm as [Hm|[Hge Hm]].
    + destruct (Ht t m pc Hm) as [->|Hst]; [by left|]. right.
      rewrite lookup_insert_ne; [done | congruence].
    + destruct (t - length (tasks w)) as [|k] eqn:Ek; [|done].
      injection Hm as <- <-. right. rewrite lookup_insert_eq. f_equal. lia.
  - intros m t Hm. destruct (decide (n = m)) as [<-|Hne].
    + rewrite lookup_insert_eq in Hm. injection Hm as <-.
      rewrite !lookup_insert_eq. split; f_equal; lia.
    + rewrite lookup_insert_ne in Hm by done.
      rewrite !lookup_insert_ne by done. by apply Htab.
  - intros t m pc Hm. apply lookup_app_Some in Hm as [Hm|[Hge Hm]].
    + pose proof (Hf t m pc Hm) as Hfl.
      by apply lookup_app_l_Some.
    + destruct (t - length (tasks w)) as [|k] eqn:Ek; [|done].
      injection Hm as <- <-. change (signalled Created) with false.
      match goal with
      | |- (_ ++ _) !! ?k = _ =>
          assert (k = length (events w) + 1) as -> by lia
      end.
      rewrite lookup_app_r by lia.
      assert (length (events w) + 1 - length (events w) = 1) as -> by lia.
      reflexivity.
  - intros i m pc Hi. specialize (Hc i m pc Hi).
    destruct pc; cbn in *; try done.
    + destruct Hc as (t & pc' & Htk & ->). exists t, pc'.
      split; [|done]. by apply lookup_app_l_Some.
    + destruct Hc as (t & pc' & Htk & Hsg). exists t, pc'.
      split; [|done]. by apply lookup_app_l_Some.
Qed.

Lemma enter_sound (w : world) (i : nat) (n : string) :
  sound w -> callers w !! i = Some (n, Entry) -> sound (enter i n w).
Proof.
  intros Hw Hi. unfold enter.
  destruct (_started (manager w) !! n) as [t|] eqn:Est.
  - destruct (sound_tables w Hw n t Est) as [_ ->].
    eapply sound_set_caller; [done..|]. cbn.
    destruct (sound_started w Hw n t Est) as [pc Hpc]. by exists t, pc.
  - eapply sound_set_caller; [by apply sound_spawn | exact Hi |].
    cbn. exists (length (tasks w)), Created.
    split; [by rewrite list_lookup_middle|].
    pose proof (sound_events w Hw). lia.
Qed.

Lemma exec_sound (l : label) (w w' : world) :
  sound w -> exec l w = Some w' -> sound w'.
Proof.
  intros Hw. destruct l as [i|t|t|t|t|t]; cbn [exec].
  - destruct (callers w !! i) as [[n [|e| |]]|] eqn:Hi; try done.
    + intros [= <-]. by apply enter_sound.
    + destruct (events w !! e) as [[|]|] eqn:Hev; try done.
      intros [= <-]. eapply sound_set_caller; [done..|].
      pose proof (sound_callers w Hw i n _ Hi) as (t & pc & Hpc & ->).
      pose proof (sound_flags w Hw t n pc Hpc) as Hfl.
      rewrite Hfl in Hev. injection Hev as Hsg. cbn. eauto.
  - destruct (tasks w !! t) as [[n []]|] eqn:Htk; try done.
    intros [= <-]. by eapply sound_move_task.
  - destruct (tasks w !! t) as [[n []]|] eqn:Htk; try done.
    destruct (sound_signal_defined w t n _ Hw Htk) as [w1 Hs1]; [done|].
    rewrite Hs1.
    destruct (_cleanup_events (manager w1) !! n);
      intros [= <-]; by eapply sound_signal_task.
  - destruct (tasks w !! t) as [[n []]|] eqn:Htk; try done.
    intros [= <-]. unfold handle_failure.
    destruct (sound_signal_defined w t n _ Hw Htk) as [w1 Hs1]; [done|].
    rewrite Hs1. by eapply sound_signal_task.
  - destruct (tasks w !! t) as [[n [| |c|]]|] eqn:Htk; try done.
    destruct (events w !! c) as [[|]|]; try done.
    intros [= <-]. by eapply sound_move_task.
  - destruct (tasks w !! t) as [[n [| |c|]]|] eqn:Htk; try done.
    destruct (events w !! c) as [[|]|]; try done.
    intros [= <-]. unfold handle_failure.
    destruct (sound_signal_defined w t n _ Hw Htk) as [w1 Hs1]; [done|].
    rewrite Hs1. by eapply sound_signal_task.
Qed.

Lemma run_sound (schedule : list label) (w w' : world) :
  sound w -> run schedule w = Some w' -> sound w'.
Proof.
  revert w. induction schedule as [|l schedule IH]; intros w Hw.
  - by intros [= <-].
  - cbn [run]. destruct (exec l w) as [w1|] eqn:E; [|done].
    apply IH. by eapply exec_sound.
Qed.

(** [stop] sets a cleanup event and nothing else. *)
Lemma stop_enter_sound (w w1 : world) (name : string) (pc : stop_pc) :
  sound w -> stop_enter name w = (w1, pc) ->
  sound w1 /\ manager w1 = manager w /\ tasks w1 = tasks w
  /\ callers w1 = callers w
  /\ forall t, pc = StopWaiting t -> _started (manager w) !! name = Some t.
Proof.
  intros Hw. unfold stop_enter.
  destruct (_started (manager w) !! name) as [t|] eqn:Est.
  2:{ intros [= <- <-]. split; [exact Hw|]. split; [done|].
      split; [done|]. split; [done|]. by intros t. }
  destruct (sound_tables w Hw name t Est) as [-> _].
  intros [= <- <-]. cbn [manager tasks callers].
  split; [|split; [done|]; split; [done|]; split; [done|];
           by intros ? [= <-]].
  destruct Hw as [He Hs Ht Htab Hf Hc]. split; cbn; try done.
  - by rewrite length_insert.
  - intros t' m pc' Hm. rewrite list_lookup_insert_ne by lia.
    by apply (Hf t' m pc').
Qed.

(** The three [pop]s, once the task registered under the name has
    completed. *)
Lemma stop_leave_sound (w : world) (name : string) (t : nat) :
  sound w -> _started (manager w) !! name = Some t ->
  tasks w !! t = Some (name, Finished) ->
  sound (stop_leave name w).
Proof.
  intros [He Hs Ht Htab Hf Hc] Hst Hfin. unfold stop_leave. split; cbn.
  - done.
  - intros m t' Hm. apply lookup_delete_Some in Hm as [_ Hm]. by apply Hs.
  - intros t' m pc Hm. destruct (Ht t' m pc Hm) as [->|Hm']; [by left|].
    destruct (decide (name = m)) as [<-|Hne].
    + left. rewrite Hst in Hm'. injection Hm' as <-.
      rewrite Hfin in Hm. by injection Hm as <-.
    + right. by rewrite lookup_delete_ne.
  - intros m t' Hm. apply lookup_delete_Some in Hm as [Hne Hm].
    rewrite !lookup_delete_ne by done. by apply Htab.
  - done.
  - intros i m pc Hi. by apply (Hc i m pc).
Qed.

(** What the parts of a step leave alone. *)
Lemma set_caller_frame (w : world) (i : nat) (pc : caller_pc) :
  manager (set_caller i pc w) = manager w
  /\ events (set_caller i pc w) = events w
  /\ tasks (set_caller i pc w) = tasks w
  /\ forall j, j <> i -> callers (set_caller i pc w) !! j = callers w !! j.
Proof.
  unfold set_caller. destruct (callers w !! i) as [[n old]|]; cbn;
    (split; [done|]; split; [done|]; split; [done|]); intros j Hj;
    [|done].
  by apply list_lookup_insert_ne.
Qed.

Lemma set_task_frame (w : world) (t : nat) (pc : task_pc) :
  manager (set_task t pc w) = manager w
  /\ events (set_task t pc w) = events w
  /\ callers (set_task t pc w) = callers w
  /\ forall k, k <> t -> tasks (set_task t pc w) !! k = tasks w !! k.
Proof.
  unfold set_task. destruct (tasks w !! t) as [[n old]|]; cbn;
    (split; [done|]; split; [done|]; split; [done|]); intros k Hk;
    [|done].
  by apply list_lookup_insert_ne.
Qed.

Lemma insert_true_mono (ev : list bool) (e k : nat) :
  ev !! e = Some true -> <[k := true]> ev !! e = Some true.
Proof.
  intros H. destruct (decide (k = e)) as [->|Hne].
  - apply list_lookup_insert_eq. by eapply lookup_lt_Some.
  - by rewrite list_lookup_insert_ne.
Qed.

Lemma handle_failure_frame (w : world) (n : string) :
  manager (handle_failure n w) = manager w
  /\ tasks (handle_failure n w) = tasks w
  /\ callers (handle_failure n w) = callers w
  /\ forall e, events w !! e = Some true ->
               events (handle_failure n w) !! e = Some true.
Proof.
  unfold handle_failure, signal.
  destruct (_initialized (manager w) !! n) as [k|];
    cbn [default from_option id manager tasks callers events];
    (split; [done|]; split; [done|]; split; [done|]); intros e He;
    [|done].
  by apply insert_true_mono.
Qed.

Lemma signal_frame (w w1 : world) (n : string) :
  signal n w = Some w1 -> w1 = handle_failure n w.
Proof. unfold handle_failure. by intros ->. Qed.

Lemma enter_frame (w : world) (i : nat) (n : string) :
  (forall e, events w !! e = Some true ->
             events (enter i n w) !! e = Some true)
  /\ (forall k x, tasks w !! k = Some x -> tasks (enter i n w) !! k = Some x)
  /\ (forall j, j <> i -> callers (enter i n w) !! j = callers w !! j).
Proof.
  unfold enter.
  destruct (_started (manager w) !! n) as [t|].
  - destruct (_initialized (manager w) !! n) as [e0|];
      match goal with
      | |- context [set_caller i ?pc w] =>
          destruct (set_caller_frame w i pc) as (_ & -> & -> & Hc)
      end; (split; [done|]; split; [done|]); exact Hc.
  - match goal with
    | |- context [set_caller i ?pc ?w0] =>
        destruct (set_caller_frame w0 i pc) as (_ & -> & -> & Hc)
    end.
    cbn [events tasks callers] in *.
    split; [|split; [|exact Hc]].
    + intros e He. by apply lookup_app_l_Some.
    + intros k x Hk. by apply lookup_app_l_Some.
Qed.

(** What a step leaves alone: a set event stays set, a completed task
    stays completed, and a call changes its place by its own steps
    only. *)
Lemma exec_frame (l : label) (w w' : world) :
  exec l w = Some w' ->
  (forall e, events w !! e = Some true -> events w' !! e = Some true)
  /\ (forall k n, tasks w !! k = Some (n, Finished) ->
                  tasks w' !! k = Some (n, Finished))
  /\ (forall j, l <> Call j -> callers w' !! j = callers w !! j).
Proof.
  destruct l as [i|t|t|t|t|t]; cbn [exec].
  - destruct (callers w !! i) as [[n [|e| |]]|] eqn:Hi; try done.
    + intros [= <-]. destruct (enter_frame w i n) as (He & Ht & Hc).
      split; [exact He|]. split; [intros k m; apply Ht|].
      intros j Hj. apply Hc. congruence.
    + destruct (events w !! e) as [[|]|]; try done. intros [= <-].
      destruct (set_caller_frame w i Returned) as (_ & -> & -> & Hc).
      split; [done|]. split; [done|]. intros j Hj. apply Hc. congruence.
  - destruct (tasks w !! t) as [[n []]|] eqn:Htk; try done. intros [= <-].
    destruct (set_task_frame w t Starting) as (_ & -> & -> & Ht).
    split; [done|]. split; [|done].
    intros k m Hk. rewrite Ht; [done | congruence].
  - destruct (tasks w !! t) as [[n []]|] eqn:Htk; try done. intros He.
    assert (exists pc, w' = set_task t pc (handle_failure n w)) as [pc ->].
    { unfold handle_failure.
      destruct (signal n w) as [w1|]; cbn [default from_option id].
      - destruct (_cleanup_events (manager w1) !! n); injection He as <-;
          eauto.
      - injection He as <-. eauto. }
    destruct (handle_failure_frame w n) as (_ & Ht1 & Hc1 & He1).
    destruct (set_task_frame (handle_failure n w) t pc)
      as (_ & -> & -> & Ht').
    split; [exact He1|]. split; [|by rewrite Hc1].
    intros k m Hk. rewrite Ht', Ht1; [done | congruence].
  - destruct (tasks w !! t) as [[n []]|] eqn:Htk; try done. intros [= <-].
    destruct (handle_failure_frame w n) as (_ & Ht1 & Hc1 & He1).
    destruct (set_task_frame (handle_failure n w) t Finished)
      as (_ & -> & -> & Ht').
    split; [exact He1|]. split; [|by rewrite Hc1].
    intros k m Hk. rewrite Ht', Ht1; [done | congruence].
  - destruct (tasks w !! t) as [[n [| |c|]]|] eqn:Htk; try done.
    destruct (events w !! c) as [[|]|]; try done. intros [= <-].
    destruct (set_task_frame w t Finished) as (_ & -> & -> & Ht).
    split; [done|]. split; [|done].
    intros k m Hk. rewrite Ht; [done | congruence].
  - destruct (tasks w !! t) as [[n [| |c|]]|] eqn:Htk; try done.
    destruct (events w !! c) as [[|]|]; try done. intros [= <-].
    destruct (handle_failure_frame w n) as (_ & Ht1 & Hc1 & He1).
    destruct (set_task_frame (handle_failure n w) t Finished)
      as (_ & -> & -> & Ht').
    split; [exact He1|]. split; [|by rewrite Hc1].
    intros k m Hk. rewrite Ht', Ht1; [done | congruence].
Qed.

Lemma exec_started (l : label) (w w' : world) (n : string) (t : nat) :
  exec l w = Some w' -> _started (manager w) !! n = Some t ->
  _started (manager w') !! n = Some t.
Proof.
  intros He Hst.
  assert (forall k pc w0, manager (set_task k pc w0) = manager w0) as Hmt
    by (intros k pc w0; apply set_task_frame).
  assert (forall k pc w0, manager (set_caller k pc w0) = manager w0) as Hmc
    by (intros k pc w0; apply set_caller_frame).
  assert (forall m w0, manager (handle_failure m w0) = manager w0) as Hmh
    by (intros m w0; apply handle_failure_frame).
  destruct l as [i|k|k|k|k|k]; cbn [exec] in He.
  - destruct (callers w !! i) as [[m [|e| |]]|]; try done.
    + injection He as <-. unfold enter.
      destruct (_started (manager w) !! m) as [t0|] eqn:Em.
      * destruct (_initialized (manager w) !! m); by rewrite Hmc.
      * rewrite Hmc. cbn [manager _started].
        rewrite lookup_insert_ne; [done | congruence].
    + destruct (events w !! e) as [[|]|]; try done.
      injection He as <-. by rewrite Hmc.
  - destruct (tasks w !! k) as [[m []]|]; try done.
    injection He as <-. by rewrite Hmt.
  - destruct (tasks w !! k) as [[m []]|]; try done.
    destruct (signal m w) as [w1|] eqn:Es.
    + rewrite (signal_frame _ _ _ Es) in He.
      destruct (_cleanup_events (manager (handle_failure m w)) !! m);
        injection He as <-; by rewrite Hmt, Hmh.
    + injection He as <-. by rewrite Hmt.
  - destruct (tasks w !! k) as [[m []]|]; try done.
    injection He as <-. by rewrite Hmt, Hmh.
  - destruct (tasks w !! k) as [[m [| |c|]]|]; try done.
    destruct (events w !! c) as [[|]|]; try done.
    injection He as <-. by rewrite Hmt.
  - destruct (tasks w !! k) as [[m [| |c|]]|]; try done.
    destruct (events w !! c) as [[|]|]; try done.
    injection He as <-. by rewrite Hmt, Hmh.
Qed.

Lemma run_started (schedule : list label) (w w' : world) (n : string)
    (t : nat) :
  run schedule w = Some w' -> _started (manager w) !! n = Some t ->
  _started (manager w') !! n = Some t.
Proof.
  revert w. induction schedule as [|l schedule IH]; intros w.
  - by intros [= <-].
  - cbn [run]. destruct (exec l w) as [w1|] eqn:E; [|done].
    intros Hr Hst. apply (IH w1 Hr). by eapply exec_started.
Qed.

(** A step of a world in which a restart has taken place. *)
Lemma exec_restarted (l : label) (w w' : world) (name : string)
    (t t' i : nat) :
  sound w -> restarted name t t' i w -> exec l w = Some w' ->
  restarted name t t' i w'.
Proof.
  intros Hw (Hne & Hold & Hst & pc & Hnew & Hcall) He.
  pose proof (exec_sound _ _ _ Hw He) as Hw'.
  pose proof (exec_started _ _ _ _ _ He Hst) as Hst'.
  destruct (sound_started w' Hw' name t' Hst') as [pc' Hnew'].
  destruct (exec_frame _ _ _ He) as (Hev & Hfin & Hcal).
  split; [exact Hne|]. split; [by apply Hfin|]. split; [exact Hst'|].
  exists pc'. split; [exact Hnew'|].
  pose proof (sound_flags w Hw t' name pc Hnew) as Hfl.
  pose proof (sound_flags w' Hw' t' name pc' Hnew') as Hfl'.
  assert (l = Call i \/ l <> Call i) as [->|Hl].
  { destruct l as [j| | | | |]; try (right; discriminate).
    destruct (decide (j = i)) as [->|]; [by left | right; congruence]. }
  - cbn [exec] in He. destruct Hcall as [Hc | [Hc _]]; rewrite Hc in He;
      [|done].
    rewrite Hfl in He. destruct (signalled pc) eqn:Hsg; [|done].
    injection He as <-. right. split.
    + unfold set_caller. rewrite Hc. cbn [callers].
      apply list_lookup_insert_eq. by eapply lookup_lt_Some.
    + rewrite (Hev _ Hfl) in Hfl'. by injection Hfl'.
  - rewrite (Hcal i Hl). destruct Hcall as [Hc | [Hc Hsg]]; [by left|].
    right. split; [exact Hc|]. rewrite Hsg in Hfl.
    rewrite (Hev _ Hfl) in Hfl'. by injection Hfl'.
Qed.

Lemma run_restarted (schedule : list label) (w w' : world) (name : string)
    (t t' i : nat) :
  sound w -> restarted name t t' i w -> run schedule w = Some w' ->
  restarted name t t' i w'.
Proof.
  revert w. induction schedule as [|l schedule IH]; intros w Hw Hr.
  - by intros [= <-].
  - cbn [run]. destruct (exec l w) as [w1|] eqn:E; [|done].
    apply IH; [by eapply exec_sound | by eapply exec_restarted].
Qed.

(** X30: when [stop] has run to its end for a name (it has set the
    cleanup event, the task of the name has completed, whatever else
    ran in between, and the three entries have been removed), the next
    call of [ensure_started] for the name makes a new task, which is
    not the stopped one.  Whatever runs afterwards, the stopped task
    stays completed, the new task stays the one registered under the
    name, and the call waits for the [initialized] event of the new
    task: it has returned only if the new task has gone past its
    [set()], never on the strength of the stopped one. *)
Theorem restart_is_fresh (names : list string)
    (before during after : list label) (name : string) (t i : nat)
    (w0 w1 w2 w' : world) :
  run before (boot names) = Some w0 ->
  stop_enter name w0 = (w1, StopWaiting t) ->
  run during w1 = Some w2 ->
  tasks w2 !! t = Some (name, Finished) ->
  callers w2 !! i = Some (name, Entry) ->
  run after (enter i name (stop_leave name w2)) = Some w' ->
  restarted name t (length (tasks w2)) i w'.
Proof.
  intros Hb Hstop Hd Hfin Hi Ha.
  pose proof (wf_sound _ (run_wf _ _ _ (boot_wf names) Hb)) as Hw0.
  destruct (stop_enter_sound _ _ _ _ Hw0 Hstop)
    as (Hw1 & Hm1 & _ & _ & Hst0).
  specialize (Hst0 t eq_refl). rewrite <- Hm1 in Hst0.
  pose proof (run_sound _ _ _ Hw1 Hd) as Hw2.
  pose proof (run_started _ _ _ _ _ Hd Hst0) as Hst2.
  pose proof (stop_leave_sound _ _ _ Hw2 Hst2 Hfin) as Hw3.
  assert (Hi3 : callers (stop_leave name w2) !! i = Some (name, Entry))
    by exact Hi.
  pose proof (enter_sound _ _ _ Hw3 Hi3) as Hw4.
  assert (Hlt : t < length (tasks w2)) by (by eapply lookup_lt_Some).
  assert (Hil : i < length (callers w2)) by (by eapply lookup_lt_Some).
  refine (run_restarted after _ _ _ _ _ _ Hw4 _ Ha).
  unfold restarted, enter, stop_leave.
  cbn [manager _started _cleanup_events _initialized events tasks callers].
  rewrite lookup_delete_eq. unfold set_caller. cbn [callers]. rewrite Hi.
  cbn [tasks events manager _started callers].
  split; [lia|]. split; [by apply lookup_app_l_Some|].
  split; [apply lookup_insert_eq|].
  exists Created. split; [by rewrite list_lookup_middle|].
  left. rewrite list_lookup_insert_eq by exact Hil.
  pose proof (sound_events w2 Hw2) as He. do 3 f_equal. lia.
Qed.

Lemma restart_is_fresh_witness :
  restarted "a" 0 1 1 after_restart
  /\ tasks after_restart = [("a", Finished); ("a", Serving 2)]
  /\ callers after_restart = [("a", Returned); ("a", Returned)].
Proof.
  split; [|split; reflexivity].
  apply (restart_is_fresh ["a"; "a"] one_returned [Shutdown 0]
           second_start "a" 0 1 first_served stop_signalled stop_awaited);
    reflexivity.
Defined.

End LifeFacts.
